(** * Mutable transactions: templating, signing, fee subtraction and coin selection

    A shallow embedding of [mtx.js] (the [MTX] and [CoinSelector] objects)
    and the properties of its natural-language specification.

    Conventions of the embedding.
    - JavaScript numbers that hold amounts, heights, sizes and indices are
      integers of the safe range; they are modelled as [Z].
    - A [Buffer] is a list of bytes, each byte a [Z] in [0, 255].
    - A function that can throw returns a [result]; the error says which
      JavaScript error object was thrown.
    - JavaScript arrays are lists of optional elements: [None] is a hole
      left by a write beyond the end of the array.
    - Generators run through [co] are sequential code: a [yield] is a call. *)

From stdpp Require Import base option list gmap strings numbers.

Local Open Scope Z_scope.

(** ** Buffers, values and thrown errors *)

Abbreviation Buffer := (list Z).

(** [buf.length] *)
Definition blen (b : Buffer) : Z := Z.of_nat (length b).

(** What a caller may store in a script or witness: an opcode number or
    a data buffer. A read yields [option item]; [None] is [undefined]. *)
Inductive item :=
  | Num (n : Z)
  | Buf (b : Buffer).

#[global] Instance item_eq_dec : EqDecision item.
Proof. solve_decision. Defined.

Inductive error :=
  | Error (msg : string)
  | AssertionError (msg : string)
  | TypeError (msg : string)
  | FundingError (msg : string) (amounts : option (Z * Z)).

#[global] Instance error_eq_dec : EqDecision error.
Proof. solve_decision. Defined.

Inductive result (A : Type) :=
  | Ok (a : A)
  | Throw (e : error).
Arguments Ok {A} a.
Arguments Throw {A} e.

#[global] Instance result_ret : MRet result := λ A a, Ok a.
#[global] Instance result_bind : MBind result :=
  λ A B f m, match m with Ok a => f a | Throw e => Throw e end.

Definition assert (b : bool) (msg : string) : result unit :=
  if b then Ok () else Throw (AssertionError msg).

Definition isOk {A} (r : result A) : bool :=
  match r with Ok _ => true | Throw _ => false end.

(** [util.equal(a, b)]: equality of two buffers. *)
Definition equal (a b : option item) : bool :=
  match a, b with
  | Some (Buf x), Some (Buf y) => bool_decide (x = y)
  | _, _ => false
  end.

(** [util.indexOf(arr, buf)]: index of the first buffer of [arr] equal
    to [buf], or -1. Entries that are not buffers are skipped. *)
Fixpoint indexOf_from (arr : list (option item)) (buf : Buffer) (i : Z) : Z :=
  match arr with
  | [] => -1
  | Some (Buf b) :: rest =>
      if bool_decide (b = buf) then i else indexOf_from rest buf (i + 1)
  | _ :: rest => indexOf_from rest buf (i + 1)
  end.

Definition indexOf (arr : list (option item)) (buf : Buffer) : Z :=
  indexOf_from arr buf 0.

(** ** JavaScript arrays *)

Section Array.
Context {A : Type}.
  Implicit Types (l : list (option A)) (i : Z) (x : A).

Definition arr_length l : Z := Z.of_nat (length l).

  (** [l[i]] *)
Definition arr_get l i : option A :=
    if decide (0 ≤ i) then mjoin (l !! Z.to_nat i) else None.

  (** [l[i] = x]: a write at or beyond [length] extends the array and
      leaves holes; a negative index is not an element index. *)
Definition arr_set l i x : list (option A) :=
    if decide (i < 0) then l
    else if decide (i < arr_length l) then <[Z.to_nat i := Some x]> l
    else l ++ replicate (Z.to_nat i - length l)%nat None ++ [Some x].

  (** [l.push(x)] *)
Definition arr_push l x : list (option A) := l ++ [Some x].

  (** [l.pop()] *)
Definition arr_pop l : option A * list (option A) :=
    match reverse l with
    | [] => (None, l)
    | last :: _ => (last, take (length l - 1)%nat l)
    end.

  (** [l.splice(i, 1)] *)
Definition arr_splice1 l i : list (option A) :=
    let start := if decide (i < 0) then Z.max (arr_length l + i) 0
                 else Z.min i (arr_length l) in
    delete (Z.to_nat start) l.
End Array.

(** ** Scripts

    Modelled from the spec: the script container ([Script], [Opcode]) is
    not part of the sources at hand. The spec describes scripts as
    length-prefixed sequences of opcodes and data pushes, with a leading
    "empty placeholder" opcode in templates, a multisig script made of a
    threshold, [n] keys, the key count and the multisig opcode, and a
    signature test that is structural. A script keeps its parsed [code]
    and the serialisation [raw] that [compile] recomputes from the code.
    A push is determined by its data: its opcode byte is the minimal
    push opcode for the length of the data. *)
Module Script.

Definition OP_0 : Z := 0.
Definition OP_PUSHDATA1 : Z := 76.
Definition OP_PUSHDATA2 : Z := 77.
Definition OP_PUSHDATA4 : Z := 78.
Definition OP_1NEGATE : Z := 79.
Definition OP_1 : Z := 81.
Definition OP_16 : Z := 96.
Definition OP_DUP : Z := 118.
Definition OP_EQUAL : Z := 135.
Definition OP_EQUALVERIFY : Z := 136.
Definition OP_HASH160 : Z := 169.
Definition OP_CHECKSIG : Z := 172.
Definition OP_CHECKMULTISIG : Z := 174.

Inductive Opcode :=
    | Op (value : Z)
    | Push (data : Buffer).

#[global] Instance Opcode_eq_dec : EqDecision Opcode.
  Proof. solve_decision. Defined.

Record t := { code : list (option Opcode); raw : Buffer }.

#[global] Instance t_eq_dec : EqDecision t.
  Proof. solve_decision. Defined.

  (** The opcode byte of an opcode. *)
Definition value (op : Opcode) : Z :=
    match op with
    | Op v => v
    | Push d =>
        let n := blen d in
        if decide (n ≤ 75) then n
        else if decide (n ≤ 255) then OP_PUSHDATA1
        else if decide (n ≤ 65535) then OP_PUSHDATA2
        else OP_PUSHDATA4
    end.

  (** [op.data || op.value] *)
Definition toValue (op : Opcode) : item :=
    match op with
    | Op v => Num v
    | Push d => Buf d
    end.

  (** [Opcode.fromData(data)] *)
Definition fromData (d : Buffer) : Opcode :=
    match d with
    | [] => Op OP_0
    | [b] =>
        if decide (1 ≤ b ≤ 16) then Op (b + 80)
        else if decide (b = 129) then Op OP_1NEGATE
        else Push d
    | _ => Push d
    end.

  (** [Opcode.from(data)] *)
Definition from (x : item) : Opcode :=
    match x with
    | Num n => Op n
    | Buf d => fromData d
    end.

  (** Serialisation of one opcode. *)
Definition encodeOp (op : Opcode) : Buffer :=
    match op with
    | Op v => [v]
    | Push d =>
        let n := blen d in
        if decide (n ≤ 75) then n :: d
        else if decide (n ≤ 255) then OP_PUSHDATA1 :: n :: d
        else if decide (n ≤ 65535) then
          OP_PUSHDATA2 :: n `mod` 256 :: n `div` 256 :: d
        else
          OP_PUSHDATA4 :: n `mod` 256 :: (n `div` 256) `mod` 256
            :: (n `div` 65536) `mod` 256 :: n `div` 16777216 :: d
    end.

Fixpoint encode (ops : list (option Opcode)) : result Buffer :=
    match ops with
    | [] => Ok []
    | None :: _ => Throw (TypeError "Cannot read property of undefined")
    | Some op :: rest => bs ← encode rest; Ok (encodeOp op ++ bs)
    end.

Definition length (s : t) : Z := arr_length (code s).

  (** A negative index counts from the end. *)
Definition index (s : t) (i : Z) : Z :=
    if decide (i < 0) then length s + i else i.

Definition get (s : t) (i : Z) : option item :=
    toValue <$> arr_get (code s) (index s i).

  (** [Script.getSmall(op)] on the value of a slot. *)
Definition small (v : option item) : Z :=
    match v with
    | Some (Num n) =>
        if decide (n = OP_0) then 0
        else if decide (OP_1 ≤ n ≤ OP_16) then n - 80
        else -1
    | _ => -1
    end.

Definition getSmall (s : t) (i : Z) : Z := small (get s i).

Definition getOp (s : t) (i : Z) : Z :=
    match arr_get (code s) (index s i) with
    | Some op => value op
    | None => -1
    end.

Definition set (s : t) (i : Z) (x : item) : t :=
    {| code := arr_set (code s) (index s i) (from x); raw := raw s |}.

Definition push (s : t) (x : item) : t :=
    {| code := arr_push (code s) (from x); raw := raw s |}.

Definition pop (s : t) : option item * t :=
    let '(op, c) := arr_pop (code s) in
    (toValue <$> op, {| code := c; raw := raw s |}).

Definition remove (s : t) (i : Z) : t :=
    let i := index s i in
    if decide (length s ≤ i) then s
    else {| code := arr_splice1 (code s) i; raw := raw s |}.

Definition compile (s : t) : result t :=
    bs ← encode (code s); Ok {| code := code s; raw := bs |}.

Definition toRaw (s : t) : Buffer := raw s.

Definition toArray (s : t) : list (option item) :=
    fmap (M:=list) (fmap (M:=option) toValue) (code s).

Definition indexOf (s : t) (d : Buffer) : Z := indexOf (toArray s) d.

  (** [Script.isKey], [Script.isSignature]: structural tests on a value. *)
Definition isKey (v : option item) : bool :=
    match v with
    | Some (Buf k) => bool_decide (33 ≤ blen k ≤ 65)
    | _ => false
    end.

Definition isSignature (v : option item) : bool :=
    match v with
    | Some (Buf s) => bool_decide (9 ≤ blen s ≤ 73)
    | _ => false
    end.

  (** A compiled script from a list of opcodes. *)
Definition fromCode (ops : list Opcode) : t :=
    {| code := Some <$> ops; raw := mjoin (encodeOp <$> ops) |}.

Definition fromPubkeyhash (hash : Buffer) : t :=
    fromCode [Op OP_DUP; Op OP_HASH160; from (Buf hash);
              Op OP_EQUALVERIFY; Op OP_CHECKSIG].

  (** *** Pattern tests *)

Definition isPubkey (s : t) : bool :=
    bool_decide (length s = 2) && isKey (get s 0)
    && bool_decide (getOp s 1 = OP_CHECKSIG).

Definition isHash (n : Z) (v : option item) : bool :=
    match v with
    | Some (Buf h) => bool_decide (blen h = n)
    | _ => false
    end.

Definition isPubkeyhash (s : t) : bool :=
    bool_decide (length s = 5)
    && bool_decide (getOp s 0 = OP_DUP)
    && bool_decide (getOp s 1 = OP_HASH160)
    && isHash 20 (get s 2)
    && bool_decide (getOp s 3 = OP_EQUALVERIFY)
    && bool_decide (getOp s 4 = OP_CHECKSIG).

Definition isScripthash (s : t) : bool :=
    bool_decide (length s = 3)
    && bool_decide (getOp s 0 = OP_HASH160)
    && isHash 20 (get s 1)
    && bool_decide (getOp s 2 = OP_EQUAL).

Definition isWitnessPubkeyhash (s : t) : bool :=
    bool_decide (length s = 2)
    && bool_decide (get s 0 = Some (Num OP_0))
    && isHash 20 (get s 1).

Definition isWitnessScripthash (s : t) : bool :=
    bool_decide (length s = 2)
    && bool_decide (get s 0 = Some (Num OP_0))
    && isHash 32 (get s 1).

Definition isProgram (s : t) : bool :=
    bool_decide (length s = 2)
    && bool_decide (0 ≤ getSmall s 0)
    && match get s 1 with
       | Some (Buf d) => bool_decide (2 ≤ blen d ≤ 40)
       | _ => false
       end.

  (** [m key_1 ... key_n n OP_CHECKMULTISIG] with [1 <= m <= n]. *)
Definition isMultisig (s : t) : bool :=
    let m := getSmall s 0 in
    let n := getSmall s (-2) in
    bool_decide (4 ≤ length s)
    && bool_decide (getOp s (-1) = OP_CHECKMULTISIG)
    && bool_decide (1 ≤ m)
    && bool_decide (1 ≤ n)
    && bool_decide (m ≤ n)
    && bool_decide (length s = n + 3)
    && forallb (λ i, isKey (get s i)) (seqZ 1 n).

  (** The redeem script carried as the last push of an unlocking script;
      [parse] is the script parser ([Script.fromRaw]). *)
Definition getRedeem (parse : Buffer → t) (s : t) : option t :=
    match fst (arr_pop (code s)) with
    | Some (Push d) => Some (parse d)
    | _ => None
    end.

End Script.

(** ** Witnesses

    Modelled from the spec: the witness container is not part of the
    sources at hand. A witness is a stack of buffers; the empty
    placeholder is the empty buffer, and recompiling a witness changes
    nothing. *)
Module Witness.

Record t := { items : list (option Buffer) }.

#[global] Instance t_eq_dec : EqDecision t.
  Proof. solve_decision. Defined.

  (** [Witness.encodeItem(data)] *)
Definition encodeItem (x : item) : result Buffer :=
    match x with
    | Buf d => Ok d
    | Num n =>
        if decide (n = Script.OP_1NEGATE) then Ok [129]
        else if decide (n = Script.OP_0) then Ok []
        else if decide (Script.OP_1 ≤ n ≤ Script.OP_16) then Ok [n - 80]
        else Throw (Error "Non-push opcode in witness.")
    end.

Definition length (w : t) : Z := arr_length (items w).

Definition index (w : t) (i : Z) : Z :=
    if decide (i < 0) then length w + i else i.

Definition get (w : t) (i : Z) : option item :=
    Buf <$> arr_get (items w) (index w i).

Definition getSmall (w : t) (i : Z) : Z :=
    match arr_get (items w) (index w i) with
    | Some [] => 0
    | Some [b] => if decide (1 ≤ b ≤ 16) then b else -1
    | _ => -1
    end.

Definition set (w : t) (i : Z) (x : item) : result t :=
    d ← encodeItem x; Ok {| items := arr_set (items w) (index w i) d |}.

Definition push (w : t) (x : item) : result t :=
    d ← encodeItem x; Ok {| items := arr_push (items w) d |}.

Definition pop (w : t) : option item * t :=
    let '(d, c) := arr_pop (items w) in (Buf <$> d, {| items := c |}).

Definition remove (w : t) (i : Z) : t :=
    let i := index w i in
    if decide (length w ≤ i) then w
    else {| items := arr_splice1 (items w) i |}.

Definition compile (w : t) : result t := Ok w.

Definition getRedeem (parse : Buffer → Script.t) (w : t) : option Script.t :=
    match fst (arr_pop (items w)) with
    | Some d => Some (parse d)
    | None => None
    end.

End Witness.

(** ** The vector interface

    [scriptVector] and [signVector] take either a script or a witness
    and use the methods the two containers share. *)
Class Vector (V : Type) := {
  vec_length : V → Z;
  vec_get : V → Z → option item;
  vec_getSmall : V → Z → Z;
  vec_set : V → Z → item → result V;
  vec_push : V → item → result V;
  vec_pop : V → option item * V;
  vec_remove : V → Z → V;
  vec_compile : V → result V;
}.

#[global] Instance Script_Vector : Vector Script.t := {|
  vec_length := Script.length;
  vec_get := Script.get;
  vec_getSmall := Script.getSmall;
  vec_set := λ s i x, Ok (Script.set s i x);
  vec_push := λ s x, Ok (Script.push s x);
  vec_pop := Script.pop;
  vec_remove := Script.remove;
  vec_compile := Script.compile;
|}.

#[global] Instance Witness_Vector : Vector Witness.t := {|
  vec_length := Witness.length;
  vec_get := Witness.get;
  vec_getSmall := Witness.getSmall;
  vec_set := Witness.set;
  vec_push := Witness.push;
  vec_pop := Witness.pop;
  vec_remove := Witness.remove;
  vec_compile := Witness.compile;
|}.

(** ** Coins, inputs, outputs

    Modelled from the spec (section 3, data model): an outpoint is a
    transaction id and an output index; a coin is an outpoint with a
    value, a previous script, a creation height (-1 if unconfirmed) and
    a coinbase flag; a view maps outpoints to coins. *)
Module Outpoint.
Record t := { hash : Buffer; index : Z }.
Definition key (o : t) : Buffer * Z := (hash o, index o).
End Outpoint.

Module Coin.
Record t := {
    height : Z;
    value : Z;
    script : Script.t;
    coinbase : bool;
    hash : Buffer;
    index : Z;
  }.
Definition outpoint (c : t) : Outpoint.t :=
    {| Outpoint.hash := hash c; Outpoint.index := index c |}.
End Coin.

Abbreviation CoinView := (gmap (Buffer * Z) Coin.t).

Module Input.
Record t := {
    prevout : Outpoint.t;
    script : Script.t;
    witness : Witness.t;
    sequence : Z;
  }.

Definition set_script (i : t) (s : Script.t) : t :=
    {| prevout := prevout i; script := s; witness := witness i;
       sequence := sequence i |}.

Definition set_witness (i : t) (w : Witness.t) : t :=
    {| prevout := prevout i; script := script i; witness := w;
       sequence := sequence i |}.

  (** [input.fromCoin(coin)]: a fresh input spending [coin]. *)
Definition fromCoin (c : Coin.t) : t :=
    {| prevout := Coin.outpoint c;
       script := {| Script.code := []; Script.raw := [] |};
       witness := {| Witness.items := [] |};
       sequence := 4294967295 |}.
End Input.

(** [encoding.sizeVarint(n)]: the size of a protocol variable-length
    integer. *)
Definition sizeVarint (n : Z) : Z :=
  if decide (n < 253) then 1
  else if decide (n ≤ 65535) then 3
  else if decide (n ≤ 4294967295) then 5
  else 9.

Module Output.
Record t := { value : Z; script : Script.t }.

  (** [output.getSize()]: 8 bytes of value and a length-prefixed script. *)
Definition getSize (o : t) : Z :=
    8 + sizeVarint (blen (Script.raw (script o))) + blen (Script.raw (script o)).
End Output.

(** [view.addCoin(coin)], [view.getOutput(input)] *)
Definition addCoin (view : CoinView) (c : Coin.t) : CoinView :=
  <[Outpoint.key (Coin.outpoint c) := c]> view.

Definition getOutput (view : CoinView) (i : Input.t) : option Coin.t :=
  view !! Outpoint.key (Input.prevout i).

(** ** The immutable transaction

    Modelled from the spec: [TX], the base of [MTX], is not part of the
    sources at hand. The input value is the sum of the values of the
    coins the inputs spend, looked up in the view; the fee is the input
    value minus the output value, and "zero if not all coins are
    available" (documentation of [MTX.prototype.getFee]). *)
Module TX.
Record t := {
    version : Z;
    flag : Z;
    inputs : list Input.t;
    outputs : list Output.t;
    locktime : Z;
  }.

Definition getOutputValue (tx : t) : Z :=
    foldr (λ o acc, Output.value o + acc) 0 (outputs tx).

Fixpoint sumInputs (view : CoinView) (ins : list Input.t) : option Z :=
    match ins with
    | [] => Some 0
    | i :: rest =>
        match getOutput view i with
        | None => None
        | Some c => (λ t, Coin.value c + t) <$> sumInputs view rest
        end
    end.

Definition getInputValue (tx : t) (view : CoinView) : Z :=
    default 0 (sumInputs view (inputs tx)).

Definition hasCoins (tx : t) (view : CoinView) : bool :=
    bool_decide (inputs tx ≠ [])
    && forallb (λ i, bool_decide (is_Some (getOutput view i))) (inputs tx).

Definition getFee (tx : t) (view : CoinView) : Z :=
    if hasCoins tx view then getInputValue tx view - getOutputValue tx else 0.
End TX.

(** ** External collaborators

    Addresses, key rings, protocol constants, the fee formulas, the
    script parser and the digest-and-sign primitive are consumed through
    narrow interfaces. They are parameters of the development. *)
Record Address := { addr_hash : Buffer; addr_type : Z; addr_version : Z }.

(** What can name an address in [subtractFee]: a hash buffer or a string. *)
Inductive AddrLike :=
  | AddrBuffer (b : Buffer)
  | AddrString (s : string).

(** The values of [options.subtractFee] and of the [index] argument of
    [MTX.prototype.subtractFee]. *)
Inductive SubtractFee :=
  | SFBool (b : bool)
  | SFNumber (i : Z)
  | SFAddr (a : AddrLike)
  | SFList (l : list AddrLike).

Record KeyRing := {
  publicKey : Buffer;
  privateKey : Buffer;
  getKeyHash : Buffer;
  getRedeem : Buffer → option Script.t;
}.

(** A sighash type as callers pass it: a number or a name. *)
Inductive SighashType :=
  | TypeNumber (n : Z)
  | TypeName (s : string).

Class Env := {
  MAX_FEE : Z;
  MIN_FEE : Z;
  MIN_RELAY : Z;
  COINBASE_MATURITY : Z;
  WITNESS_SCALE_FACTOR : Z;
  hashType_ALL : Z;
  hashType : string → Z;
  getMinFee : Z → Z → Z;
  getRoundFee : Z → Z → Z;
  fromRaw : Buffer → Script.t;
  fromAddress : Address → Script.t;
  fromBase58 : string → result Address;
  getHash : AddrLike → option Buffer;
  scriptHash : Script.t → option Buffer;
  dustThreshold : Script.t → option Z → Z;
  signatureHash : TX.t → Z → Script.t → Z → Z → Z → Buffer;
  sign : Buffer → Buffer → Z → Buffer;
}.

Definition ZERO_HASH160 : Buffer := replicate 20 0.

(** The buffer held by a value that a pattern test has shown to be one. *)
Definition bufferOf (v : option item) : Buffer :=
  match v with Some (Buf b) => b | _ => [] end.

(** [output.getDustThreshold(rate)], [output.isDust(rate)], [output.getHash()].
    Modelled from the spec: the dust threshold of an output is "a dust
    threshold for its script type"; an output is dust when its value is
    below the threshold. *)
Definition getDustThreshold `{Env} (o : Output.t) (rate : option Z) : Z :=
  dustThreshold (Output.script o) rate.

Definition isDust `{Env} (o : Output.t) (rate : option Z) : bool :=
  bool_decide (Output.value o < getDustThreshold o rate).

(** ** The mutable transaction *)
Module MTX.

Record t := {
    version : Z;
    flag : Z;
    inputs : list Input.t;
    outputs : list Output.t;
    locktime : Z;
    changeIndex : Z;
    view : CoinView;
  }.

Definition toTX (m : t) : TX.t :=
    {| TX.version := version m; TX.flag := flag m; TX.inputs := inputs m;
       TX.outputs := outputs m; TX.locktime := locktime m |}.

Definition set_inputs (m : t) (ins : list Input.t) : t :=
    {| version := version m; flag := flag m; inputs := ins;
       outputs := outputs m; locktime := locktime m;
       changeIndex := changeIndex m; view := view m |}.

Definition set_outputs (m : t) (outs : list Output.t) : t :=
    {| version := version m; flag := flag m; inputs := inputs m;
       outputs := outs; locktime := locktime m;
       changeIndex := changeIndex m; view := view m |}.

Definition set_changeIndex (m : t) (i : Z) : t :=
    {| version := version m; flag := flag m; inputs := inputs m;
       outputs := outputs m; locktime := locktime m;
       changeIndex := i; view := view m |}.

Definition set_view (m : t) (v : CoinView) : t :=
    {| version := version m; flag := flag m; inputs := inputs m;
       outputs := outputs m; locktime := locktime m;
       changeIndex := changeIndex m; view := v |}.

  (** [new MTX()] *)
Definition empty : t :=
    {| version := 1; flag := 1; inputs := []; outputs := []; locktime := 0;
       changeIndex := -1; view := ∅ |}.

  (** [this.inputs[index]], [this.outputs[index]] *)
Definition nth {A} (l : list A) (i : Z) : option A :=
    if decide (0 ≤ i) then l !! Z.to_nat i else None.

Definition getInputValue (m : t) : Z := TX.getInputValue (toTX m) (view m).
Definition getOutputValue (m : t) : Z := TX.getOutputValue (toTX m).
Definition getFee (m : t) : Z := TX.getFee (toTX m) (view m).

  (** What [addInput] accepts. The form that takes a previous
      transaction and an output index first builds the coin of that
      output and then proceeds as for a coin. *)
Inductive InputSource :=
    | OfCoin (c : Coin.t)
    | OfOutpoint (o : Outpoint.t)
    | OfInput (i : Input.t).

Definition addInput (m : t) (src : InputSource) : t :=
    match src with
    | OfCoin coin =>
        set_inputs (set_view m (addCoin (view m) coin))
                   (inputs m ++ [Input.fromCoin coin])
    | OfOutpoint o =>
        set_inputs m (inputs m ++
          [{| Input.prevout := o;
              Input.script := {| Script.code := []; Script.raw := [] |};
              Input.witness := {| Witness.items := [] |};
              Input.sequence := 4294967295 |}])
    | OfInput i => set_inputs m (inputs m ++ [i])
    end.

  (** What [addOutput] accepts: a destination (an address, or a script)
      and a value, given as two arguments or as one options object. *)
Inductive Destination :=
    | ToAddress (a : Address)
    | ToScript (s : Script.t).

Definition addOutput `{Env} (m : t) (dest : Destination) (value : Z) : result t :=
    let script := match dest with
                  | ToAddress a => fromAddress a
                  | ToScript s => s
                  end in
    assert (bool_decide (0 ≤ value)) "value >= 0";;
    Ok (set_outputs m (outputs m ++ [{| Output.value := value; Output.script := script |}])).

  (** [new MTX(this)]: version, flag, inputs, outputs, locktime and change
      index are copied through [fromOptions]; the view is a new one. *)
Definition clone `{Env} (m : t) : result t :=
    let m0 := {| version := version m; flag := flag m; inputs := [];
                 outputs := []; locktime := 0; changeIndex := -1; view := ∅ |} in
    let m1 := foldl (λ acc i, addInput acc (OfInput i)) m0 (inputs m) in
    m2 ← foldl (λ acc o, a ← acc; addOutput a (ToScript (Output.script o)) (Output.value o))
               (Ok m1) (outputs m);
    Ok {| version := version m2; flag := flag m2; inputs := inputs m2;
          outputs := outputs m2; locktime := locktime m;
          changeIndex := changeIndex m; view := view m2 |}.

  (** *** Templating *)
Section Templating.
Context `{Env}.

    (** [for (i = 0; i < n; i++) vector.set(i + 1, opcodes.OP_0)] *)
Fixpoint fillSlots {V} `{Vector V} (count : nat) (i : Z) (vector : V) : result V :=
      match count with
      | O => Ok vector
      | S k =>
          vector ← vec_set vector (i + 1) (Num Script.OP_0);
          fillSlots k (i + 1) vector
      end.

Definition scriptVector {V} `{Vector V}
        (prev : Script.t) (vector : V) (ring : KeyRing) : result (bool * V) :=
      if Script.isPubkey prev then
        if negb (equal (Script.get prev 0) (Some (Buf (publicKey ring)))) then
          Ok (false, vector)
        else
          vector ← vec_set vector 0 (Num Script.OP_0);
          Ok (true, vector)
      else if Script.isPubkeyhash prev then
        if negb (equal (Script.get prev 2) (Some (Buf (getKeyHash ring)))) then
          Ok (false, vector)
        else
          vector ← vec_set vector 0 (Num Script.OP_0);
          vector ← vec_set vector 1 (Buf (publicKey ring));
          Ok (true, vector)
      else if Script.isMultisig prev then
        if decide (Script.indexOf prev (publicKey ring) = -1) then
          Ok (false, vector)
        else
          vector ← vec_set vector 0 (Num Script.OP_0);
          let n := Script.getSmall prev (Script.length prev - 2) in
          vector ← fillSlots (Z.to_nat n) 0 vector;
          Ok (true, vector)
      else Ok (false, vector).

    (** The body of [scriptInput] on the input object it templates. *)
Definition scriptInputAt (input : Input.t) (coin : Coin.t) (ring : KeyRing)
        : result (bool * Input.t) :=
      if negb (bool_decide (Script.length (Input.script input) = 0))
         || negb (bool_decide (Witness.length (Input.witness input) = 0))
      then Ok (true, input)
      else
        let prev := Coin.script coin in
        if Script.isScripthash prev then
          match getRedeem ring (bufferOf (Script.get prev 1)) with
          | None => Ok (false, input)
          | Some redeem =>
              if Script.isProgram redeem then
                if Script.isWitnessScripthash redeem then
                  match getRedeem ring (bufferOf (Script.get redeem 1)) with
                  | None => Ok (false, input)
                  | Some prev =>
                      '(ok, w) ← scriptVector prev (Input.witness input) ring;
                      if negb ok then Ok (false, Input.set_witness input w)
                      else
                        w ← vec_push w (Buf (Script.toRaw prev));
                        w ← vec_compile w;
                        s ← vec_push (Input.script input) (Buf (Script.toRaw redeem));
                        s ← vec_compile s;
                        Ok (true, Input.set_script (Input.set_witness input w) s)
                  end
                else if Script.isWitnessPubkeyhash redeem then
                  let prev := Script.fromPubkeyhash (getKeyHash ring) in
                  '(ok, w) ← scriptVector prev (Input.witness input) ring;
                  if negb ok then Ok (false, Input.set_witness input w)
                  else
                    s ← vec_push (Input.script input) (Buf (Script.toRaw redeem));
                    s ← vec_compile s;
                    Ok (true, Input.set_script (Input.set_witness input w) s)
                else Ok (false, input)
              else
                '(ok, s) ← scriptVector redeem (Input.script input) ring;
                if negb ok then Ok (false, Input.set_script input s)
                else
                  s ← vec_push s (Buf (Script.toRaw redeem));
                  s ← vec_compile s;
                  Ok (true, Input.set_script input s)
          end
        else if Script.isProgram prev then
          if Script.isWitnessScripthash prev then
            match getRedeem ring (bufferOf (Script.get prev 1)) with
            | None => Ok (false, input)
            | Some redeem =>
                '(ok, w) ← scriptVector redeem (Input.witness input) ring;
                if negb ok then Ok (false, Input.set_witness input w)
                else
                  w ← vec_push w (Buf (Script.toRaw redeem));
                  w ← vec_compile w;
                  Ok (true, Input.set_witness input w)
            end
          else if Script.isWitnessPubkeyhash prev then
            let prev := Script.fromPubkeyhash (bufferOf (Script.get prev 1)) in
            '(ok, w) ← scriptVector prev (Input.witness input) ring;
            if negb ok then Ok (false, Input.set_witness input w)
            else
              w ← vec_compile w;
              Ok (true, Input.set_witness input w)
          else Ok (false, input)
        else
          '(ok, s) ← scriptVector prev (Input.script input) ring;
          Ok (ok, Input.set_script input s).

    (** [MTX.prototype.scriptInput]: the input at [index] is templated in
        place. *)
Definition scriptInput (m : t) (index : Z) (coin : option Coin.t)
        (ring : KeyRing) : result (bool * t) :=
      match nth (inputs m) index with
      | None => Throw (AssertionError "Input does not exist.")
      | Some input =>
          match coin with
          | None => Throw (AssertionError "No coin passed.")
          | Some coin =>
              '(ok, input) ← scriptInputAt input coin ring;
              Ok (ok, set_inputs m (<[Z.to_nat index := input]> (inputs m)))
          end
      end.
End Templating.

  (** *** Signing *)
Section Signing.
Context `{Env}.

    (** [for (i = 1; i < vector.length; i++)
           if (Script.isSignature(vector.get(i))) total++] *)
Definition countSignatures {V} `{Vector V} (vector : V) : Z :=
      foldl (λ total i, if Script.isSignature (vec_get vector i)
                        then total + 1 else total)
            0 (seqZ 1 (vec_length vector - 1)).

    (** [while (vector.length - 1 < n) vector.push(opcodes.OP_0)];
        every push lengthens the vector by one, so the loop body runs
        [n - (vector.length - 1)] times at most. *)
Fixpoint padSlots {V} `{Vector V} (fuel : nat) (n : Z) (vector : V) : result V :=
      match fuel with
      | O => Ok vector
      | S k =>
          if decide (vec_length vector - 1 < n) then
            vector ← vec_push vector (Num Script.OP_0);
            padSlots k n vector
          else Ok vector
      end.

    (** [for (i = vector.length - 1; i >= 1; i--)
           if (vector.getSmall(i) === 0) vector.remove(i)] *)
Definition removeEmpty {V} `{Vector V} (vector : V) : V :=
      foldl (λ v i, if decide (vec_getSmall v i = 0) then vec_remove v i else v)
            vector (reverse (seqZ 1 (vec_length vector - 1))).

    (** [while (total > m) { vector.pop(); total--; }] *)
Fixpoint popExtra {V} `{Vector V} (count : nat) (vector : V) : V :=
      match count with
      | O => vector
      | S k => popExtra k (snd (vec_pop vector))
      end.

Definition signVector {V} `{Vector V}
        (prev : Script.t) (vector : V) (sig : Buffer) (ring : KeyRing)
        : result (bool * V) :=
      if Script.isPubkey prev then
        if negb (equal (Some (Buf (publicKey ring))) (Script.get prev 0)) then
          Ok (false, vector)
        else if Script.isSignature (vec_get vector 0) then Ok (true, vector)
        else if negb (bool_decide (vec_getSmall vector 0 = 0)) then
          Throw (Error "Input has not been templated.")
        else
          vector ← vec_set vector 0 (Buf sig);
          vector ← vec_compile vector;
          Ok (true, vector)
      else if Script.isPubkeyhash prev then
        if negb (equal (Some (Buf (getKeyHash ring))) (Script.get prev 2)) then
          Ok (false, vector)
        else if Script.isSignature (vec_get vector 0) then Ok (true, vector)
        else if negb (Script.isKey (vec_get vector 1)) then
          Throw (Error "Input has not been templated.")
        else
          vector ← vec_set vector 0 (Buf sig);
          vector ← vec_compile vector;
          Ok (true, vector)
      else if Script.isMultisig prev then
        let keys : list (option item) :=
          Script.get prev <$> seqZ 1 (Script.length prev - 3) in
        let m := Script.getSmall prev 0 in
        let n := Script.getSmall prev (Script.length prev - 2) in
        if negb (bool_decide (vec_getSmall vector 0 = 0)) then
          Throw (Error "Input has not been templated.")
        else if decide (n < vec_length vector - 1) then Ok (false, vector)
        else
          let total := countSignatures vector in
          if decide (total = m ∧ vec_length vector - 1 = m) then Ok (true, vector)
          else
            vector ← padSlots (Z.to_nat (n - (vec_length vector - 1))) n vector;
            let keyIndex := indexOf keys (publicKey ring) in
            if decide (keyIndex = -1) then Ok (false, vector)
            else
              let keyIndex := keyIndex + 1 in
              '(vector, total) ←
                ((if decide (keyIndex < vec_length vector ∧ total < m) then
                    if decide (vec_getSmall vector keyIndex = 0) then
                      vector ← vec_set vector keyIndex (Buf sig);
                      Ok (vector, total + 1)
                    else Ok (vector, total)
                  else Ok (vector, total)) : result (V * Z));
              '(vector, total) ←
                (if decide (m ≤ total) then
                   let vector := removeEmpty vector in
                   let vector := popExtra (Z.to_nat (total - m)) vector in
                   let total := Z.min total m in
                   assert (bool_decide (total = m)) "total === m";;
                   assert (bool_decide (vec_length vector - 1 = m))
                          "vector.length - 1 === m";;
                   Ok (vector, total)
                 else Ok (vector, total));
              vector ← vec_compile vector;
              if negb (bool_decide (total = m)) then Ok (false, vector)
              else Ok (true, vector)
      else Ok (false, vector).

    (** [MTX.prototype.signature] *)
Definition signature (m : t) (index : Z) (prev : Script.t) (value : Z)
        (key : Buffer) (type : option SighashType) (version : Z) : Buffer :=
      let type := match type with
                  | None => hashType_ALL
                  | Some (TypeName s) => hashType s
                  | Some (TypeNumber n) => n
                  end in
      let hash := signatureHash (toTX m) index prev value type version in
      sign hash key type.

    (** The end of [signInput]: sign [vector], setting the redeem script
        it carries aside while doing so. *)
Definition signWith {V} `{Vector V} (redeem : bool)
        (prev : Script.t) (vector : V) (sig : Buffer) (ring : KeyRing)
        : result (bool * V) :=
      if redeem then
        let '(redeem, vector) := vec_pop vector in
        '(result, vector) ← signVector prev vector sig ring;
        match redeem with
        | None => Throw (AssertionError "Bad data for opcode.")
        | Some redeem =>
            vector ← vec_push vector redeem;
            vector ← vec_compile vector;
            Ok (result, vector)
        end
      else signVector prev vector sig ring.

    (** The body of [signInput] on the input object it signs. *)
Definition signInputAt (m : t) (index : Z) (input : Input.t)
        (coin : Coin.t) (ring : KeyRing) (type : option SighashType)
        : result (bool * Input.t) :=
      let version := 0 in
      let redeem := false in
      let key := privateKey ring in
      let prev := Coin.script coin in
      let value := 0 in
      '(prev, redeem) ←
        (if Script.isScripthash prev then
           match Script.getRedeem fromRaw (Input.script input) with
           | None => Throw (Error "Input has not been templated.")
           | Some prev => Ok (prev, true)
           end
         else Ok (prev, redeem));
      if Script.isWitnessScripthash prev then
        match Witness.getRedeem fromRaw (Input.witness input) with
        | None => Throw (Error "Input has not been templated.")
        | Some prev =>
            let sig := signature m index prev value key type 1 in
            '(result, w) ← signWith true prev (Input.witness input) sig ring;
            Ok (result, Input.set_witness input w)
        end
      else if Script.isWitnessPubkeyhash prev then
        let prev := Script.fromPubkeyhash (bufferOf (Script.get prev 1)) in
        let sig := signature m index prev value key type 1 in
        '(result, w) ← signWith false prev (Input.witness input) sig ring;
        Ok (result, Input.set_witness input w)
      else
        let sig := signature m index prev value key type version in
        '(result, s) ← signWith redeem prev (Input.script input) sig ring;
        Ok (result, Input.set_script input s).

Definition signInput (m : t) (index : Z) (coin : option Coin.t)
        (ring : KeyRing) (type : option SighashType) : result (bool * t) :=
      match nth (inputs m) index with
      | None => Throw (AssertionError "Input does not exist.")
      | Some input =>
          match coin with
          | None => Throw (AssertionError "No coin passed.")
          | Some coin =>
              '(ok, input) ← signInputAt m index input coin ring type;
              Ok (ok, set_inputs m (<[Z.to_nat index := input]> (inputs m)))
          end
      end.
End Signing.

  (** *** Size estimation and fee subtraction *)
Section Funding.
Context `{Env}.

    (** The size added for one input of [estimateSize]. *)
Definition estimateInput (estimate : option (Script.t → Z))
        (coin : option Coin.t) : Z :=
      let scale := WITNESS_SCALE_FACTOR in
      let size := 0 in
      match coin with
      | None => 110
      | Some coin =>
          let prev := Coin.script coin in
          if Script.isPubkey prev then
            let size := size + 1 in
            let size := size + (1 + 73) in
            size
          else if Script.isPubkeyhash prev then
            let size := size + 1 in
            let size := size + (1 + 73) in
            let size := size + (1 + 33) in
            size
          else if Script.isMultisig prev then
            let size := size + 1 in
            let size := size + (1 + 73) * Script.getSmall prev 0 in
            let size := size + sizeVarint size in
            size
          else if Script.isWitnessPubkeyhash prev then
            let size := size + 1 in
            let size := size + (1 + 73) in
            let size := size + (1 + 33) in
            let size := (size + scale - 1) `quot` scale in
            size
          else
            (* [if (estimate) { size = yield estimate(prev); ... }]: the
               size the estimator answers stays in [size] when it is -1 *)
            let '(size, estimated) :=
              match estimate with
              | Some estimate =>
                  let size := estimate prev in
                  (size, negb (bool_decide (size = -1)))
              | None => (size, false)
              end in
            if estimated then size
            else if Script.isScripthash prev then 2 + 257
            else if Script.isWitnessScripthash prev then
              let size := size + 1 in
              let size := size + 257 in
              let size := (size + scale - 1) `quot` scale in
              size
            else 110
      end.

Definition estimateSize (m : t) (estimate : option (Script.t → Z)) : Z :=
      let total := 0 in
      let total := total + 4 in
      let total := total + sizeVarint (Z.of_nat (length (inputs m))) in
      let total := total + Z.of_nat (length (inputs m)) * 40 in
      let total := total + sizeVarint (Z.of_nat (length (outputs m))) in
      let total := foldl (λ total output, total + Output.getSize output)
                         total (outputs m) in
      let total := total + 4 in
      foldl (λ total input,
               total + estimateInput estimate (getOutput (view m) input))
            total (inputs m).

    (** The loop of [subtractFee] over the outputs from position [i] on:
        [None] when the loop runs off the end of the list. *)
Fixpoint subtractFirst (addrs : option (list Buffer)) (fee : Z)
        (outs : list Output.t) : option (list Output.t) :=
      match outs with
      | [] => None
      | output :: rest =>
          let min := fee + getDustThreshold output None in
          let skip :=
            match addrs with
            | Some addrs =>
                match scriptHash (Output.script output) with
                | None => true
                | Some hash =>
                    bool_decide (indexOf ((λ a, Some (Buf a)) <$> addrs) hash = -1)
                end
            | None => false
            end in
          if skip then (output ::.) <$> subtractFirst addrs fee rest
          else if bool_decide (min ≤ Output.value output) then
            Some ({| Output.value := Output.value output - fee;
                     Output.script := Output.script output |} :: rest)
          else (output ::.) <$> subtractFirst addrs fee rest
      end.

Definition subtractFee (m : t) (fee : Z) (index : option SubtractFee)
        : result t :=
      let index := match index with
                   | Some (SFAddr a) => Some (SFList [a])
                   | _ => index
                   end in
      let addrs := match index with
                   | Some (SFList l) => Some (omap getHash l)
                   | _ => None
                   end in
      match index with
      | Some (SFNumber index) =>
          match nth (outputs m) index with
          | None => Throw (Error "Subtraction index does not exist.")
          | Some output =>
              let min := fee + getDustThreshold output None in
              if decide (Output.value output < min) then
                Throw (Error "Could not subtract fee.")
              else
                Ok (set_outputs m
                      (<[Z.to_nat index :=
                           {| Output.value := Output.value output - fee;
                              Output.script := Output.script output |}]>
                         (outputs m)))
          end
      | _ =>
          match subtractFirst addrs fee (outputs m) with
          | None => Throw (Error "Could not subtract fee.")
          | Some outs => Ok (set_outputs m outs)
          end
      end.
End Funding.

End MTX.

(** ** [Array.prototype.sort] and [Math.random]

    The comparison function of [sortRandom] draws from [Math.random];
    the only use it makes of a draw is the test [> 0.5], so a source of
    randomness is the sequence of the outcomes of that test. The order
    in which [sort] compares the elements is the engine's own affair:
    the model below is the insertion sort that the engine of the time
    ran on arrays of up to ten elements, and other engines compare in
    other orders. Under a comparison that answers at random the order
    of the sorted array is therefore that of one engine; what holds of
    every engine, and what the properties use, is that the sorted array
    is a permutation of the array and, under a consistent comparison
    such as [sortAge], in ascending order. *)
Record Rng := { draws : nat → bool; position : nat }.

Definition random_gt_half (r : Rng) : bool * Rng :=
  (draws r (position r), {| draws := draws r; position := S (position r) |}).

Section Sort.
Context {A : Type} (comparefn : A → A → Rng → Z * Rng).

  (** Insert [element] behind the sorted prefix whose reversal is
      [before]; the result is the reversal of the longer prefix. *)
Fixpoint insertSorted (element : A) (before : list A) (r : Rng) : list A * Rng :=
    match before with
    | [] => ([element], r)
    | tmp :: rest =>
        let '(order, r) := comparefn tmp element r in
        if decide (0 < order) then
          let '(placed, r) := insertSorted element rest r in (tmp :: placed, r)
        else (element :: tmp :: rest, r)
    end.

Fixpoint sortFrom (todo before : list A) (r : Rng) : list A * Rng :=
    match todo with
    | [] => (reverse before, r)
    | element :: todo =>
        let '(before, r) := insertSorted element before r in
        sortFrom todo before r
    end.

Definition sort (l : list A) (r : Rng) : list A * Rng := sortFrom l [] r.
End Sort.

Definition sortAge (a b : Coin.t) (r : Rng) : Z * Rng :=
  let a := if decide (Coin.height a = -1) then 2147483647 else Coin.height a in
  let b := if decide (Coin.height b = -1) then 2147483647 else Coin.height b in
  (a - b, r).

Definition sortRandom (a b : Coin.t) (r : Rng) : Z * Rng :=
  let '(gt, r) := random_gt_half r in
  (if gt then 1 else -1, r).

(** ** The coin selector *)
Module CoinSelector.

Record Options := {
    opt_selection : option string;
    opt_subtractFee : option SubtractFee;
    opt_height : option Z;
    opt_confirmations : option Z;
    opt_hardFee : option Z;
    opt_rate : option Z;
    opt_maxFee : option Z;
    opt_round : option bool;
    opt_changeAddress : option (string + Address);
    opt_estimate : option (Script.t → Z);
  }.

Record t := {
    tx : MTX.t;
    coins : list Coin.t;
    outputValue : Z;
    index : Z;
    chosen : list Coin.t;
    change : Z;
    fee : Z;
    selection : string;
    shouldSubtract : bool;
    subtractFee : option SubtractFee;
    height : Z;
    confirmations : Z;
    hardFee : Z;
    rate : Z;
    maxFee : Z;
    round : bool;
    changeAddress : option Address;
    estimate : option (Script.t → Z);
  }.

  (** The fields that selection writes, updated together. *)
Definition update (s : t) (tx' : MTX.t) (coins' : list Coin.t)
      (outputValue' index' : Z) (chosen' : list Coin.t) (change' fee' : Z) : t :=
    {| tx := tx'; coins := coins'; outputValue := outputValue';
       index := index'; chosen := chosen'; change := change'; fee := fee';
       selection := selection s; shouldSubtract := shouldSubtract s;
       subtractFee := subtractFee s; height := height s;
       confirmations := confirmations s; hardFee := hardFee s;
       rate := rate s; maxFee := maxFee s; round := round s;
       changeAddress := changeAddress s; estimate := estimate s |}.

Definition set_tx (s : t) (x : MTX.t) : t :=
    update s x (coins s) (outputValue s) (index s) (chosen s) (change s) (fee s).
Definition set_index (s : t) (x : Z) : t :=
    update s (tx s) (coins s) (outputValue s) x (chosen s) (change s) (fee s).
Definition set_chosen (s : t) (x : list Coin.t) : t :=
    update s (tx s) (coins s) (outputValue s) (index s) x (change s) (fee s).
Definition set_change (s : t) (x : Z) : t :=
    update s (tx s) (coins s) (outputValue s) (index s) (chosen s) x (fee s).
Definition set_fee (s : t) (x : Z) : t :=
    update s (tx s) (coins s) (outputValue s) (index s) (chosen s) (change s) x.

Section Selector.
Context `{Env}.

    (** [CoinSelector.prototype.fromOptions] *)
Definition fromOptions (s : t) (options : Options) : result t :=
      let selection :=
        match opt_selection options with
        | Some sel => if decide (sel = "") then selection s else sel
        | None => selection s
        end in
      let '(subtractFee, shouldSubtract) :=
        match opt_subtractFee options with
        | Some sf =>
            (Some sf, match sf with SFBool false => false | _ => true end)
        | None => (subtractFee s, shouldSubtract s)
        end in
      height ← match opt_height options with
               | Some h => assert (bool_decide (-1 ≤ h)) "options.height >= -1";; Ok h
               | None => Ok (height s)
               end;
      confirmations ← match opt_confirmations options with
                      | Some c =>
                          assert (bool_decide (-1 ≤ c)) "options.confirmations >= -1";;
                          Ok c
                      | None => Ok (confirmations s)
                      end;
      hardFee ← match opt_hardFee options with
                | Some f => assert (bool_decide (-1 ≤ f)) "options.hardFee >= -1";; Ok f
                | None => Ok (hardFee s)
                end;
      rate ← match opt_rate options with
             | Some r => assert (bool_decide (0 ≤ r)) "options.rate >= 0";; Ok r
             | None => Ok (rate s)
             end;
      maxFee ← match opt_maxFee options with
               | Some f => assert (bool_decide (-1 ≤ f)) "options.maxFee >= -1";; Ok f
               | None => Ok (maxFee s)
               end;
      let round := default (round s) (opt_round options) in
      changeAddress ← match opt_changeAddress options with
                      | Some (inl str) =>
                          if decide (str = "") then Ok (changeAddress s)
                          else a ← fromBase58 str; Ok (Some a)
                      | Some (inr a) => Ok (Some a)
                      | None => Ok (changeAddress s)
                      end;
      let estimate := match opt_estimate options with
                      | Some e => Some e
                      | None => estimate s
                      end in
      Ok {| tx := tx s; coins := coins s; outputValue := outputValue s;
            index := index s; chosen := chosen s; change := change s;
            fee := fee s; selection := selection;
            shouldSubtract := shouldSubtract; subtractFee := subtractFee;
            height := height; confirmations := confirmations;
            hardFee := hardFee; rate := rate; maxFee := maxFee;
            round := round; changeAddress := changeAddress;
            estimate := estimate |}.

    (** [new CoinSelector(tx, options)] *)
Definition new (tx : MTX.t) (options : option Options) : result t :=
      tx ← MTX.clone tx;
      let s := {| tx := tx; coins := []; outputValue := 0; index := 0;
                  chosen := []; change := 0; fee := 0; selection := "age";
                  shouldSubtract := false; subtractFee := None; height := -1;
                  confirmations := -1; hardFee := -1; rate := MIN_FEE;
                  maxFee := -1; round := false; changeAddress := None;
                  estimate := None |} in
      match options with
      | Some options => fromOptions s options
      | None => Ok s
      end.

    (** [CoinSelector.prototype.init] *)
Definition init (s : t) (coins : list Coin.t) (rng : Rng) : result t :=
      let s := update s (MTX.set_inputs (tx s) []) coins
                      (MTX.getOutputValue (tx s)) 0 [] 0 0 in
      if decide (selection s = "all" ∨ selection s = "random") then
        Ok (update s (tx s) (fst (sort sortRandom (CoinSelector.coins s) rng))
                   (outputValue s) (index s) (chosen s) (change s) (fee s))
      else if decide (selection s = "age") then
        Ok (update s (tx s) (fst (sort sortAge (CoinSelector.coins s) rng))
                   (outputValue s) (index s) (chosen s) (change s) (fee s))
      else
        Throw (FundingError ("Bad selection type: " +:+ selection s) None).

    (** [CoinSelector.prototype.total] *)
Definition total (s : t) : Z :=
      if shouldSubtract s then outputValue s
      else outputValue s + fee s.

    (** [CoinSelector.prototype.isFull] *)
Definition isFull (s : t) : bool :=
      bool_decide (total s ≤ MTX.getInputValue (tx s)).

    (** [CoinSelector.prototype.isSpendable] *)
Definition isSpendable (s : t) (coin : Coin.t) : bool :=
      let maturity := COINBASE_MATURITY in
      if decide (height s = -1) then true
      else if Coin.coinbase coin && bool_decide (Coin.height coin = -1) then false
      else if Coin.coinbase coin
              && bool_decide (height s + 1 < Coin.height coin + maturity) then false
      else if decide (0 < confirmations s) then
        if decide (Coin.height coin = -1) then bool_decide (confirmations s ≤ 0)
        else
          let conf := height s - Coin.height coin in
          if decide (conf < 0) then false
          else
            let conf := conf + 1 in
            if decide (conf < confirmations s) then false
            else true
      else true.

    (** [CoinSelector.prototype.getFee] *)
Definition getFee (s : t) (size : Z) : Z :=
      let fee := if round s then getRoundFee size (rate s)
                 else getMinFee size (rate s) in
      if decide (MAX_FEE < fee) then MAX_FEE else fee.

    (** The loop of [fund] over the coins from [this.index] on. *)
Fixpoint fundFrom (rest : list Coin.t) (s : t) : t :=
      match rest with
      | [] => s
      | coin :: rest =>
          let s := set_index s (index s + 1) in
          if negb (isSpendable s coin) then fundFrom rest s
          else
            let s := set_tx s (MTX.addInput (tx s) (MTX.OfCoin coin)) in
            let s := set_chosen s (chosen s ++ [coin]) in
            if decide (selection s = "all") then fundFrom rest s
            else if isFull s then s
            else fundFrom rest s
      end.

    (** [CoinSelector.prototype.fund] *)
Definition fund (s : t) : t :=
      fundFrom (drop (Z.to_nat (index s)) (coins s)) s.

    (** [CoinSelector.prototype.selectHard] *)
Definition selectHard (s : t) (fee : Z) : t :=
      let s := set_fee s fee in
      let s := if decide (MAX_FEE < CoinSelector.fee s) then set_fee s MAX_FEE else s in
      fund s.

    (** The [do ... while] loop of [selectEstimate]. A further turn of
        the loop is taken only while coins are left, and every turn that
        funds consumes a coin; [fuel] bounds the number of turns. *)
Fixpoint estimateLoop (fuel : nat) (s : t) : result t :=
      match fuel with
      | O => Ok s
      | S fuel =>
          let size := MTX.estimateSize (tx s) (estimate s) in
          let s := set_fee s (getFee s size) in
          if decide (0 < maxFee s ∧ maxFee s < fee s) then
            Throw (FundingError "Fee is too high." None)
          else
            let s := if negb (isFull s) then fund s else s in
            if negb (isFull s) && bool_decide (index s < Z.of_nat (length (coins s)))
            then estimateLoop fuel s
            else Ok s
      end.

    (** [CoinSelector.prototype.selectEstimate] *)
Definition selectEstimate (s : t) (fee : Z) : result t :=
      let s := set_fee s fee in
      let s := fund s in
      tx ← MTX.addOutput (tx s)
              (MTX.ToScript (match changeAddress s with
                             | Some a => fromAddress a
                             | None => Script.fromPubkeyhash ZERO_HASH160
                             end)) 0;
      let s := set_tx s tx in
      estimateLoop (S (length (coins s))) s.

    (** [CoinSelector.prototype.select] *)
Definition select (s : t) (coins : list Coin.t) (rng : Rng) : result t :=
      s ← init s coins rng;
      s ← (if decide (hardFee s ≠ -1) then Ok (selectHard s (hardFee s))
           else selectEstimate s MIN_FEE);
      if negb (isFull s) then
        Throw (FundingError "Not enough funds."
                 (Some (MTX.getInputValue (tx s), total s)))
      else
        Ok (set_change s (MTX.getInputValue (tx s) - total s)).
End Selector.

End CoinSelector.

(** ** Funding a transaction *)
Section Fund.
Context `{Env}.

  (** [MTX.prototype.selectCoins] *)
Definition selectCoins (m : MTX.t) (coins : list Coin.t)
      (options : option CoinSelector.Options) (rng : Rng)
      : result CoinSelector.t :=
    selector ← CoinSelector.new m options;
    CoinSelector.select selector coins rng.

  (** [assert.equal(a, b)] *)
Definition assert_equal (a b : Z) : result unit :=
    if decide (a = b) then Ok () else Throw (AssertionError "assert.equal").

  (** [MTX.prototype.fund] *)
Definition fund (m : MTX.t) (coins : list Coin.t)
      (options : option CoinSelector.Options) (rng : Rng)
      : result (MTX.t * CoinSelector.t) :=
    match options with
    | None => Throw (AssertionError "Options are required.")
    | Some options =>
        assert (match CoinSelector.opt_changeAddress options with
                | Some (inl str) => negb (bool_decide (str = ""))
                | Some (inr _) => true
                | None => false
                end) "Change address is required.";;
        assert (bool_decide (MTX.inputs m = [])) "TX is already filled.";;
        select ← selectCoins m coins (Some options) rng;
        let m := foldl (λ m coin, MTX.addInput m (MTX.OfCoin coin))
                       m (CoinSelector.chosen select) in
        m ← (if CoinSelector.shouldSubtract select then
               MTX.subtractFee m (CoinSelector.fee select)
                               (CoinSelector.subtractFee select)
             else Ok m);
        m ← MTX.addOutput m
              (match CoinSelector.changeAddress select with
               | Some a => MTX.ToAddress a
               | None => MTX.ToScript {| Script.code := []; Script.raw := [] |}
               end)
              (CoinSelector.change select);
        match MTX.nth (MTX.outputs m) (Z.of_nat (length (MTX.outputs m)) - 1) with
        | None => Throw (TypeError "Cannot read property of undefined")
        | Some change =>
            if isDust change (Some MIN_RELAY) then
              let m := MTX.set_outputs m (removelast (MTX.outputs m)) in
              let m := MTX.set_changeIndex m (-1) in
              assert_equal (MTX.getFee m)
                (CoinSelector.fee select + CoinSelector.change select);;
              Ok (m, select)
            else
              let m := MTX.set_changeIndex m (Z.of_nat (length (MTX.outputs m)) - 1) in
              assert_equal (MTX.getFee m) (CoinSelector.fee select);;
              Ok (m, select)
        end
    end.
End Fund.

(** ** Vocabulary of the properties *)

(** The opcodes of an m-of-n multisig script over the keys [ks]. *)
Definition multisigCode (m : Z) (ks : list Buffer) : list (option Script.Opcode) :=
  Some (Script.Op (80 + m)) :: (((λ k, Some (Script.Push k)) <$> ks)
    ++ [Some (Script.Op (80 + Z.of_nat (length ks)));
        Some (Script.Op Script.OP_CHECKMULTISIG)]).

(** The keys of a multisig script, in script order. *)
Definition multisigKeys (prev : Script.t) : list Buffer :=
  (λ i, bufferOf (Script.get prev i)) <$> seqZ 1 (Script.length prev - 3).

Definition validKey (k : Buffer) : Prop := 33 ≤ blen k ≤ 65.
Definition validSignature (s : Buffer) : Prop := 9 ≤ blen s ≤ 73.

(** A script or witness that holds nothing. *)
Definition emptyScript : Script.t := {| Script.code := []; Script.raw := [] |}.
Definition emptyWitness : Witness.t := {| Witness.items := [] |}.

(** What the two containers guarantee about lengths. *)
Class VectorLaws (V : Type) `{Vector V} := {
  vec_length_nonneg (v : V) : 0 ≤ vec_length v;
  vec_set_length (v v' : V) i x :
    vec_set v i x = Ok v' → 0 ≤ i → vec_length v' = Z.max (vec_length v) (i + 1);
  vec_push_length (v v' : V) x :
    vec_push v x = Ok v' → vec_length v' = vec_length v + 1;
  vec_compile_length (v v' : V) :
    vec_compile v = Ok v' → vec_length v' = vec_length v;
}.

(** An input that has been templated: its script or witness has content. *)
Definition templated (input : Input.t) : Prop :=
  Script.length (Input.script input) ≠ 0
  ∨ Witness.length (Input.witness input) ≠ 0.

(** The policy of a selector: what [fromOptions] sets and selection
    never writes. *)
Definition policy (s : CoinSelector.t) :=
  (CoinSelector.selection s, CoinSelector.shouldSubtract s,
   CoinSelector.subtractFee s, CoinSelector.height s,
   CoinSelector.confirmations s, CoinSelector.hardFee s,
   CoinSelector.rate s, CoinSelector.maxFee s, CoinSelector.round s,
   CoinSelector.changeAddress s, CoinSelector.estimate s).

(** The selector once it has accumulated coins and settled the fee: the
    part of [select] before the funding check. *)
Definition accumulated `{Env} (s : CoinSelector.t) (coins : list Coin.t)
    (rng : Rng) : result CoinSelector.t :=
  s ← CoinSelector.init s coins rng;
  if decide (CoinSelector.hardFee s ≠ -1)
  then Ok (CoinSelector.selectHard s (CoinSelector.hardFee s))
  else CoinSelector.selectEstimate s MIN_FEE.


(** ** Concrete inputs

    A concrete environment with the constants of the protocol and
    simple stand-ins for the collaborators, and the transactions, coins
    and keys that the examples below run the code on. *)
Module Sample.

Definition env : Env := {|
    MAX_FEE := 10000000;
    MIN_FEE := 10000;
    MIN_RELAY := 1000;
    COINBASE_MATURITY := 100;
    WITNESS_SCALE_FACTOR := 4;
    hashType_ALL := 1;
    hashType := λ _, 1;
    getMinFee := λ size rate, (size * rate) `div` 1000;
    getRoundFee := λ size rate, rate * ((size + 999) `div` 1000);
    fromRaw := λ b, {| Script.code := []; Script.raw := b |};
    fromAddress := λ a, Script.fromPubkeyhash (addr_hash a);
    fromBase58 := λ _, Throw (Error "Invalid base58 string.");
    getHash := λ a, match a with AddrBuffer b => Some b | AddrString _ => None end;
    scriptHash := λ s, match Script.get s 2 with Some (Buf h) => Some h | _ => None end;
    dustThreshold := λ _ _, 546;
    signatureHash := λ _ index _ value type version, [index; value; type; version];
    sign := λ hash key type, replicate 8 7 ++ hash ++ key ++ [type];
  |}.

Definition key (b : Z) : Buffer := replicate 33 b.
Definition sig (b : Z) : Buffer := replicate 70 b.

Definition ring (b : Z) : KeyRing :=
    {| publicKey := key b; privateKey := [b];
       getKeyHash := replicate 20 b; getRedeem := λ _, None |}.

  (** An m-of-n multisig script over the keys named by [ks]. *)
Definition multisig (m : Z) (ks : list Z) : Script.t :=
    Script.fromCode
      ([Script.Op (80 + m)] ++ ((λ b, Script.Push (key b)) <$> ks)
       ++ [Script.Op (80 + Z.of_nat (length ks));
           Script.Op Script.OP_CHECKMULTISIG]).

Definition p2pkh (b : Z) : Script.t := Script.fromPubkeyhash (replicate 20 b).

Definition p2wpkh (b : Z) : Script.t :=
    Script.fromCode [Script.Op Script.OP_0; Script.Push (replicate 20 b)].

Definition coin (id value height : Z) (coinbase : bool) : Coin.t :=
    {| Coin.height := height; Coin.value := value; Coin.script := p2pkh id;
       Coin.coinbase := coinbase; Coin.hash := replicate 32 id; Coin.index := 0 |}.

Definition address : Address :=
    {| addr_hash := replicate 20 9; addr_type := 0; addr_version := -1 |}.

Definition options (selection : string) (hardFee maxFee height : option Z)
      (subtract : option SubtractFee) : CoinSelector.Options :=
    {| CoinSelector.opt_selection := Some selection;
       CoinSelector.opt_subtractFee := subtract;
       CoinSelector.opt_height := height;
       CoinSelector.opt_confirmations := None;
       CoinSelector.opt_hardFee := hardFee;
       CoinSelector.opt_rate := None;
       CoinSelector.opt_maxFee := maxFee;
       CoinSelector.opt_round := None;
       CoinSelector.opt_changeAddress := Some (inr address);
       CoinSelector.opt_estimate := None |}.

  (** A transaction that pays 50000 to one output. *)
Definition payment : MTX.t :=
    MTX.set_outputs MTX.empty
      [{| Output.value := 50000; Output.script := p2pkh 7 |}].

Definition rng : Rng := {| draws := λ _, true; position := 0%nat |}.

  (** The selector that [selectCoins] builds for [payment]. *)
Definition selector (o : CoinSelector.Options) : CoinSelector.t :=
    match CoinSelector.new (H := env) payment (Some o) with
    | Ok s => s
    | Throw _ =>
        {| CoinSelector.tx := payment; CoinSelector.coins := [];
           CoinSelector.outputValue := 0; CoinSelector.index := 0;
           CoinSelector.chosen := []; CoinSelector.change := 0;
           CoinSelector.fee := 0; CoinSelector.selection := "age";
           CoinSelector.shouldSubtract := false;
           CoinSelector.subtractFee := None; CoinSelector.height := -1;
           CoinSelector.confirmations := -1; CoinSelector.hardFee := -1;
           CoinSelector.rate := 0; CoinSelector.maxFee := -1;
           CoinSelector.round := false; CoinSelector.changeAddress := None;
           CoinSelector.estimate := None |}
    end.

Definition wallet : list Coin.t :=
    [coin 1 20000 5 false; coin 2 30000 3 true; coin 3 40000 (-1) false].

End Sample.

(** The output [o] with [fee] taken off its value. *)
Definition reduced (fee : Z) (o : Output.t) : Output.t :=
  {| Output.value := Output.value o - fee; Output.script := Output.script o |}.

(** An output can absorb a fee when what is left of its value clears its
    dust threshold. *)
Definition absorbs `{Env} (fee : Z) (o : Output.t) : Prop :=
  fee + getDustThreshold o None ≤ Output.value o.

(** The address hashes a selector of [subtractFee] names, if it names
    addresses. *)
Definition addressesOf `{Env} (index : option SubtractFee) : option (list Buffer) :=
  match index with
  | Some (SFAddr a) => Some (omap getHash [a])
  | Some (SFList l) => Some (omap getHash l)
  | _ => None
  end.

(** An output matches a selector that names addresses when the hash of
    its script is one of theirs; it matches any other selector. *)
Definition matches `{Env} (addrs : option (list Buffer)) (o : Output.t) : Prop :=
  match addrs with
  | None => True
  | Some l => ∃ h, scriptHash (Output.script o) = Some h ∧ h ∈ l
  end.

(** A coin that differs from [coin] in its value only. *)
(** The selector [s] told to select by strategy [sel]. *)
Definition withSelection (s : CoinSelector.t) (sel : string) : CoinSelector.t :=
  {| CoinSelector.tx := CoinSelector.tx s; CoinSelector.coins := CoinSelector.coins s;
     CoinSelector.outputValue := CoinSelector.outputValue s;
     CoinSelector.index := CoinSelector.index s;
     CoinSelector.chosen := CoinSelector.chosen s;
     CoinSelector.change := CoinSelector.change s; CoinSelector.fee := CoinSelector.fee s;
     CoinSelector.selection := sel;
     CoinSelector.shouldSubtract := CoinSelector.shouldSubtract s;
     CoinSelector.subtractFee := CoinSelector.subtractFee s;
     CoinSelector.height := CoinSelector.height s;
     CoinSelector.confirmations := CoinSelector.confirmations s;
     CoinSelector.hardFee := CoinSelector.hardFee s; CoinSelector.rate := CoinSelector.rate s;
     CoinSelector.maxFee := CoinSelector.maxFee s; CoinSelector.round := CoinSelector.round s;
     CoinSelector.changeAddress := CoinSelector.changeAddress s;
     CoinSelector.estimate := CoinSelector.estimate s |}.

Definition withValue (coin : Coin.t) (v : Z) : Coin.t :=
  {| Coin.height := Coin.height coin; Coin.value := v;
     Coin.script := Coin.script coin; Coin.coinbase := Coin.coinbase coin;
     Coin.hash := Coin.hash coin; Coin.index := Coin.index coin |}.

(** Fill [vector] with the signatures of [signers], one call of
    [signVector] for each in turn; the answer is that of the last call
    ([last] if there is none). *)
Fixpoint signAll {V} `{Vector V} (prev : Script.t) (vector : V)
    (signers : list (KeyRing * Buffer)) (last : bool) : result (bool * V) :=
  match signers with
  | [] => Ok (last, vector)
  | (ring, sig) :: rest =>
      '(ok, vector) ← MTX.signVector prev vector sig ring;
      signAll prev vector rest ok
  end.

(** The signature slots of a multisig vector, one for each key of the
    script: [None] is the empty placeholder. *)
Definition slotOp (slot : option Buffer) : Script.Opcode :=
  match slot with
  | None => Script.Op Script.OP_0
  | Some sig => Script.Push sig
  end.

(** The opcodes of a vector under signature: the marker, then the slots. *)
Definition slotsOps (slots : list (option Buffer)) : list Script.Opcode :=
  Script.Op Script.OP_0 :: (slotOp <$> slots).

(** The opcodes of a fully signed vector: the marker, then the signatures. *)
Definition signedOps (sigs : list Buffer) : list Script.Opcode :=
  Script.Op Script.OP_0 :: (Script.Push <$> sigs).

(** The slot of a key: its position among the keys of the script. *)
Definition keySlot (ks : list Buffer) (key : Buffer) : nat :=
  Z.to_nat (indexOf ((λ k, Some (Buf k)) <$> ks) key).

(** The slots once [signers] have signed, starting from [slots]. *)
Definition signedSlots (ks : list Buffer) (slots : list (option Buffer))
    (signers : list (KeyRing * Buffer)) : list (option Buffer) :=
  foldl (λ slots signer, <[keySlot ks (publicKey signer.1) := Some signer.2]> slots)
        slots signers.

(** The number of slots that hold a signature. *)
Definition filled (slots : list (option Buffer)) : Z :=
  Z.of_nat (length (omap id slots)).

(** The script with the opcodes [ops] and the serialisation [raw]. *)
Definition vectorOf (ops : list Script.Opcode) (raw : Buffer) : Script.t :=
  {| Script.code := Some <$> ops; Script.raw := raw |}.

(** An opcode that pushes what is structurally a signature; an opcode
    that is the empty placeholder. *)
Definition isSignatureOp (op : Script.Opcode) : bool :=
  Script.isSignature (Some (Script.toValue op)).

Definition isEmptyOp (op : Script.Opcode) : bool :=
  bool_decide (Script.small (Some (Script.toValue op)) = 0).

(** Slots whose signatures are structurally signatures. *)
Definition validSlots (slots : list (option Buffer)) : Prop :=
  Forall (λ slot, ∀ sig, slot = Some sig → validSignature sig) slots.

(** Signers who hold distinct keys of the script [ks] and bring
    signatures, and whose slots are still empty in [slots]. *)
Definition fresh (ks : list Buffer) (slots : list (option Buffer))
    (signers : list (KeyRing * Buffer)) : Prop :=
  NoDup ((λ signer, keySlot ks (publicKey signer.1)) <$> signers)
  ∧ ∀ signer, signer ∈ signers →
      publicKey signer.1 ∈ ks ∧ validSignature signer.2
      ∧ slots !! keySlot ks (publicKey signer.1) = Some None.

(** Further concrete inputs: a 2-of-3 multisig script and its signers, a
    coin locked to a witness key hash, and selectors for [Sample.payment]. *)
Module Cases.
Import Sample.

Definition twoOfThree : Script.t := multisig 2 [1; 2; 3].

Definition signer (b : Z) : KeyRing * Buffer := (ring b, sig b).

Definition template3 : Script.t :=
    {| Script.code := replicate 4 (Some (Script.Op Script.OP_0)); Script.raw := [] |}.

  (** The vector of [twoOfThree] that holds the signature of key 1 only. *)
Definition signedOnce : Script.t :=
    Script.fromCode [Script.Op Script.OP_0; Script.Push (sig 1);
                     Script.Op Script.OP_0; Script.Op Script.OP_0].

  (** A coin worth 50000 locked to the key hash of [ring 4] by a witness
      program, and the transaction that spends it. *)
Definition witnessCoin : Coin.t :=
    {| Coin.height := 5; Coin.value := 50000; Coin.script := p2wpkh 4;
       Coin.coinbase := false; Coin.hash := replicate 32 8; Coin.index := 0 |}.

Definition spending : MTX.t := MTX.addInput MTX.empty (MTX.OfCoin witnessCoin).

  (** Selectors: strategy [all] with a hard fee of 5000 above a maximum
      fee of 1000; strategy [age] with a known height of 200. *)
Definition hardOptions : CoinSelector.Options :=
    options "all" (Some 5000) (Some 1000) None None.

Definition hardSelector : CoinSelector.t := selector hardOptions.

Definition heightSelector : CoinSelector.t :=
    selector (options "age" (Some 5000) None (Some 200) None).

Definition fundOptions : CoinSelector.Options :=
    options "age" (Some 5000) None None (Some (SFNumber 0)).

  (** Coins worth 100 more than [payment] and a fee of 5000 take. *)
Definition tightWallet : list Coin.t :=
    [coin 1 20000 5 false; coin 2 35100 3 false].

  (** The source of randomness none of whose draws is above 0.5, where
      every draw of [Sample.rng] is. *)
Definition lowRng : Rng := {| draws := λ _, false; position := 0%nat |}.
End Cases.

(** ** Vocabulary of the further properties *)

(** The output that [selectEstimate] adds to the transaction of the
    selector to gauge the size of the change. *)
Definition gaugeOutput `{Env} (s : CoinSelector.t) : Output.t :=
  {| Output.value := 0;
     Output.script := match CoinSelector.changeAddress s with
                      | Some a => fromAddress a
                      | None => Script.fromPubkeyhash ZERO_HASH160
                      end |}.

(** The transaction of the selector when [selectEstimate] first
    estimates its size: the candidates are ordered, coins are gathered
    for the minimum fee, and the output that gauges the change is
    added. *)
Definition firstPass `{Env} (s : CoinSelector.t) (coins : list Coin.t)
    (rng : Rng) : result MTX.t :=
  s ← CoinSelector.init s coins rng;
  MTX.addOutput (CoinSelector.tx (CoinSelector.fund (CoinSelector.set_fee s MIN_FEE)))
                (MTX.ToScript (Output.script (gaugeOutput s))) 0.

(** The height by which [sortAge] orders a coin: an unconfirmed coin
    counts as of the greatest height. *)
Definition age (coin : Coin.t) : Z :=
  if decide (Coin.height coin = -1) then 2147483647 else Coin.height coin.

(** A list in which no element has a greater key than a later one. *)
Definition ascending {A} (key : A → Z) (l : list A) : Prop :=
  ∀ (i j : nat) a b, (i < j)%nat → l !! i = Some a → l !! j = Some b → key a ≤ key b.

(** A comparison function that draws nothing and compares by [key]. *)
Definition comparesBy {A} (key : A → Z) (comparefn : A → A → Rng → Z * Rng) : Prop :=
  ∀ a b r, comparefn a b r = (key a - key b, r).

(** A selector [s] that has walked its coins up to its index under the
    policy of [s0]: the chosen coins are the spendable ones among the
    coins walked. *)
Definition walked `{Env} (s0 s : CoinSelector.t) : Prop :=
  policy s = policy s0
  ∧ 0 ≤ CoinSelector.index s ≤ Z.of_nat (length (CoinSelector.coins s))
  ∧ CoinSelector.chosen s
    = filter (λ coin, CoinSelector.isSpendable s0 coin = true)
             (take (Z.to_nat (CoinSelector.index s)) (CoinSelector.coins s)).

(** ** Testing for signatures *)

(** [MTX.prototype.isVectorSigned] *)
Definition isVectorSigned {V} `{Vector V} (prev : Script.t) (vector : V) : bool :=
  if Script.isPubkey prev then
    if negb (Script.isSignature (vec_get vector 0)) then false else true
  else if Script.isPubkeyhash prev then
    if negb (Script.isSignature (vec_get vector 0)) then false else true
  else if Script.isMultisig prev then
    let m := Script.getSmall prev 0 in
    if negb (forallb (λ i, Script.isSignature (vec_get vector i))
                     (seqZ 1 (vec_length vector - 1)))
    then false
    else if negb (bool_decide (vec_length vector - 1 = m)) then false
    else true
  else false.

(** The end of [isInputSigned]: test [vector], setting the redeem script
    it carries aside while doing so. *)
Definition testWith {V} `{Vector V} (redeem : bool) (prev : Script.t) (vector : V)
    : result (bool * V) :=
  if redeem then
    let '(redeem, vector) := vec_pop vector in
    let result := isVectorSigned prev vector in
    match redeem with
    | None => Throw (AssertionError "Bad data for opcode.")
    | Some redeem =>
        vector ← vec_push vector redeem;
        Ok (result, vector)
    end
  else Ok (isVectorSigned prev vector, vector).

(** The body of [isInputSigned] on the input object it tests. *)
Definition isInputSignedAt `{Env} (input : Input.t) (coin : Coin.t)
    : result (bool * Input.t) :=
  let prev := Coin.script coin in
  let redeem := false in
  match (if Script.isScripthash prev then
           match Script.getRedeem fromRaw (Input.script input) with
           | None => None
           | Some prev => Some (prev, true)
           end
         else Some (prev, redeem)) with
  | None => Ok (false, input)
  | Some (prev, redeem) =>
      if Script.isWitnessScripthash prev then
        match Witness.getRedeem fromRaw (Input.witness input) with
        | None => Ok (false, input)
        | Some prev =>
            '(result, w) ← testWith true prev (Input.witness input);
            Ok (result, Input.set_witness input w)
        end
      else if Script.isWitnessPubkeyhash prev then
        let prev := Script.fromPubkeyhash (bufferOf (Script.get prev 1)) in
        '(result, w) ← testWith false prev (Input.witness input);
        Ok (result, Input.set_witness input w)
      else
        '(result, s) ← testWith redeem prev (Input.script input);
        Ok (result, Input.set_script input s)
  end.

(** [MTX.prototype.isInputSigned] *)
Definition isInputSigned `{Env} (m : MTX.t) (index : Z) (coin : option Coin.t)
    : result (bool * MTX.t) :=
  match MTX.nth (MTX.inputs m) index with
  | None => Throw (AssertionError "Input does not exist.")
  | Some input =>
      match coin with
      | None => Throw (AssertionError "No coin passed.")
      | Some coin =>
          '(ok, input) ← isInputSignedAt input coin;
          Ok (ok, MTX.set_inputs m (<[Z.to_nat index := input]> (MTX.inputs m)))
      end
  end.

(** The loop of [isSigned] over the inputs from position [i] on, of
    which there are [count]. *)
Fixpoint isSignedFrom `{Env} (count : nat) (i : Z) (m : MTX.t) : result (bool * MTX.t) :=
  match count with
  | O => Ok (true, m)
  | S count =>
      match MTX.nth (MTX.inputs m) i with
      | None => Ok (true, m)
      | Some input =>
          match getOutput (MTX.view m) input with
          | None => Ok (false, m)
          | Some coin =>
              '(ok, m) ← isInputSigned m i (Some coin);
              if negb ok then Ok (false, m)
              else isSignedFrom count (i + 1) m
          end
      end
  end.

(** [MTX.prototype.isSigned] *)
Definition isSigned `{Env} (m : MTX.t) : result (bool * MTX.t) :=
  isSignedFrom (length (MTX.inputs m)) 0 m.

(** ** Lock time and sequence *)

(** An input with another sequence number. *)
Definition withSequence (input : Input.t) (sequence : Z) : Input.t :=
  {| Input.prevout := Input.prevout input; Input.script := Input.script input;
     Input.witness := Input.witness input; Input.sequence := sequence |}.

(** [MTX.prototype.setLocktime] *)
Definition setLocktime (m : MTX.t) (locktime : Z) : MTX.t :=
  let inputs :=
    (λ input, if decide (Input.sequence input = 4294967295)
              then withSequence input (4294967295 - 1)
              else input) <$> MTX.inputs m in
  {| MTX.version := MTX.version m; MTX.flag := MTX.flag m; MTX.inputs := inputs;
     MTX.outputs := MTX.outputs m; MTX.locktime := locktime;
     MTX.changeIndex := MTX.changeIndex m; MTX.view := MTX.view m |}.

(** The 32-bit integers of the bit operators: [x >>> 0] and [x | 0]. *)
Definition toUint32 (x : Z) : Z := x `mod` 4294967296.
Definition toInt32 (x : Z) : Z := (x + 2147483648) `mod` 4294967296 - 2147483648.

(** The constants [constants.sequence] that [setSequence] consumes; the
    module that defines them is not among the sources. *)
Record SequenceConstants := {
  GRANULARITY : Z;
  TYPE_FLAG : Z;
  MASK : Z;
}.


(** The sequence number [setSequence] computes: [locktime >>>=
    GRANULARITY; locktime = TYPE_FLAG | locktime] for seconds,
    [locktime = MASK & locktime] otherwise. *)
Definition sequenceOf (c : SequenceConstants) (locktime : Z) (seconds : bool) : Z :=
  if seconds then
    let locktime := Z.shiftr (toUint32 locktime) (Z.land (toUint32 (GRANULARITY c)) 31) in
    Z.lor (toInt32 (TYPE_FLAG c)) (toInt32 locktime)
  else Z.land (toInt32 (MASK c)) (toInt32 locktime).

(** [MTX.prototype.setSequence] *)
Definition setSequence (c : SequenceConstants) (m : MTX.t) (index locktime : Z)
    (seconds : bool) : result MTX.t :=
  match MTX.nth (MTX.inputs m) index with
  | None => Throw (AssertionError "Input does not exist.")
  | Some input =>
      let input := withSequence input (sequenceOf c locktime seconds) in
      Ok {| MTX.version := 2; MTX.flag := MTX.flag m;
            MTX.inputs := <[Z.to_nat index := input]> (MTX.inputs m);
            MTX.outputs := MTX.outputs m; MTX.locktime := MTX.locktime m;
            MTX.changeIndex := MTX.changeIndex m; MTX.view := MTX.view m |}
  end.

(** The outpoints of coins, as the keys under which a view holds them,
    and the sum of their values. *)
Definition outpointsOf (coins : list Coin.t) : list (Buffer * Z) :=
  (Outpoint.key ∘ Coin.outpoint) <$> coins.

Definition valueOf (coins : list Coin.t) : Z :=
  foldr (λ coin acc, Coin.value coin + acc) 0 coins.

(** A transaction with inputs added for [coins], in order. *)
Definition spending (m : MTX.t) (coins : list Coin.t) : MTX.t :=
  foldl (λ m coin, MTX.addInput m (MTX.OfCoin coin)) m coins.

(** A selector whose chosen coins, added to the transaction [tx0], make
    its transaction, and of whose chosen coins those before the last do
    not reach the target, if there are any. *)
Definition frugal `{Env} (tx0 : MTX.t) (s : CoinSelector.t) : Prop :=
  CoinSelector.tx s = spending tx0 (CoinSelector.chosen s)
  ∧ ∀ pre last, CoinSelector.chosen s = pre ++ [last] → pre ≠ [] →
      MTX.getInputValue (spending tx0 pre) < CoinSelector.total s.

(** The part of the estimated size that the outputs and the fixed fields
    of a transaction account for. *)
Definition estimateBase (m : MTX.t) : Z :=
  4 + sizeVarint (Z.of_nat (length (MTX.inputs m)))
  + sizeVarint (Z.of_nat (length (MTX.outputs m)))
  + foldr (λ output acc, Output.getSize output + acc) 0 (MTX.outputs m)
  + 4.

(** Further concrete inputs: selectors in estimate mode and with
    confirmations asked for, and the transaction of [Cases.spending]
    templated and signed. *)
Module Further.
Import Sample.

Definition estimateSelector : CoinSelector.t :=
    selector (options "age" None (Some 20000) None None).

Definition confirmedSelector : CoinSelector.t :=
    selector {| CoinSelector.opt_selection := Some "age";
                CoinSelector.opt_subtractFee := None;
                CoinSelector.opt_height := Some 200;
                CoinSelector.opt_confirmations := Some 2;
                CoinSelector.opt_hardFee := Some 5000;
                CoinSelector.opt_rate := None;
                CoinSelector.opt_maxFee := None;
                CoinSelector.opt_round := None;
                CoinSelector.opt_changeAddress := Some (inr address);
                CoinSelector.opt_estimate := None |}.

Definition confirmedWallet : list Coin.t :=
    [coin 1 40000 5 false; coin 2 30000 3 true; coin 3 40000 (-1) false].

Definition templatedTx : MTX.t :=
    match MTX.scriptInput Cases.spending 0 (Some Cases.witnessCoin) (ring 4) with
    | Ok (_, m) => m
    | Throw _ => Cases.spending
    end.

Definition signedTx : MTX.t :=
    match @MTX.signInput env templatedTx 0 (Some Cases.witnessCoin) (ring 4) None with
    | Ok (_, m) => m
    | Throw _ => templatedTx
    end.

Definition inputOf (m : MTX.t) : Input.t :=
    default (Input.fromCoin Cases.witnessCoin) (MTX.inputs m !! 0%nat).
End Further.

(** * Verification *)

Lemma arr_get_Some {A} (l : list (option A)) i x :
  arr_get l i = Some x ↔ 0 ≤ i ∧ l !! Z.to_nat i = Some (Some x).
Proof.
  unfold arr_get. case_decide.
  - destruct (l !! Z.to_nat i) as [[y|]|] eqn:E; simpl;
      (split; [intros [= ->]; done | intros [_ [= <-]]; done])
      || (split; [done | intros [_ [=]]]).
  - split; [done|]. intros [? _]. lia.
Qed.

Lemma arr_get_nat {A} (l : list (option A)) (k : nat) :
  arr_get l (Z.of_nat k) = mjoin (l !! k).
Proof. unfold arr_get. case_decide; [|lia]. by rewrite Nat2Z.id. Qed.

Lemma Script_index_nonneg s i : 0 ≤ i → Script.index s i = i.
Proof. unfold Script.index. intros. case_decide; lia. Qed.

Lemma Script_index_neg s i : i < 0 → Script.index s i = Script.length s + i.
Proof. unfold Script.index. intros. case_decide; lia. Qed.

Lemma value_Push_le d : Script.value (Script.Push d) ≤ 78.
Proof.
  unfold Script.value, Script.OP_PUSHDATA1, Script.OP_PUSHDATA2, Script.OP_PUSHDATA4.
  repeat case_decide; lia.
Qed.

Lemma getOp_inv s i v :
  Script.getOp s i = v → 78 < v →
  arr_get (Script.code s) (Script.index s i) = Some (Script.Op v).
Proof.
  unfold Script.getOp. intros <- Hlt.
  destruct (arr_get _ _) as [[w|d]|]; [done| |lia].
  pose proof (value_Push_le d). lia.
Qed.

Lemma getSmall_inv s i :
  1 ≤ Script.getSmall s i →
  ∃ v, arr_get (Script.code s) (Script.index s i) = Some (Script.Op v)
       ∧ 81 ≤ v ≤ 96 ∧ Script.getSmall s i = v - 80.
Proof.
  unfold Script.getSmall, Script.get, Script.small.
  destruct (arr_get _ _) as [[w|d]|]; simpl; try lia.
  unfold Script.OP_0, Script.OP_1, Script.OP_16.
  repeat case_decide; try lia. intros _. exists w. split; [done|lia].
Qed.

Lemma isKey_inv s i :
  Script.isKey (Script.get s i) = true →
  ∃ k, arr_get (Script.code s) (Script.index s i) = Some (Script.Push k)
       ∧ 33 ≤ blen k ≤ 65.
Proof.
  unfold Script.get.
  destruct (arr_get _ _) as [[w|d]|]; simpl; try done.
  intros ?%bool_decide_eq_true. eauto.
Qed.

Lemma isMultisig_inv s :
  Script.isMultisig s = true →
  ∃ m ks, Script.code s = multisigCode m ks
          ∧ 1 ≤ m ≤ Z.of_nat (length ks) ∧ Z.of_nat (length ks) ≤ 16 
          ∧ Forall validKey ks.
Proof.
  unfold Script.isMultisig. intros Hm.
  repeat (apply andb_prop in Hm as [Hm ?]).
  repeat match goal with H : bool_decide _ = true |- _ => apply bool_decide_eq_true in H end.
  rename H into Hkeys. rename H0 into Hlen.
  destruct (getSmall_inv s 0) as (v0 & Hg0 & Hv0 & Hs0); [lia|].
  destruct (getSmall_inv s (-2)) as (vn & Hgn & Hvn & Hsn); [lia|].
  apply getOp_inv in H4; [|unfold Script.OP_CHECKMULTISIG; lia].
  rewrite Script_index_nonneg in Hg0 by lia.
  rewrite Script_index_neg in Hgn, H4 by lia.
  set (n := Script.getSmall s (-2)) in *.
  set (m := Script.getSmall s 0) in *.
  rewrite forallb_forall in Hkeys.
  assert (Hk : ∀ i : nat, (1 ≤ i ≤ Z.to_nat n)%nat →
     ∃ k, Script.code s !! i = Some (Some (Script.Push k)) ∧ validKey k).
  { intros i Hi. destruct (isKey_inv s (Z.of_nat i)) as (k & Hk & Hv).
    - apply Hkeys. apply list_elem_of_In, elem_of_seqZ. lia.
    - rewrite Script_index_nonneg in Hk by lia. rewrite arr_get_nat in Hk.
      exists k. split; [|done].
      destruct (Script.code s !! i) as [[?|]|]; simpl in *; congruence. }
  unfold Script.length, arr_length in *.
  apply arr_get_Some in Hg0 as [_ Hg0], Hgn as [_ Hgn], H4 as [_ H4].
  replace (Z.to_nat (Z.of_nat (length (Script.code s)) + -2)) with (S (Z.to_nat n)) in Hgn by lia.
  replace (Z.to_nat (Z.of_nat (length (Script.code s)) + -1)) with (S (S (Z.to_nat n))) in H4 by lia.
  change (Z.to_nat 0) with 0%nat in Hg0.
  exists m, (take (Z.to_nat n) ((λ o, match o with Some (Script.Push k) => k | _ => [] end) <$> drop 1 (Script.code s))).
  assert (Hl : length (take (Z.to_nat n) ((λ o, match o with Some (Script.Push k) => k | _ => [] end) <$> drop 1 (Script.code s))) = Z.to_nat n).
  { rewrite length_take, length_fmap, length_drop. lia. }
  split; [|split; [lia|split; [lia|]]].
  - apply list_eq. intros i. unfold multisigCode. rewrite Hl.
    destruct i as [|i]; simpl.
    { rewrite Hg0. do 3 f_equal. lia. }
    destruct (decide (i < Z.to_nat n)%nat).
    + rewrite lookup_app_l by (rewrite length_fmap; lia).
      rewrite list_lookup_fmap, lookup_take_lt by lia.
      rewrite list_lookup_fmap, lookup_drop. simpl.
      destruct (Hk (S i)) as (k & -> & _); [lia|]. done.
    + rewrite lookup_app_r by (rewrite length_fmap; lia).
      rewrite length_fmap, Hl.
      destruct (decide (i = Z.to_nat n)) as [->|].
      { rewrite Nat.sub_diag. simpl. rewrite Hgn. do 3 f_equal. lia. }
      destruct (decide (i = S (Z.to_nat n))) as [->|].
      { replace (S (Z.to_nat n) - Z.to_nat n)%nat with 1%nat by lia. simpl. by rewrite H4. }
      rewrite lookup_ge_None_2 by lia.
      rewrite lookup_ge_None_2; [done|simpl; lia].
  - apply Forall_forall. intros k Hin%list_elem_of_In.
    apply list_elem_of_lookup in Hin as [i Hi].
    pose proof (lookup_lt_Some _ _ _ Hi) as Hlt. rewrite Hl in Hlt.
    rewrite lookup_take_lt in Hi by lia.
    rewrite list_lookup_fmap, lookup_drop in Hi. simpl in Hi.
    destruct (Hk (S i)) as (k' & Hk' & Hv); [lia|].
    rewrite Hk' in Hi. simpl in Hi. by simplify_eq.
Qed.


(** *** Reading a multisig script *)
Section MultisigShape.
Context (s : Script.t) (m : Z) (ks : list Buffer).
Hypothesis Hcode : Script.code s = multisigCode m ks.
Hypothesis Hm : 1 ≤ m ≤ Z.of_nat (length ks).
Hypothesis Hn : Z.of_nat (length ks) ≤ 16.

Lemma ms_length : Script.length s = Z.of_nat (length ks) + 3.
  Proof.
    unfold Script.length, arr_length. rewrite Hcode. unfold multisigCode.
    simpl. rewrite length_app, length_fmap. simpl. lia.
  Qed.

Lemma ms_lookup_key (j : nat) k :
    ks !! j = Some k → Script.code s !! S j = Some (Some (Script.Push k)).
  Proof.
    intros Hj. rewrite Hcode. unfold multisigCode. simpl.
    rewrite lookup_app_l by (rewrite length_fmap; by eapply lookup_lt_Some).
    by rewrite list_lookup_fmap, Hj.
  Qed.

Lemma ms_lookup_n :
    Script.code s !! S (length ks) = Some (Some (Script.Op (80 + Z.of_nat (length ks)))).
  Proof.
    rewrite Hcode. unfold multisigCode. simpl.
    rewrite lookup_app_r by (rewrite length_fmap; lia).
    by rewrite length_fmap, Nat.sub_diag.
  Qed.

Lemma ms_lookup_last :
    Script.code s !! S (S (length ks)) = Some (Some (Script.Op Script.OP_CHECKMULTISIG)).
  Proof.
    rewrite Hcode. unfold multisigCode. simpl.
    rewrite lookup_app_r by (rewrite length_fmap; lia).
    rewrite length_fmap. by replace (S (length ks) - length ks)%nat with 1%nat by lia.
  Qed.

Lemma ms_get_nat (j : nat) :
    Script.get s (Z.of_nat j) = Script.toValue <$> mjoin (Script.code s !! j).
  Proof.
    unfold Script.get. rewrite Script_index_nonneg by lia. by rewrite arr_get_nat.
  Qed.

Lemma ms_get_0 : Script.get s 0 = Some (Num (80 + m)).
  Proof. change 0 with (Z.of_nat 0). rewrite ms_get_nat, Hcode. done. Qed.

Lemma ms_getSmall_0 : Script.getSmall s 0 = m.
  Proof.
    unfold Script.getSmall. rewrite ms_get_0. simpl.
    unfold Script.OP_0, Script.OP_1, Script.OP_16. repeat case_decide; lia.
  Qed.

Lemma ms_getSmall_n : Script.getSmall s (Script.length s - 2) = Z.of_nat (length ks).
  Proof.
    rewrite ms_length.
    replace (Z.of_nat (length ks) + 3 - 2) with (Z.of_nat (S (length ks))) by lia.
    unfold Script.getSmall. rewrite ms_get_nat, ms_lookup_n. simpl.
    unfold Script.OP_0, Script.OP_1, Script.OP_16. repeat case_decide; lia.
  Qed.

Lemma ms_getOp_0 : Script.getOp s 0 = 80 + m.
  Proof.
    unfold Script.getOp. rewrite Script_index_nonneg by lia.
    change 0 with (Z.of_nat 0). by rewrite arr_get_nat, Hcode.
  Qed.

Lemma ms_keys :
    Script.get s <$> seqZ 1 (Script.length s - 3) = (λ k, Some (Buf k)) <$> ks.
  Proof.
    rewrite ms_length. replace (Z.of_nat (length ks) + 3 - 3) with (Z.of_nat (length ks)) by lia.
    apply list_eq. intros j. rewrite !list_lookup_fmap.
    destruct (ks !! j) as [k|] eqn:Hj.
    - rewrite lookup_seqZ_lt by (apply lookup_lt_Some in Hj; lia). simpl.
      replace (1 + Z.of_nat j) with (Z.of_nat (S j)) by lia.
      by rewrite ms_get_nat, (ms_lookup_key j k).
    - rewrite lookup_seqZ_ge; [done|]. apply lookup_ge_None in Hj. lia.
  Qed.

Lemma ms_multisigKeys : multisigKeys s = ks.
  Proof.
    unfold multisigKeys.
    change (λ i, bufferOf (Script.get s i)) with (bufferOf ∘ Script.get s).
    rewrite list_fmap_compose, ms_keys, <-list_fmap_compose.
    apply list_fmap_id.
  Qed.

Lemma ms_not_pubkey : Script.isPubkey s = false.
  Proof.
    unfold Script.isPubkey. rewrite ms_length.
    rewrite bool_decide_eq_false_2 by lia. done.
  Qed.

Lemma ms_not_pubkeyhash : Script.isPubkeyhash s = false.
  Proof.
    unfold Script.isPubkeyhash. rewrite ms_getOp_0.
    rewrite (bool_decide_eq_false_2 (80 + m = Script.OP_DUP))
      by (unfold Script.OP_DUP; lia).
    by rewrite andb_false_r.
  Qed.

Lemma ms_toArray :
    Script.toArray s =
      Some (Num (80 + m)) :: (((λ k, Some (Buf k)) <$> ks)
        ++ [Some (Num (80 + Z.of_nat (length ks))); Some (Num Script.OP_CHECKMULTISIG)]).
  Proof.
    unfold Script.toArray. rewrite Hcode. unfold multisigCode.
    rewrite fmap_cons, fmap_app, <-list_fmap_compose. done.
  Qed.
End MultisigShape.

(** *** [util.indexOf] over a list of keys *)

Lemma indexOf_from_absent ks rest key i :
  key ∉ ks →
  indexOf_from (((λ k, Some (Buf k)) <$> ks) ++ rest) key i
  = indexOf_from rest key (i + Z.of_nat (length ks)).
Proof.
  revert i. induction ks as [|k ks IH]; intros i Hnot; csimpl.
  - f_equal. lia.
  - apply not_elem_of_cons in Hnot as [Hne Hnot].
    rewrite bool_decide_eq_false_2 by done.
    rewrite IH by done. f_equal. lia.
Qed.

Lemma indexOf_from_present ks rest key i :
  key ∈ ks →
  ∃ j : nat, ks !! j = Some key ∧ (key ∉ take j ks)
    ∧ indexOf_from (((λ k, Some (Buf k)) <$> ks) ++ rest) key i = i + Z.of_nat j.
Proof.
  revert i. induction ks as [|k ks IH]; intros i Hin; [by apply elem_of_nil in Hin|].
  csimpl. destruct (decide (k = key)) as [->|Hne].
  - exists 0%nat. rewrite bool_decide_eq_true_2 by done.
    split; [done|]. split; [apply not_elem_of_nil|lia].
  - rewrite bool_decide_eq_false_2 by done.
    apply elem_of_cons in Hin as [->|Hin]; [done|].
    destruct (IH (i + 1) Hin) as (j & Hj & Hfirst & ->).
    exists (S j). split; [done|]. split; [|lia].
    simpl. apply not_elem_of_cons. done.
Qed.

Lemma indexOf_tail_absent key i a b :
  indexOf_from [Some (Num a); Some (Num b)] key i = -1.
Proof. done. Qed.


(** *** Array writes *)

Lemma arr_set_end {A} (l : list (option A)) i x :
  i = arr_length l → arr_set l i x = l ++ [Some x].
Proof.
  intros ->. unfold arr_set, arr_length. repeat case_decide; try lia.
  by replace (Z.to_nat (Z.of_nat (length l)) - length l)%nat with 0%nat by lia.
Qed.

Lemma arr_set_lt {A} (l : list (option A)) i x :
  0 ≤ i < arr_length l → arr_set l i x = <[Z.to_nat i := Some x]> l.
Proof. unfold arr_set. intros. repeat case_decide; lia || done. Qed.

Lemma replicate_snoc {A} (n : nat) (x : A) : replicate n x ++ [x] = replicate (S n) x.
Proof. induction n as [|n IH]; simpl; [done|]. by rewrite IH. Qed.

(** *** Templating a multisig input *)

Lemma fillSlots_Script (count i : nat) raw :
  MTX.fillSlots count (Z.of_nat i)
    {| Script.code := replicate (S i) (Some (Script.Op Script.OP_0)); Script.raw := raw |}
  = Ok {| Script.code := replicate (S i + count) (Some (Script.Op Script.OP_0));
          Script.raw := raw |}.
Proof.
  revert i. induction count as [|count IH]; intros i.
  - by rewrite Nat.add_0_r.
  - cbn [MTX.fillSlots]. unfold vec_set, Script_Vector, Script.set. cbn [mbind result_bind].
    cbn [Script.code Script.raw].
    rewrite Script_index_nonneg by lia.
    rewrite arr_set_end by (unfold arr_length; rewrite length_replicate; lia).
    cbn [Script.from]. rewrite replicate_snoc.
    replace (Z.of_nat i + 1) with (Z.of_nat (S i)) by lia.
    rewrite IH. do 3 f_equal. lia.
Qed.

Lemma encodeItem_OP_0 : Witness.encodeItem (Num Script.OP_0) = Ok [].
Proof. reflexivity. Qed.

Lemma fillSlots_Witness (count i : nat) :
  MTX.fillSlots count (Z.of_nat i)
    {| Witness.items := replicate (S i) (Some []) |}
  = Ok {| Witness.items := replicate (S i + count) (Some []) |}.
Proof.
  revert i. induction count as [|count IH]; intros i.
  - by rewrite Nat.add_0_r.
  - cbn [MTX.fillSlots]. unfold vec_set, Witness_Vector, Witness.set.
    rewrite encodeItem_OP_0. cbn [mbind result_bind Witness.items].
    unfold Witness.index, Witness.length. cbn [Witness.items].
    rewrite decide_False by lia.
    rewrite arr_set_end by (unfold arr_length; rewrite length_replicate; lia).
    rewrite replicate_snoc.
    replace (Z.of_nat i + 1) with (Z.of_nat (S i)) by lia.
    rewrite IH. do 3 f_equal. lia.
Qed.

Lemma ms_indexOf_absent s m ks key :
  Script.code s = multisigCode m ks →
  key ∉ ks → Script.indexOf s key = -1.
Proof.
  intros Hcode Hnot. unfold Script.indexOf, indexOf.
  rewrite (ms_toArray s m ks Hcode). cbn [indexOf_from].
  by rewrite indexOf_from_absent.
Qed.

Lemma ms_indexOf_present s m ks key :
  Script.code s = multisigCode m ks →
  key ∈ ks → Script.indexOf s key ≠ -1.
Proof.
  intros Hcode Hin. unfold Script.indexOf, indexOf.
  rewrite (ms_toArray s m ks Hcode). cbn [indexOf_from].
  destruct (indexOf_from_present ks
              [Some (Num (80 + Z.of_nat (length ks))); Some (Num Script.OP_CHECKMULTISIG)]
              key (0 + 1) Hin) as (j & _ & _ & ->).
  lia.
Qed.

(** The template of a script vector for a multisig script with the
    keys [ks]. *)
Lemma scriptVector_script_template (prev : Script.t) (m : Z) (ks : list Buffer)
    (ring : KeyRing) (template : Script.t) :
  Script.isMultisig prev = true →
  Script.code prev = multisigCode m ks →
  1 ≤ m ≤ Z.of_nat (length ks) → Z.of_nat (length ks) ≤ 16 →
  MTX.scriptVector prev emptyScript ring = Ok (true, template) →
  template = {| Script.code := replicate (S (length ks)) (Some (Script.Op Script.OP_0));
                Script.raw := [] |}.
Proof.
  intros Hms Hcode Hm Hn. unfold MTX.scriptVector.
  rewrite (ms_not_pubkey prev m ks Hcode), (ms_not_pubkeyhash prev m ks Hcode Hm Hn), Hms.
  destruct (decide (Script.indexOf prev (publicKey ring) = -1)) as [?|_]; [done|].
  rewrite (ms_getSmall_n prev m ks Hcode Hm Hn), Nat2Z.id.
  change (vec_set emptyScript 0 (Num Script.OP_0))
    with (Ok {| Script.code := replicate 1 (Some (Script.Op Script.OP_0));
                Script.raw := [] |} : result Script.t).
  cbn [mbind result_bind].
  change 0 with (Z.of_nat 0). rewrite fillSlots_Script.
  cbn [mbind result_bind]. by intros [= <-].
Qed.

(** C4. For a bare m-of-n multisig previous script, a signer whose public
    key is one of the n keys of the script gets a template of one empty
    marker slot followed by exactly n empty placeholder slots, in a
    script as in a witness; n is the key count the script declares, not
    the threshold. A signer whose key is not among the n keys gets
    [false], the vector is left as it was and nothing is thrown. *)
Theorem scriptVector_multisig (prev : Script.t) (ring : KeyRing) :
  Script.isMultisig prev = true →
  let n := length (multisigKeys prev) in
  Script.getSmall prev (Script.length prev - 2) = Z.of_nat n
  ∧ (publicKey ring ∈ multisigKeys prev →
       MTX.scriptVector prev emptyScript ring
       = Ok (true, {| Script.code := replicate (S n) (Some (Script.Op Script.OP_0));
                      Script.raw := [] |})
       ∧ MTX.scriptVector prev emptyWitness ring
         = Ok (true, {| Witness.items := replicate (S n) (Some []) |}))
  ∧ (publicKey ring ∉ multisigKeys prev →
       ∀ (V : Type) (HV : Vector V) (vector : V),
         MTX.scriptVector prev vector ring = Ok (false, vector)).
Proof.
  intros Hms. destruct (isMultisig_inv prev Hms) as (m & ks & Hcode & Hm & Hn & Hks).
  rewrite (ms_multisigKeys prev m ks Hcode). cbn zeta.
  pose proof (ms_getSmall_n prev m ks Hcode Hm Hn) as Hsmall.
  split; [done|]. split.
  - intros Hin. pose proof (ms_indexOf_present prev m ks _ Hcode Hin) as Hidx.
    unfold MTX.scriptVector.
    rewrite (ms_not_pubkey prev m ks Hcode), (ms_not_pubkeyhash prev m ks Hcode Hm Hn), Hms.
    destruct (decide (Script.indexOf prev (publicKey ring) = -1)) as [?|_]; [done|].
    rewrite Hsmall, Nat2Z.id. split.
    + change (vec_set emptyScript 0 (Num Script.OP_0))
        with (Ok {| Script.code := replicate 1 (Some (Script.Op Script.OP_0));
                    Script.raw := [] |} : result Script.t).
      cbn [mbind result_bind].
      change 0 with (Z.of_nat 0). rewrite fillSlots_Script. done.
    + change (vec_set emptyWitness 0 (Num Script.OP_0))
        with (Ok {| Witness.items := replicate 1 (Some []) |} : result Witness.t).
      cbn [mbind result_bind].
      change 0 with (Z.of_nat 0). rewrite fillSlots_Witness. done.
  - intros Hnot V HV vector.
    pose proof (ms_indexOf_absent prev m ks _ Hcode Hnot) as Hidx.
    unfold MTX.scriptVector.
    rewrite (ms_not_pubkey prev m ks Hcode), (ms_not_pubkeyhash prev m ks Hcode Hm Hn), Hms.
    by rewrite decide_True.
Qed.


(** *** Lengths of vectors *)

Lemma arr_set_length {A} (l : list (option A)) i x :
  0 ≤ i → arr_length (arr_set l i x) = Z.max (arr_length l) (i + 1).
Proof.
  intros Hi. unfold arr_set, arr_length. repeat case_decide; try lia.
  - rewrite length_insert. lia.
  - rewrite !length_app, length_replicate. simpl. lia.
Qed.

#[global] Instance Script_VectorLaws : VectorLaws Script.t.
Proof.
  split.
  - intros v. unfold vec_length, Script_Vector, Script.length, arr_length. lia.
  - intros v v' i x [= <-] Hi. unfold vec_length, Script_Vector, Script.length, Script.set.
    cbn [Script.code]. rewrite Script_index_nonneg by done. by apply arr_set_length.
  - intros v v' x [= <-]. unfold vec_length, Script_Vector, Script.length, Script.push,
      arr_push, arr_length. cbn [Script.code]. rewrite length_app. simpl. lia.
  - intros v v'. unfold vec_compile, Script_Vector, Script.compile.
    destruct (Script.encode (Script.code v)); [|done]. by intros [= <-].
Qed.

#[global] Instance Witness_VectorLaws : VectorLaws Witness.t.
Proof.
  split.
  - intros v. unfold vec_length, Witness_Vector, Witness.length, arr_length. lia.
  - intros v v' i x. unfold vec_set, vec_length, Witness_Vector, Witness.set, Witness.length.
    destruct (Witness.encodeItem x); [|done]. intros [= <-] Hi. cbn [Witness.items].
    unfold Witness.index, Witness.length. rewrite decide_False by lia.
    by apply arr_set_length.
  - intros v v' x. unfold vec_push, vec_length, Witness_Vector, Witness.push, Witness.length.
    destruct (Witness.encodeItem x); [|done]. intros [= <-]. cbn [Witness.items].
    unfold arr_push, arr_length. rewrite length_app. simpl. lia.
  - by intros v v' [= <-].
Qed.

Section Templated.
Context {V : Type} `{VectorLaws V}.

Lemma fillSlots_length count i (v v' : V) :
    MTX.fillSlots count i v = Ok v' → 0 ≤ i → vec_length v ≤ vec_length v'.
  Proof.
    revert i v. induction count as [|count IH]; intros i v; cbn [MTX.fillSlots].
    - by intros [= <-].
    - destruct (vec_set v (i + 1) (Num Script.OP_0)) as [w|] eqn:Hset; [|done].
      cbn [mbind result_bind]. intros Hfill Hi.
      apply IH in Hfill; [|lia].
      apply vec_set_length in Hset; [|lia]. lia.
  Qed.

Lemma scriptVector_false prev (v v' : V) ring :
    MTX.scriptVector prev v ring = Ok (false, v') → v' = v.
  Proof.
    unfold MTX.scriptVector.
    repeat match goal with
           | |- context [if ?b then _ else _] => destruct b
           end;
      repeat match goal with
             | |- context [mbind _ ?r] => destruct r; cbn [mbind result_bind]
             end;
      intros [= ?]; done.
  Qed.

Lemma scriptVector_true prev (v v' : V) ring :
    MTX.scriptVector prev v ring = Ok (true, v') → 1 ≤ vec_length v'.
  Proof.
    pose proof (vec_length_nonneg v) as Hv.
    unfold MTX.scriptVector.
    repeat match goal with
           | |- context [if ?b then _ else _] => destruct b
           end; try (intros [= ?]; done).
    - destruct (vec_set v 0 _) as [w|] eqn:Hset; [|done].
      cbn [mbind result_bind]. intros [= <-].
      apply vec_set_length in Hset; lia.
    - destruct (vec_set v 0 _) as [w|] eqn:Hset; [|done]. cbn [mbind result_bind].
      destruct (vec_set w 1 _) as [w'|] eqn:Hset'; [|done]. cbn [mbind result_bind].
      intros [= <-]. apply vec_set_length in Hset'; lia.
    - destruct (vec_set v 0 _) as [w|] eqn:Hset; [|done]. cbn [mbind result_bind].
      destruct (MTX.fillSlots _ 0 w) as [w'|] eqn:Hfill; [|done]. cbn [mbind result_bind].
      intros [= <-]. apply fillSlots_length in Hfill; [|lia].
      apply vec_set_length in Hset; lia.
  Qed.
End Templated.


(** *** Templating an input *)

Lemma set_script_id input : Input.set_script input (Input.script input) = input.
Proof. by destruct input. Qed.

Lemma set_witness_id input : Input.set_witness input (Input.witness input) = input.
Proof. by destruct input. Qed.

Ltac script_input_step :=
  first
    [ progress cbn [mbind result_bind negb]
    | match goal with
      | |- match getRedeem ?r ?b with _ => _ end = _ → _ =>
          destruct (getRedeem r b) eqn:?
      | |- mbind _ (MTX.scriptVector ?p ?v ?r) = _ → _ =>
          destruct (MTX.scriptVector p v r) as [[[] ?]|] eqn:?
      | |- mbind _ (vec_push ?v ?x) = _ → _ =>
          destruct (vec_push v x) eqn:?
      | |- mbind _ (vec_compile ?v) = _ → _ =>
          destruct (vec_compile v) eqn:?
      | |- (if ?b then _ else _) = _ → _ => destruct b
      end ].

Ltac vector_lengths :=
  repeat match goal with
         | H : MTX.scriptVector _ _ _ = Ok (true, _) |- _ =>
             apply scriptVector_true in H
         | H : MTX.scriptVector _ _ _ = Ok (false, _) |- _ =>
             apply scriptVector_false in H
         | H : vec_push _ _ = Ok _ |- _ => apply vec_push_length in H
         | H : vec_compile _ = Ok _ |- _ => apply vec_compile_length in H
         end.

Lemma scriptInputAt_outcome input coin ring ok input' :
  MTX.scriptInputAt input coin ring = Ok (ok, input') →
  (ok = false → input' = input) ∧ (ok = true → templated input').
Proof.
  unfold MTX.scriptInputAt.
  destruct (negb (bool_decide (Script.length (Input.script input) = 0))
            || negb (bool_decide (Witness.length (Input.witness input) = 0))) eqn:Hc.
  { intros [= <- <-]. split; [done|]. intros _. unfold templated.
    apply orb_true_iff in Hc as [Hc|Hc]; apply negb_true_iff, bool_decide_eq_false in Hc;
      [by left|by right]. }
  repeat script_input_step;
    (intros [= <- <-] || (intros [=]; fail));
    (split; intros ?; try done);
    vector_lengths; subst;
    rewrite ?set_script_id, ?set_witness_id; try done;
    unfold templated, vec_length, Script_Vector, Witness_Vector in *;
    cbn [Input.script Input.witness Input.set_script Input.set_witness] in *;
    ((left; lia) || (right; lia)).
Qed.

Lemma set_inputs_insert_id m i input :
  MTX.inputs m !! i = Some input →
  MTX.set_inputs m (<[i := input]> (MTX.inputs m)) = m.
Proof. intros Hi. rewrite list_insert_id by done. by destruct m. Qed.

(** C5. Templating is idempotent. If the script or the witness of the
    input already has content, [scriptInput] returns [true] at once and
    the transaction is the one it was given. Hence, whatever a first
    call returned, a second call with the same coin and key ring returns
    the same answer and leaves every byte of the input as the first call
    produced it; after a successful first call this holds for any coin
    and key ring. *)
Theorem scriptInput_idempotent (m : MTX.t) (index : Z) (input : Input.t)
    (coin : Coin.t) (ring : KeyRing) :
  MTX.nth (MTX.inputs m) index = Some input →
  (templated input → MTX.scriptInput m index (Some coin) ring = Ok (true, m))
  ∧ (∀ ok m',
       MTX.scriptInput m index (Some coin) ring = Ok (ok, m') →
       MTX.scriptInput m' index (Some coin) ring = Ok (ok, m')
       ∧ (ok = true → ∀ coin' ring',
            MTX.scriptInput m' index (Some coin') ring' = Ok (true, m'))).
Proof.
  intros Hnth.
  assert (Hdone : ∀ m0 input0 coin0 ring0,
            MTX.nth (MTX.inputs m0) index = Some input0 → templated input0 →
            MTX.scriptInput m0 index (Some coin0) ring0 = Ok (true, m0)).
  { intros m0 input0 coin0 ring0 Hn Ht. unfold MTX.scriptInput. rewrite Hn.
    unfold MTX.scriptInputAt.
    assert (negb (bool_decide (Script.length (Input.script input0) = 0))
            || negb (bool_decide (Witness.length (Input.witness input0) = 0)) = true) as ->.
    { apply orb_true_iff. destruct Ht as [Ht|Ht]; [left|right];
        by apply negb_true_iff, bool_decide_eq_false. }
    cbn [mbind result_bind]. unfold MTX.nth in Hn. case_decide; [|done].
    by rewrite set_inputs_insert_id. }
  split; [by apply Hdone|].
  intros ok m' Hfirst.
  pose proof Hfirst as Hcall. unfold MTX.scriptInput in Hcall. rewrite Hnth in Hcall.
  destruct (MTX.scriptInputAt input coin ring) as [[ok' input']|] eqn:Hat; [|done].
  cbn [mbind result_bind] in Hcall. injection Hcall as <- <-.
  apply scriptInputAt_outcome in Hat as [Hfalse Htrue].
  assert (Hnth' : MTX.nth (MTX.inputs (MTX.set_inputs m (<[Z.to_nat index:=input']> (MTX.inputs m))))
                    index = Some input').
  { unfold MTX.nth in *. case_decide; [|done]. cbn [MTX.inputs MTX.set_inputs].
    apply list_lookup_insert_eq. by eapply lookup_lt_Some. }
  destruct ok'.
  - split; [|intros _ coin' ring']; apply (Hdone _ input'); auto.
  - specialize (Hfalse eq_refl) as ->.
    unfold MTX.nth in Hnth. case_decide; [|done].
    rewrite set_inputs_insert_id in Hfirst |- * by done. split; [done|]. done.
Qed.


(** *** The selector's accumulation loop *)
Section Accumulate.
Context `{Env}.
Import CoinSelector.

Lemma isSpendable_policy s1 s2 coin :
    policy s1 = policy s2 → isSpendable s1 coin = isSpendable s2 coin.
  Proof.
    unfold policy. intros [= ? ? ? Hh Hc ? ? ? ? ? ?].
    unfold isSpendable. by rewrite Hh, Hc.
  Qed.

Lemma fundFrom_frame rest s :
    policy (fundFrom rest s) = policy s
    ∧ coins (fundFrom rest s) = coins s
    ∧ outputValue (fundFrom rest s) = outputValue s
    ∧ fee (fundFrom rest s) = fee s
    ∧ change (fundFrom rest s) = change s.
  Proof.
    revert s. induction rest as [|coin rest IH]; intros s; cbn [fundFrom]; [done|].
    repeat match goal with
           | |- context [if ?b then _ else _] => destruct b
           end;
      try (destruct (IH (set_index s (index s + 1))) as (-> & -> & -> & -> & ->); done);
      try (destruct (IH (set_chosen
                           (set_tx (set_index s (index s + 1))
                              (MTX.addInput (tx (set_index s (index s + 1))) (MTX.OfCoin coin)))
                           (chosen (set_tx (set_index s (index s + 1))
                              (MTX.addInput (tx (set_index s (index s + 1))) (MTX.OfCoin coin)))
                            ++ [coin]))) as (-> & -> & -> & -> & ->); done);
      done.
  Qed.

  (** [isSpendable] reads the policy only. *)
Lemma isSpendable_step s x tx' chosen' coin :
    isSpendable (set_chosen (set_tx (set_index s x) tx') chosen') coin
    = isSpendable s coin.
  Proof. done. Qed.

Lemma isSpendable_index s x coin :
    isSpendable (set_index s x) coin = isSpendable s coin.
  Proof. done. Qed.

  (** Every coin the loop adds comes from the list it walks and passes
      the spendability test. *)
Lemma fundFrom_chosen rest s :
    ∃ added, chosen (fundFrom rest s) = chosen s ++ added
             ∧ added ⊆ rest
             ∧ Forall (λ coin, isSpendable s coin = true) added.
  Proof.
    revert s. induction rest as [|coin rest IH]; intros s; cbn [fundFrom].
    { exists []. rewrite app_nil_r. split; [done|]. split; [done|constructor]. }
    rewrite isSpendable_index.
    destruct (isSpendable s coin) eqn:Hsp; cbn [negb].
    - match goal with |- context [fundFrom rest ?x] => set (s1 := x) end.
      assert (Hall : ∃ added, chosen (fundFrom rest s1) = chosen s ++ added
                 ∧ added ⊆ coin :: rest
                 ∧ Forall (λ coin, isSpendable s coin = true) added).
      { destruct (IH s1) as (added & -> & Hsub & Hfor).
        exists (coin :: added). split.
        - subst s1. cbn [chosen set_chosen set_tx set_index update].
          by rewrite <-app_assoc.
        - split.
          + intros c [->|Hc]%elem_of_cons; [apply list_elem_of_here|].
            apply list_elem_of_further. by apply Hsub.
          + constructor; [done|]. exact Hfor. }
      destruct (decide (selection s1 = "all")); [exact Hall|].
      destruct (isFull s1); [|exact Hall].
      exists [coin]. split; [done|]. split.
      + intros c [->|Hc]%elem_of_cons; [apply list_elem_of_here|].
        by apply elem_of_nil in Hc.
      + by constructor.
    - destruct (IH (set_index s (index s + 1))) as (added & -> & Hsub & Hfor).
      exists added. split; [done|]. split; [|exact Hfor].
      intros c Hc. apply list_elem_of_further. by apply Hsub.
  Qed.

  (** Under strategy [all] the loop adds every spendable coin. *)
Lemma fundFrom_all rest s :
    selection s = "all" →
    chosen (fundFrom rest s) = chosen s ++ filter (λ coin, isSpendable s coin = true) rest
    ∧ index (fundFrom rest s) = index s + Z.of_nat (length rest).
  Proof.
    revert s. induction rest as [|coin rest IH]; intros s Hall; cbn [fundFrom].
    { rewrite app_nil_r. split; [done|]. cbn [length]. lia. }
    rewrite filter_cons, isSpendable_index.
    destruct (isSpendable s coin) eqn:Hsp; cbn [negb].
    - match goal with |- context [fundFrom rest ?x] => set (s1 := x) end.
      rewrite (decide_True (P := selection s1 = "all")) by done.
      destruct (IH s1) as [-> ->]; [done|].
      rewrite decide_True by done.
      subst s1. cbn [chosen index set_chosen set_tx set_index update].
      rewrite <-app_assoc. split; [done|]. cbn [length]. lia.
    - destruct (IH (set_index s (index s + 1))) as [-> ->]; [done|].
      rewrite decide_False by done.
      cbn [chosen index set_index update]. split; [done|]. cbn [length]. lia.
  Qed.

  (** The loop stops because the transaction is funded or because no
      coin is left; it moves the index forward, by the number of coins
      it walked at most. *)
Lemma fundFrom_exit rest s :
    isFull (fundFrom rest s) = true
    ∨ index (fundFrom rest s) = index s + Z.of_nat (length rest).
  Proof.
    revert s. induction rest as [|coin rest IH]; intros s; cbn [fundFrom].
    { right. cbn [length]. lia. }
    destruct (isSpendable _ coin); cbn [negb].
    - match goal with |- context [fundFrom rest ?x] => set (s1 := x) end.
      assert (Hrec : isFull (fundFrom rest s1) = true
                ∨ index (fundFrom rest s1) = index s + Z.of_nat (length (coin :: rest))).
      { destruct (IH s1) as [? | ->]; [by left|right].
        subst s1. cbn [index set_chosen set_tx set_index update]. cbn [length]. lia. }
      destruct (decide (selection s1 = "all")); [exact Hrec|].
      destruct (isFull s1) eqn:Hfull; [by left|exact Hrec].
    - destruct (IH (set_index s (index s + 1))) as [? | ->]; [by left|right].
      cbn [index set_index update]. cbn [length]. lia.
  Qed.

Lemma fundFrom_index rest s :
    index s ≤ index (fundFrom rest s) ≤ index s + Z.of_nat (length rest).
  Proof.
    revert s. induction rest as [|coin rest IH]; intros s; cbn [fundFrom].
    { cbn [length]. lia. }
    destruct (isSpendable _ coin); cbn [negb].
    - match goal with |- context [fundFrom rest ?x] => set (s1 := x) end.
      assert (Hrec : index s ≤ index (fundFrom rest s1)
                     ≤ index s + Z.of_nat (length (coin :: rest))).
      { pose proof (IH s1) as Hle. subst s1.
        cbn [index set_chosen set_tx set_index update] in Hle. cbn [length]. lia. }
      destruct (decide (selection s1 = "all")); [exact Hrec|].
      destruct (isFull s1); [|exact Hrec].
      subst s1. cbn [index set_chosen set_tx set_index update]. cbn [length]. lia.
    - pose proof (IH (set_index s (index s + 1))) as Hle.
      cbn [index set_index update] in Hle. cbn [length]. lia.
  Qed.
End Accumulate.


(** *** Sorting permutes *)
Section SortPermutation.
Context {A : Type} (comparefn : A → A → Rng → Z * Rng).

Lemma insertSorted_Permutation element before r :
    fst (insertSorted comparefn element before r) ≡ₚ element :: before.
  Proof.
    revert r. induction before as [|tmp rest IH]; intros r; cbn [insertSorted]; [done|].
    destruct (comparefn tmp element r) as [order r']. case_decide; [|done].
    specialize (IH r'). destruct (insertSorted comparefn element rest r') as [placed r''].
    cbn [fst] in *. rewrite IH. apply perm_swap.
  Qed.

Lemma sortFrom_Permutation todo before r :
    fst (sortFrom comparefn todo before r) ≡ₚ todo ++ before.
  Proof.
    revert before r. induction todo as [|element todo IH]; intros before r; cbn [sortFrom].
    - cbn [fst]. by rewrite reverse_Permutation.
    - pose proof (insertSorted_Permutation element before r) as Hins.
      destruct (insertSorted comparefn element before r) as [before' r'].
      cbn [fst] in Hins. rewrite IH, Hins. by rewrite <-Permutation_middle.
  Qed.

Lemma sort_Permutation l r : fst (sort comparefn l r) ≡ₚ l.
  Proof. unfold sort. by rewrite sortFrom_Permutation, app_nil_r. Qed.
End SortPermutation.

(** *** Selection, step by step *)
Section Selection.
Context `{Env}.
Import CoinSelector.

Lemma fund_frame s :
    policy (fund s) = policy s
    ∧ coins (fund s) = coins s
    ∧ outputValue (fund s) = outputValue s
    ∧ fee (fund s) = fee s
    ∧ change (fund s) = change s.
  Proof. apply fundFrom_frame. Qed.

Lemma fund_chosen s :
    ∃ added, chosen (fund s) = chosen s ++ added
             ∧ added ⊆ coins s
             ∧ Forall (λ coin, isSpendable s coin = true) added.
  Proof.
    unfold fund. destruct (fundFrom_chosen (drop (Z.to_nat (index s)) (coins s)) s)
      as (added & Hc & Hsub & Hfor).
    exists added. split; [done|]. split; [|done].
    intros c Hc'. apply Hsub in Hc'.
    by apply (sublist_subseteq _ _ (sublist_drop _ _)) in Hc'.
  Qed.

Lemma fund_exit s :
    0 ≤ index s ≤ Z.of_nat (length (coins s)) →
    isFull (fund s) = true ∨ index (fund s) = Z.of_nat (length (coins s)).
  Proof.
    intros Hi. unfold fund.
    destruct (fundFrom_exit (drop (Z.to_nat (index s)) (coins s)) s) as [? | ->]; [by left|].
    right. rewrite length_drop. lia.
  Qed.

Lemma fund_index s :
    0 ≤ index s ≤ Z.of_nat (length (coins s)) →
    0 ≤ index (fund s) ≤ Z.of_nat (length (coins (fund s))).
  Proof.
    intros Hi. destruct (fund_frame s) as (_ & -> & _). unfold fund.
    pose proof (fundFrom_index (drop (Z.to_nat (index s)) (coins s)) s) as Hb.
    rewrite length_drop in Hb. lia.
  Qed.

  (** The loop of [selectEstimate] never runs out of fuel: whenever it
      funds, it leaves the transaction funded or the coins used up, so
      the first turn is the last. *)
Lemma estimateLoop_fuel fuel fuel' s :
    0 ≤ index s ≤ Z.of_nat (length (coins s)) →
    estimateLoop (S fuel) s = estimateLoop (S fuel') s.
  Proof.
    intros Hi. cbn [estimateLoop].
    set (s1 := set_fee s _).
    case_decide; [done|].
    destruct (isFull s1) eqn:Hfull; cbn [negb].
    - by rewrite Hfull.
    - destruct (fund_exit s1) as [->| ->]; [done|done|].
      rewrite bool_decide_eq_false_2, andb_false_r; [done|].
      destruct (fund_frame s1) as (_ & -> & _). lia.
  Qed.

Section Invariant.
Context (P0 P : t → Prop).
Hypothesis P0_fee : ∀ s x, P0 s → P0 (set_fee s x).
Hypothesis P0_fund : ∀ s, P0 s → P (fund s).
Hypothesis P_fee : ∀ s x, P s → P (set_fee s x).
Hypothesis P_fund : ∀ s, P s → P (fund s).
Hypothesis P_outputs : ∀ s outs, P s → P (set_tx s (MTX.set_outputs (tx s) outs)).
Hypothesis P_change : ∀ s x, P s → P (set_change s x).

Lemma estimateLoop_inv fuel s s' :
      estimateLoop fuel s = Ok s' → P s → P s'.
    Proof.
      revert s. induction fuel as [|fuel IH]; intros s; cbn [estimateLoop].
      - by intros [= <-].
      - set (s1 := set_fee s _). case_decide; [done|].
        intros Hloop HP. assert (HP1 : P s1) by by apply P_fee.
        destruct (negb (isFull s1)).
        + destruct (negb (isFull (fund s1)) && _).
          * apply IH in Hloop; auto.
          * injection Hloop as <-. auto.
        + destruct (negb (isFull s1) && _).
          * apply IH in Hloop; auto.
          * by injection Hloop as <-.
    Qed.

Lemma selectHard_inv s x : P0 s → P (selectHard s x).
    Proof.
      intros HP. unfold selectHard. apply P0_fund.
      case_decide; auto.
    Qed.

Lemma selectEstimate_inv s x s' :
      selectEstimate s x = Ok s' → P0 s → P s'.
    Proof.
      unfold selectEstimate, MTX.addOutput.
      cbn [assert bool_decide decide_rel mbind result_bind].
      rewrite bool_decide_eq_true_2 by done. cbn [mbind result_bind].
      intros Hloop HP. apply estimateLoop_inv in Hloop; [done|].
      apply P_outputs. auto.
    Qed.

Lemma select_inv s coins0 rng s' :
      select s coins0 rng = Ok s' →
      (∀ s1, init s coins0 rng = Ok s1 → P0 s1) →
      P s'.
    Proof.
      unfold select. destruct (init s coins0 rng) as [s1|] eqn:Hinit; [|done].
      cbn [mbind result_bind]. intros Hsel HP0. specialize (HP0 s1 eq_refl).
      case_decide.
      - cbn [mbind result_bind] in Hsel.
        destruct (negb (isFull _)); [done|]. injection Hsel as <-.
        apply P_change. by apply selectHard_inv.
      - destruct (selectEstimate s1 MIN_FEE) as [s2|] eqn:Hest; [|done].
        cbn [mbind result_bind] in Hsel.
        destruct (negb (isFull _)); [done|]. injection Hsel as <-.
        apply P_change. by eapply selectEstimate_inv.
    Qed.
End Invariant.

Lemma init_outcome s coins0 rng s1 :
    init s coins0 rng = Ok s1 →
    policy s1 = policy s
    ∧ coins s1 ≡ₚ coins0
    ∧ outputValue s1 = MTX.getOutputValue (tx s)
    ∧ index s1 = 0 ∧ chosen s1 = [] ∧ change s1 = 0 ∧ fee s1 = 0
    ∧ tx s1 = MTX.set_inputs (tx s) [].
  Proof.
    unfold init. cbn [selection update coins].
    repeat case_decide; intros [= <-]; cbn [policy coins update outputValue index
      chosen change fee tx selection shouldSubtract subtractFee height confirmations
      hardFee rate maxFee round changeAddress estimate];
      repeat split; try done; apply sort_Permutation.
  Qed.
End Selection.


(** *** The funding check *)
Section FundingCheck.
Context `{Env}.
Import CoinSelector.

Lemma select_accumulated s coins0 rng :
    select s coins0 rng =
      (s2 ← accumulated s coins0 rng;
       if negb (isFull s2) then
         Throw (FundingError "Not enough funds."
                  (Some (MTX.getInputValue (tx s2), total s2)))
       else Ok (set_change s2 (MTX.getInputValue (tx s2) - total s2))).
  Proof.
    unfold select, accumulated.
    destruct (init s coins0 rng) as [s1|]; [|done]. cbn [mbind result_bind].
    by case_decide.
  Qed.

Lemma accumulated_frame s coins0 rng s2 :
    accumulated s coins0 rng = Ok s2 →
    policy s2 = policy s ∧ outputValue s2 = MTX.getOutputValue (tx s).
  Proof.
    unfold accumulated.
    destruct (init s coins0 rng) as [s1|] eqn:Hinit; [|done]. cbn [mbind result_bind].
    apply init_outcome in Hinit as (Hpol & _ & Hout & _).
    set (P := λ x : t, policy x = policy s ∧ outputValue x = MTX.getOutputValue (tx s)).
    assert (HP1 : P s1) by done.
    assert (Hfee : ∀ x v, P x → P (set_fee x v)) by (by intros x v [? ?]).
    assert (Hfund : ∀ x, P x → P (fund x)).
    { intros x [? ?]. destruct (fund_frame x) as (Hp & _ & Ho & _). split; congruence. }
    case_decide.
    - intros [= <-]. by apply (selectHard_inv P P).
    - intros Hest. apply (selectEstimate_inv P P) in Hest; auto.
  Qed.

End FundingCheck.


(** *** What selection keeps *)
Section SelectionProperties.
Context `{Env}.
Import CoinSelector.

Section AccumulatedInvariant.
Context (P0 P : t → Prop).
Hypothesis P0_fee : ∀ s x, P0 s → P0 (set_fee s x).
Hypothesis P0_fund : ∀ s, P0 s → P (fund s).
Hypothesis P_fee : ∀ s x, P s → P (set_fee s x).
Hypothesis P_fund : ∀ s, P s → P (fund s).
Hypothesis P_outputs : ∀ s outs, P s → P (set_tx s (MTX.set_outputs (tx s) outs)).

Lemma accumulated_inv s coins0 rng s2 :
      accumulated s coins0 rng = Ok s2 →
      (∀ s1, init s coins0 rng = Ok s1 → P0 s1) →
      P s2.
    Proof.
      unfold accumulated. destruct (init s coins0 rng) as [s1|] eqn:Hinit; [|done].
      cbn [mbind result_bind]. intros Hacc HP0. specialize (HP0 s1 eq_refl).
      case_decide.
      - injection Hacc as <-. by apply (selectHard_inv P0 P).
      - by eapply (selectEstimate_inv P0 P).
    Qed.
End AccumulatedInvariant.

Lemma select_Ok_accumulated s coins0 rng s' :
    select s coins0 rng = Ok s' →
    ∃ s2, accumulated s coins0 rng = Ok s2
          ∧ isFull s2 = true
          ∧ s' = set_change s2 (MTX.getInputValue (tx s2) - total s2).
  Proof.
    rewrite select_accumulated.
    destruct (accumulated s coins0 rng) as [s2|]; [|done]. cbn [mbind result_bind].
    destruct (isFull s2) eqn:Hfull; [|done]. cbn [negb]. intros [= <-]. eauto.
  Qed.

Lemma isSpendable_coinbase s coin :
    isSpendable s coin = true → height s ≠ -1 → Coin.coinbase coin = true →
    Coin.height coin ≠ -1 ∧ Coin.height coin + COINBASE_MATURITY ≤ height s + 1.
  Proof.
    unfold isSpendable. intros Hsp Hh Hcb. rewrite Hcb in Hsp.
    rewrite decide_False in Hsp by done. cbn [andb] in Hsp.
    destruct (bool_decide (Coin.height coin = -1)) eqn:H1; [done|].
    destruct (bool_decide (height s + 1 < Coin.height coin + COINBASE_MATURITY)) eqn:H2;
      [done|].
    apply bool_decide_eq_false in H1, H2. lia.
  Qed.

  (** The coins chosen are candidates that passed the spendability test. *)
Lemma accumulated_chosen s coins0 rng s2 :
    accumulated s coins0 rng = Ok s2 →
    policy s2 = policy s ∧ coins s2 ≡ₚ coins0
    ∧ ∀ coin, coin ∈ chosen s2 → coin ∈ coins0 ∧ isSpendable s coin = true.
  Proof.
    intros Hacc.
    set (P := λ x : t, policy x = policy s ∧ coins x ≡ₚ coins0
                ∧ ∀ coin, coin ∈ chosen x → coin ∈ coins0 ∧ isSpendable s coin = true).
    assert (Hfund : ∀ x, P x → P (fund x)).
    { intros x (Hpol & Hperm & Hch).
      destruct (fund_frame x) as (Hp & Hc & _).
      destruct (fund_chosen x) as (added & Hadd & Hsub & Hfor).
      split; [congruence|]. split; [by rewrite Hc|].
      intros coin. rewrite Hadd. intros [Hin|Hin]%elem_of_app; [by apply Hch|].
      split.
      - rewrite <-Hperm. by apply Hsub.
      - rewrite Forall_forall in Hfor. rewrite <-(isSpendable_policy x s) by done.
        apply Hfor. by apply list_elem_of_In. }
    apply (accumulated_inv P P) in Hacc; try done.
    intros s1 (Hpol & Hperm & _ & _ & Hch & _)%init_outcome.
    split; [done|]. split; [done|]. rewrite Hch. intros coin Hin.
    by apply elem_of_nil in Hin.
  Qed.

  (** C9, as the code has it. When the selector knows the chain height
      (its [height] is not -1), no coinbase coin is chosen unless
      currentHeight + 1 >= coin.height + coinbaseMaturity, and no coinbase
      coin of unknown height is chosen; this holds of the coins gathered
      before the funding check as of those of a successful selection.
      Every chosen coin is one of the candidates. *)
Theorem select_coinbase_maturity (s : t) (coins0 : list Coin.t) (rng : Rng) :
    height s ≠ -1 →
    (∀ s2 coin, accumulated s coins0 rng = Ok s2 → coin ∈ chosen s2 →
       coin ∈ coins0
       ∧ (Coin.coinbase coin = true →
            Coin.height coin ≠ -1
            ∧ Coin.height coin + COINBASE_MATURITY ≤ height s + 1))
    ∧ (∀ s' coin, select s coins0 rng = Ok s' → coin ∈ chosen s' →
         coin ∈ coins0
         ∧ (Coin.coinbase coin = true →
              Coin.height coin ≠ -1
              ∧ Coin.height coin + COINBASE_MATURITY ≤ height s + 1)).
  Proof.
    intros Hh.
    assert (Hacc : ∀ s2 coin, accumulated s coins0 rng = Ok s2 → coin ∈ chosen s2 →
       coin ∈ coins0
       ∧ (Coin.coinbase coin = true →
            Coin.height coin ≠ -1
            ∧ Coin.height coin + COINBASE_MATURITY ≤ height s + 1)).
    { intros s2 coin (_ & _ & Hch)%accumulated_chosen Hin.
      destruct (Hch coin Hin) as [Hc Hsp]. split; [done|].
      intros Hcb. by apply isSpendable_coinbase. }
    split; [exact Hacc|].
    intros s' coin (s2 & Hs2 & _ & ->)%select_Ok_accumulated Hin.
    by apply (Hacc s2).
  Qed.

  (** Strategy [all]: what [init] and the first [fund] establish. *)
Lemma accumulated_all s coins0 rng s2 :
    selection s = "all" →
    accumulated s coins0 rng = Ok s2 →
    coins s2 = fst (sort sortRandom coins0 rng)
    ∧ chosen s2 = filter (λ coin, isSpendable s coin = true) (coins s2)
    ∧ index s2 = Z.of_nat (length (coins s2)).
  Proof.
    intros Hall Hacc.
    set (sorted := fst (sort sortRandom coins0 rng)).
    set (P0 := λ x : t, policy x = policy s ∧ coins x = sorted
                 ∧ chosen x = [] ∧ index x = 0).
    set (P := λ x : t, policy x = policy s ∧ coins x = sorted
                ∧ chosen x = filter (λ coin, isSpendable s coin = true) sorted
                ∧ index x = Z.of_nat (length sorted)).
    assert (Hsel : ∀ x, policy x = policy s → selection x = "all").
    { intros x Hp. unfold policy in Hp. injection Hp as -> _. done. }
    assert (Hfilter : ∀ x (l : list Coin.t), policy x = policy s →
              filter (λ coin, isSpendable x coin = true) l
              = filter (λ coin, isSpendable s coin = true) l).
    { intros x l Hp. apply list_filter_iff. intros c.
      by rewrite (isSpendable_policy x s). }
    assert (H0 : ∀ x, P0 x → P (fund x)).
    { intros x (Hpol & Hc & Hch & Hi).
      destruct (fund_frame x) as (Hp & Hcf & _).
      unfold fund in *. rewrite Hi in *.
      change (drop (Z.to_nat 0) (coins x)) with (coins x) in *.
      destruct (fundFrom_all (coins x) x) as [Hch' Hi']; [by apply Hsel|].
      split; [congruence|]. split; [congruence|].
      rewrite Hch', Hi', Hch, Hi, Hc, Hfilter by done. split; [done|lia]. }
    assert (H1 : ∀ x, P x → P (fund x)).
    { intros x (Hpol & Hc & Hch & Hi).
      destruct (fund_frame x) as (Hp & Hcf & _).
      unfold fund in *. rewrite Hi, Hc in *. rewrite Nat2Z.id, drop_all in *.
      cbn [fundFrom] in *. done. }
    apply (accumulated_inv P0 P) in Hacc; try done.
    - destruct Hacc as (_ & Hc & Hch & Hi). by rewrite Hc.
    - intros s1 Hinit. pose proof Hinit as (Hpol & _ & _ & Hi & Hch & _)%init_outcome.
      split; [done|]. split; [|done].
      unfold init in Hinit. cbn [selection update] in Hinit.
      rewrite decide_True in Hinit by (by left). by injection Hinit as <-.
  Qed.

  (** C8, as the code has it. Strategy [all] orders the candidates the
      way strategy [random] does, with the same draws: [init] returns the
      selector that it returns under [random], and the list it leaves to
      be walked is a permutation of the candidates, in the order in which
      the random comparison has put them, not always the order given.
      Every spendable candidate of that list is then consumed as an input,
      in that order, whether or not the target is covered, and a
      selection that returns has gathered at least the target. *)
Theorem select_all_consumes_everything (s : t) (coins0 : list Coin.t) (rng : Rng) :
    selection s = "all" →
    ∃ s1,
      init s coins0 rng = Ok s1
      ∧ init (withSelection s "random") coins0 rng = Ok (withSelection s1 "random")
      ∧ coins s1 ≡ₚ coins0
      ∧ (∀ s2, accumulated s coins0 rng = Ok s2 →
           coins s2 = coins s1
           ∧ chosen s2 = filter (λ coin, isSpendable s coin = true) (coins s2)
           ∧ chosen s2 ≡ₚ filter (λ coin, isSpendable s coin = true) coins0)
      ∧ (∀ s', select s coins0 rng = Ok s' →
           coins s' = coins s1
           ∧ chosen s' = filter (λ coin, isSpendable s coin = true) (coins s')
           ∧ chosen s' ≡ₚ filter (λ coin, isSpendable s coin = true) coins0
           ∧ total s' ≤ MTX.getInputValue (tx s')).
  Proof.
    intros Hall.
    assert (Hinit : ∃ s1, init s coins0 rng = Ok s1
              ∧ init (withSelection s "random") coins0 rng = Ok (withSelection s1 "random")
              ∧ coins s1 = fst (sort sortRandom coins0 rng)).
    { unfold init. cbn [selection update withSelection coins tx].
      rewrite !decide_True by (by (left + right)). eexists. split; [done|].
      split; [|done]. f_equal. }
    destruct Hinit as (s1 & Hinit & Hrandom & Hsorted). exists s1.
    split; [done|]. split; [done|].
    split; [rewrite Hsorted; apply sort_Permutation|].
    assert (Hacc : ∀ s2, accumulated s coins0 rng = Ok s2 →
         coins s2 = coins s1
         ∧ chosen s2 = filter (λ coin, isSpendable s coin = true) (coins s2)
         ∧ chosen s2 ≡ₚ filter (λ coin, isSpendable s coin = true) coins0).
    { intros s2 (Hc & Hch & _)%accumulated_all; [|done].
      split; [congruence|]. split; [done|].
      rewrite Hch, Hc. by rewrite sort_Permutation. }
    split; [exact Hacc|].
    intros s' (s2 & Hs2 & Hfull & ->)%select_Ok_accumulated.
    destruct (Hacc s2 Hs2) as (Hc & Hch & Hperm).
    cbn [coins chosen set_change update tx]. split; [done|]. split; [done|].
    split; [done|]. by apply bool_decide_eq_true in Hfull.
  Qed.

  (** C7, as the code has it. In hard-fee mode the configured maximum fee
      is not consulted: the fee is the requested fee capped at the
      protocol maximum, selection never fails with the fee-too-high error,
      and it fails only for want of funds or for an unknown strategy. *)
Theorem select_hard_fee (s : t) (coins0 : list Coin.t) (rng : Rng) :
    hardFee s ≠ -1 →
    match select s coins0 rng with
    | Ok s' =>
        fee s' = Z.min (hardFee s) MAX_FEE
        ∧ total s' ≤ MTX.getInputValue (tx s')
    | Throw e =>
        (∃ gathered required,
           e = FundingError "Not enough funds." (Some (gathered, required))
           ∧ gathered < required)
        ∨ e = FundingError ("Bad selection type: " +:+ selection s) None
    end.
  Proof.
    intros Hhard. unfold select.
    destruct (init s coins0 rng) as [s1|] eqn:Hinit; cbn [mbind result_bind].
    - pose proof Hinit as (Hpol & _)%init_outcome.
      assert (Hh : hardFee s1 = hardFee s).
      { unfold policy in Hpol. by injection Hpol. }
      rewrite decide_True by congruence. cbn [mbind result_bind].
      set (s2 := selectHard s1 (hardFee s1)).
      assert (Hfee : fee s2 = Z.min (hardFee s) MAX_FEE).
      { subst s2. unfold selectHard.
        match goal with |- fee (fund ?x) = _ =>
          destruct (fund_frame x) as (_ & _ & _ & -> & _) end.
        cbn [fee set_fee update]. case_decide; cbn [fee set_fee update]; lia. }
      destruct (isFull s2) eqn:Hfull; cbn [negb].
      + split; [done|]. by apply bool_decide_eq_true in Hfull.
      + left. eexists _, _. split; [done|]. apply bool_decide_eq_false in Hfull. lia.
    - right. unfold init in Hinit. cbn [selection update] in Hinit.
      repeat case_decide; try done. by injection Hinit as <-.
  Qed.
End SelectionProperties.


(** *** Fee subtraction *)
Section SubtractFee.
Context `{Env}.

Lemma indexOf_buffers (l : list Buffer) h :
    indexOf ((λ a, Some (Buf a)) <$> l) h = -1 ↔ h ∉ l.
  Proof.
    unfold indexOf. rewrite <-(app_nil_r (_ <$> l)). split.
    - intros Hidx Hin.
      destruct (indexOf_from_present l [] h 0 Hin) as (j & _ & _ & Hj).
      rewrite Hj in Hidx. lia.
    - intros Hnot. by rewrite indexOf_from_absent.
  Qed.

Lemma subtractFirst_Some addrs fee outs outs' :
    MTX.subtractFirst addrs fee outs = Some outs' →
    ∃ (i : nat) o,
      outs !! i = Some o
      ∧ outs' = <[i := reduced fee o]> outs
      ∧ matches addrs o ∧ absorbs fee o
      ∧ ∀ (j : nat) o', (j < i)%nat → outs !! j = Some o' →
          ¬ (matches addrs o' ∧ absorbs fee o').
  Proof.
    revert outs'. induction outs as [|o outs IH]; intros outs'; cbn [MTX.subtractFirst];
      [done|].
    set (skip := match addrs with Some _ => _ | None => false end).
    assert (Hskip : skip = false ↔ matches addrs o).
    { subst skip. unfold matches. destruct addrs as [l|]; [|done].
      destruct (scriptHash (Output.script o)) as [h|].
      - rewrite bool_decide_eq_false, indexOf_buffers. split.
        + intros Hin. exists h. split; [done|]. by destruct (decide (h ∈ l)).
        + intros (h' & [= <-] & Hin) Hnot. done.
      - split; [done|]. by intros (h' & ? & _). }
    assert (Hrest : ∀ outs'',
              ¬ (matches addrs o ∧ absorbs fee o) →
              (o ::.) <$> MTX.subtractFirst addrs fee outs = Some outs'' →
              ∃ (i : nat) o0,
                (o :: outs) !! i = Some o0
                ∧ outs'' = <[i := reduced fee o0]> (o :: outs)
                ∧ matches addrs o0 ∧ absorbs fee o0
                ∧ ∀ (j : nat) o', (j < i)%nat → (o :: outs) !! j = Some o' →
                    ¬ (matches addrs o' ∧ absorbs fee o')).
    { intros outs'' Hno Hsome.
      destruct (MTX.subtractFirst addrs fee outs) as [r|] eqn:Hr; [|done].
      injection Hsome as <-.
      destruct (IH r eq_refl) as (i & o0 & Hi & -> & Hm & Ha & Hfirst).
      exists (S i), o0. split; [done|]. split; [done|]. split; [done|]. split; [done|].
      intros [|j] o' Hj Ho'; [by injection Ho' as <-|].
      apply (Hfirst j); [lia|done]. }
    destruct skip eqn:Hsk.
    - apply Hrest. intros [Hm _]. apply Hskip in Hm. congruence.
    - destruct (bool_decide _) eqn:Hb.
      + intros [= <-]. apply bool_decide_eq_true in Hb.
        exists 0%nat, o. split; [done|]. split; [done|].
        split; [by apply Hskip|]. split; [done|]. intros j o' Hj. lia.
      + apply Hrest. intros [_ Ha]. apply bool_decide_eq_false in Hb. done.
  Qed.

Lemma subtractFirst_None addrs fee outs :
    MTX.subtractFirst addrs fee outs = None →
    ∀ o, o ∈ outs → ¬ (matches addrs o ∧ absorbs fee o).
  Proof.
    induction outs as [|o outs IH]; cbn [MTX.subtractFirst].
    { intros _ o Ho. by apply elem_of_nil in Ho. }
    set (skip := match addrs with Some _ => _ | None => false end).
    assert (Hskip : skip = true → ¬ matches addrs o).
    { subst skip. unfold matches. destruct addrs as [l|]; [|done].
      destruct (scriptHash (Output.script o)) as [h|].
      - rewrite bool_decide_eq_true, indexOf_buffers.
        intros Hnot (h' & [= <-] & Hin). done.
      - by intros _ (h' & ? & _). }
    assert (Hrest : (o ::.) <$> MTX.subtractFirst addrs fee outs = None →
              ¬ (matches addrs o ∧ absorbs fee o) →
              ∀ o', o' ∈ o :: outs → ¬ (matches addrs o' ∧ absorbs fee o')).
    { intros Hnone Hno o' [->|Hin]%elem_of_cons; [done|].
      apply IH; [|done]. by destruct (MTX.subtractFirst addrs fee outs). }
    destruct skip eqn:Hsk.
    - intros Hnone. apply Hrest; [done|]. intros [Hm _]. by apply Hskip.
    - destruct (bool_decide _) eqn:Hb; [done|].
      intros Hnone. apply Hrest; [done|]. intros [_ Ha].
      apply bool_decide_eq_false in Hb. done.
  Qed.

  (** C10, as the code has it. [subtractFee] reduces exactly one output,
      the one at the index given or else the first output that matches the
      addresses given and whose value less the fee clears its dust
      threshold; the other outputs stay as they were and the reduced output
      is at or above its dust threshold. When no output can absorb the fee,
      when the indexed output cannot, or when the index names no output, it
      throws a plain [Error], not the funding error, and nothing is
      changed. *)
Theorem subtractFee_outcome (m : MTX.t) (fee : Z) (index : option SubtractFee) :
    match MTX.subtractFee m fee index with
    | Ok m' =>
        ∃ (i : nat) (o : Output.t),
          MTX.outputs m !! i = Some o
          ∧ m' = MTX.set_outputs m (<[i := reduced fee o]> (MTX.outputs m))
          ∧ getDustThreshold (reduced fee o) None ≤ Output.value (reduced fee o)
          ∧ match index with
            | Some (SFNumber k) => k = Z.of_nat i
            | _ =>
                matches (addressesOf index) o
                ∧ ∀ (j : nat) o', (j < i)%nat → MTX.outputs m !! j = Some o' →
                    ¬ (matches (addressesOf index) o' ∧ absorbs fee o')
            end
    | Throw e =>
        match index with
        | Some (SFNumber k) =>
            match MTX.nth (MTX.outputs m) k with
            | Some o => e = Error "Could not subtract fee." ∧ ¬ absorbs fee o
            | None => e = Error "Subtraction index does not exist."
            end
        | _ =>
            e = Error "Could not subtract fee."
            ∧ ∀ o, o ∈ MTX.outputs m →
                ¬ (matches (addressesOf index) o ∧ absorbs fee o)
        end
    end.
  Proof.
    assert (Hloop : ∀ addrs,
      match (match MTX.subtractFirst addrs fee (MTX.outputs m) with
             | None => Throw (Error "Could not subtract fee.")
             | Some outs => Ok (MTX.set_outputs m outs)
             end) with
      | Ok m' =>
          ∃ (i : nat) (o : Output.t),
            MTX.outputs m !! i = Some o
            ∧ m' = MTX.set_outputs m (<[i := reduced fee o]> (MTX.outputs m))
            ∧ getDustThreshold (reduced fee o) None ≤ Output.value (reduced fee o)
            ∧ matches addrs o
            ∧ ∀ (j : nat) o', (j < i)%nat → MTX.outputs m !! j = Some o' →
                ¬ (matches addrs o' ∧ absorbs fee o')
      | Throw e =>
          e = Error "Could not subtract fee."
          ∧ ∀ o, o ∈ MTX.outputs m → ¬ (matches addrs o ∧ absorbs fee o)
      end).
    { intros addrs.
      destruct (MTX.subtractFirst addrs fee (MTX.outputs m)) as [outs|] eqn:Hs.
      - destruct (subtractFirst_Some _ _ _ _ Hs) as (i & o & Hi & -> & Hm & Ha & Hfirst).
        exists i, o. split; [done|]. split; [done|]. split; [|done].
        unfold absorbs, getDustThreshold, reduced in *. cbn [Output.value Output.script]. lia.
      - split; [done|]. by apply subtractFirst_None. }
    unfold MTX.subtractFee.
    destruct index as [[b|k|a|l]|]; cbn [addressesOf]; try apply Hloop.
    unfold MTX.nth. case_decide as Hk; [|done].
    destruct (MTX.outputs m !! Z.to_nat k) as [o|] eqn:Ho; [|done].
    case_decide as Hv.
    - split; [done|]. unfold absorbs. lia.
    - exists (Z.to_nat k), o. split; [done|]. split; [done|].
      split; [|lia]. unfold getDustThreshold, reduced in *.
      cbn [Output.value Output.script]. lia.
  Qed.
End SubtractFee.

(** *** The value committed to by a signature *)

(** C6, what the code does. [signInput] sets the value it passes to the
    signature digest to zero and never reads the value of the coin: two
    coins that differ in their value only give the same signatures and
    the same outcome, under the segregated-witness digest as under the
    legacy one. *)
Theorem signInput_ignores_coin_value `{Env} (m : MTX.t) (index : Z)
    (coin : Coin.t) (ring : KeyRing) (type : option SighashType) (v : Z) :
  MTX.signInput m index (Some (withValue coin v)) ring type
  = MTX.signInput m index (Some coin) ring type.
Proof. reflexivity. Qed.


(** *** The change output of a funded transaction *)
Section FundChange.
Context `{Env}.

Lemma addOutput_Ok m dest value m' :
    MTX.addOutput m dest value = Ok m' →
    0 ≤ value
    ∧ m' = MTX.set_outputs m
             (MTX.outputs m ++
                [{| Output.value := value;
                    Output.script := match dest with
                                     | MTX.ToAddress a => fromAddress a
                                     | MTX.ToScript s => s
                                     end |}]).
  Proof.
    unfold MTX.addOutput, assert. case_bool_decide; [|done].
    cbn [mbind result_bind]. by intros [= <-].
  Qed.

Lemma nth_last {A} (l : list A) x :
    MTX.nth (l ++ [x]) (Z.of_nat (length (l ++ [x])) - 1) = Some x.
  Proof.
    unfold MTX.nth. rewrite length_app. cbn [length]. case_decide; [|lia].
    replace (Z.to_nat (Z.of_nat (length l + 1) - 1)) with (length l + 0)%nat by lia.
    by rewrite lookup_app_r, Nat.add_0_r, Nat.sub_diag by lia.
  Qed.

Lemma bind_Ok {A B} (m : result A) (k : A → result B) r :
    (x ← m; k x) = Ok r → ∃ a, m = Ok a ∧ k a = Ok r.
  Proof. destruct m as [a|e]; cbn [mbind result_bind]; [|done]. by exists a. Qed.

  (** A selector made from options that name a change address has a
      change address, and selection keeps it. *)
Lemma selectCoins_changeAddress m coins0 options rng select :
    match CoinSelector.opt_changeAddress options with
    | Some (inl str) => negb (bool_decide (str = ""))
    | Some (inr _) => true
    | None => false
    end = true →
    selectCoins m coins0 (Some options) rng = Ok select →
    ∃ address, CoinSelector.changeAddress select = Some address.
  Proof.
    intros Hca. unfold selectCoins. intros (s0 & Hnew & Hsel)%bind_Ok.
    assert (Hs0 : ∃ address, CoinSelector.changeAddress s0 = Some address).
    { unfold CoinSelector.new in Hnew. apply bind_Ok in Hnew as (tx0 & _ & Hfrom).
      unfold CoinSelector.fromOptions in Hfrom.
      destruct (match CoinSelector.opt_subtractFee options with
                | Some sf => _ | None => _ end) as [sf should].
      do 5 (apply bind_Ok in Hfrom as (? & _ & Hfrom)).
      apply bind_Ok in Hfrom as (ca & Hcaeq & Hfrom).
      injection Hfrom as <-. cbn [CoinSelector.changeAddress].
      destruct (CoinSelector.opt_changeAddress options) as [[str|a]|]; [| |done].
      - apply negb_true_iff, bool_decide_eq_false in Hca.
        rewrite decide_False in Hcaeq by done.
        apply bind_Ok in Hcaeq as (a & _ & [= <-]). by exists a.
      - injection Hcaeq as <-. by exists a. }
    destruct Hs0 as [address Hs0]. exists address.
    apply select_Ok_accumulated in Hsel as (s2 & Hacc & _ & ->).
    apply accumulated_frame in Hacc as [Hpol _].
    cbn [CoinSelector.changeAddress CoinSelector.set_change CoinSelector.update].
    unfold policy in Hpol. injection Hpol as _ _ _ _ _ _ _ _ _ Hc _. congruence.
  Qed.

  (** C3. A call of [fund] that returns has appended a change output,
      worth the change of the selection and paying to the change address
      of the selector, to the transaction, once the chosen coins were
      added as inputs and the fee, if asked, was subtracted from an
      output. If that output is dust it is removed again, the change
      index is -1 and the fee of the transaction is the fee of the
      selector plus the change dropped; otherwise the output is kept, the
      change index is its position, the last one, and the fee of the
      transaction is the fee of the selector. *)
Theorem fund_change_accounting (m : MTX.t) (coins0 : list Coin.t)
      (options : option CoinSelector.Options) (rng : Rng)
      (m' : MTX.t) (select : CoinSelector.t) :
    fund m coins0 options rng = Ok (m', select) →
    ∃ (funded : MTX.t) (address : Address),
      selectCoins m coins0 options rng = Ok select
      ∧ CoinSelector.changeAddress select = Some address
      ∧ (let filled := foldl (λ m coin, MTX.addInput m (MTX.OfCoin coin))
                             m (CoinSelector.chosen select) in
         if CoinSelector.shouldSubtract select
         then MTX.subtractFee filled (CoinSelector.fee select)
                (CoinSelector.subtractFee select) = Ok funded
         else funded = filled)
      ∧ MTX.inputs m' = MTX.inputs funded
      ∧ let change := {| Output.value := CoinSelector.change select;
                         Output.script := fromAddress address |} in
        if isDust change (Some MIN_RELAY)
        then MTX.outputs m' = MTX.outputs funded
             ∧ MTX.changeIndex m' = -1
             ∧ MTX.getFee m' = CoinSelector.fee select + CoinSelector.change select
        else MTX.outputs m' = MTX.outputs funded ++ [change]
             ∧ MTX.changeIndex m' = Z.of_nat (length (MTX.outputs funded))
             ∧ MTX.nth (MTX.outputs m') (MTX.changeIndex m') = Some change
             ∧ MTX.getFee m' = CoinSelector.fee select.
  Proof.
    unfold fund. destruct options as [options|]; [|done].
    destruct (match CoinSelector.opt_changeAddress options with
              | Some (inl str) => negb (bool_decide (str = ""))
              | Some (inr _) => true
              | None => false
              end) eqn:Hca; [|done].
    cbn [assert mbind result_bind].
    destruct (assert _ "TX is already filled.") as [[]|]; [|done].
    cbn [mbind result_bind].
    destruct (selectCoins m coins0 (Some options) rng) as [sel|] eqn:Hsel; [|done].
    cbn [mbind result_bind].
    destruct (selectCoins_changeAddress _ _ _ _ _ Hca Hsel) as [address Haddress].
    rewrite Haddress.
    set (filled := foldl _ m (CoinSelector.chosen sel)).
    destruct (if CoinSelector.shouldSubtract sel then _ else Ok filled)
      as [funded|] eqn:Hsub; [|done].
    cbn [mbind result_bind].
    destruct (MTX.addOutput funded _ (CoinSelector.change sel)) as [m2|] eqn:Hadd; [|done].
    cbn [mbind result_bind].
    apply addOutput_Ok in Hadd as [Hpos ->]. cbn [MTX.outputs MTX.set_outputs].
    rewrite nth_last.
    set (change := {| Output.value := CoinSelector.change sel;
                      Output.script := fromAddress address |}).
    destruct (isDust change (Some MIN_RELAY)) eqn:Hdust.
    - unfold assert_equal. case_decide as Hfee; [|done]. cbn [mbind result_bind].
      intros [= <- <-]. exists funded, address.
      split; [done|]. split; [done|]. split.
      { cbn zeta. fold filled. destruct (CoinSelector.shouldSubtract sel); [done|].
        by injection Hsub. }
      split; [done|]. cbn zeta. fold change. rewrite Hdust.
      split; [|split; [done|exact Hfee]].
      cbn [MTX.outputs MTX.set_outputs MTX.set_changeIndex].
      by rewrite removelast_last.
    - unfold assert_equal. case_decide as Hfee; [|done]. cbn [mbind result_bind].
      intros [= <- <-]. exists funded, address.
      split; [done|]. split; [done|]. split.
      { cbn zeta. fold filled. destruct (CoinSelector.shouldSubtract sel); [done|].
        by injection Hsub. }
      split; [done|]. cbn zeta. fold change. rewrite Hdust.
      cbn [MTX.outputs MTX.set_outputs MTX.set_changeIndex MTX.changeIndex].
      split; [done|]. split; [rewrite length_app; cbn [length]; lia|].
      split; [apply nth_last|exact Hfee].
  Qed.
End FundChange.


(** *** Vectors of opcodes *)
Section ScriptVectors.
  Implicit Types (ops body pre suffix : list Script.Opcode) (raw : Buffer).


Lemma vectorOf_length ops raw : Script.length (vectorOf ops raw) = Z.of_nat (length ops).
  Proof. unfold Script.length, arr_length, vectorOf. cbn. by rewrite length_fmap. Qed.

Lemma vectorOf_get ops raw (i : nat) :
    Script.get (vectorOf ops raw) (Z.of_nat i) = Script.toValue <$> ops !! i.
  Proof.
    unfold Script.get. rewrite Script_index_nonneg by lia.
    rewrite arr_get_nat. cbn [vectorOf Script.code].
    rewrite list_lookup_fmap. by destruct (ops !! i).
  Qed.

Lemma vectorOf_getSmall ops raw (i : nat) :
    Script.getSmall (vectorOf ops raw) (Z.of_nat i)
    = Script.small (Script.toValue <$> ops !! i).
  Proof. unfold Script.getSmall. by rewrite vectorOf_get. Qed.

Lemma encode_Some ops : Script.encode (Some <$> ops) = Ok (mjoin (Script.encodeOp <$> ops)).
  Proof. induction ops as [|op ops IH]; [done|]. csimpl. by rewrite IH. Qed.

Lemma vectorOf_compile ops raw :
    Script.compile (vectorOf ops raw) = Ok (Script.fromCode ops).
  Proof. unfold Script.compile. cbn [vectorOf Script.code]. by rewrite encode_Some. Qed.

Lemma vectorOf_set ops raw (i : nat) x :
    (i < length ops)%nat →
    Script.set (vectorOf ops raw) (Z.of_nat i) x
    = vectorOf (<[i := Script.from x]> ops) raw.
  Proof.
    intros Hi. unfold Script.set. rewrite Script_index_nonneg by lia.
    cbn [vectorOf Script.code Script.raw]. unfold vectorOf. f_equal.
    rewrite arr_set_lt by (unfold arr_length; rewrite length_fmap; lia).
    by rewrite Nat2Z.id, list_fmap_insert.
  Qed.

Lemma vectorOf_remove pre op suffix raw :
    Script.remove (vectorOf (pre ++ op :: suffix) raw) (Z.of_nat (length pre))
    = vectorOf (pre ++ suffix) raw.
  Proof.
    unfold Script.remove. rewrite Script_index_nonneg by lia. cbn zeta.
    rewrite vectorOf_length, length_app. cbn [length].
    rewrite decide_False by lia. unfold vectorOf. cbn [Script.code Script.raw]. f_equal.
    unfold arr_splice1, arr_length. rewrite decide_False by lia.
    rewrite length_fmap, length_app. cbn [length].
    replace (Z.to_nat (Z.of_nat (length pre) `min` Z.of_nat (length pre + S (length suffix))))
      with (length (Some <$> pre)) by (rewrite length_fmap; lia).
    rewrite !fmap_app, fmap_cons. apply delete_middle.
  Qed.

  (** The count of the signatures of a vector is the number of its
      opcodes, the first apart, that are signatures. *)
Lemma count_from pre body raw acc :
    foldl (λ total i, if Script.isSignature (Script.get (vectorOf (pre ++ body) raw) i)
                      then total + 1 else total)
          acc (seqZ (Z.of_nat (length pre)) (Z.of_nat (length body)))
    = acc + Z.of_nat (length (filter (λ op, isSignatureOp op = true) body)).
  Proof.
    revert pre acc. induction body as [|op body IH]; intros pre acc.
    { rewrite seqZ_nil by (cbn [length]; lia). rewrite filter_nil. cbn [foldl length]. lia. }
    rewrite seqZ_cons by (cbn [length]; lia). cbn [foldl].
    rewrite vectorOf_get, lookup_app_r, Nat.sub_diag by lia. cbn [lookup list_lookup fmap option_fmap option_map].
    replace (Z.succ (Z.of_nat (length pre))) with (Z.of_nat (length (pre ++ [op])))
      by (rewrite length_app; cbn [length]; lia).
    replace (Z.pred (Z.of_nat (length (op :: body)))) with (Z.of_nat (length body))
      by (cbn [length]; lia).
    replace (pre ++ op :: body) with ((pre ++ [op]) ++ body) by (by rewrite <-app_assoc).
    rewrite IH, filter_cons.
    change (Script.isSignature (Some (Script.toValue op))) with (isSignatureOp op).
    destruct (isSignatureOp op) eqn:Hsig.
    - rewrite decide_True by done. cbn [length]. lia.
    - rewrite decide_False by done. lia.
  Qed.

Lemma countSignatures_vectorOf op body raw :
    MTX.countSignatures (vectorOf (op :: body) raw)
    = Z.of_nat (length (filter (λ op, isSignatureOp op = true) body)).
  Proof.
    unfold MTX.countSignatures. cbn [vec_length vec_get Script_Vector].
    rewrite vectorOf_length. cbn [length].
    replace (Z.of_nat (S (length body)) - 1) with (Z.of_nat (length body)) by lia.
    apply (count_from [op] body raw 0).
  Qed.

  (** Removing the empty slots keeps the opcodes that are not empty
      placeholders, in their order. *)

Lemma removeEmpty_from pre body suffix raw :
    foldl (λ v i, if decide (Script.getSmall v i = 0) then Script.remove v i else v)
          (vectorOf (pre ++ body ++ suffix) raw)
          (reverse (seqZ (Z.of_nat (length pre)) (Z.of_nat (length body))))
    = vectorOf (pre ++ filter (λ op, isEmptyOp op = false) body ++ suffix) raw.
  Proof.
    revert suffix. induction body as [|op body IH] using rev_ind; intros suffix.
    { rewrite seqZ_nil by (cbn [length]; lia). by rewrite filter_nil. }
    rewrite length_app. cbn [length].
    replace (Z.of_nat (length body + 1)) with (Z.of_nat (S (length body))) by lia.
    rewrite seqZ_S, reverse_snoc. cbn [foldl].
    replace (Z.of_nat (length pre) + Z.of_nat (length body))
      with (Z.of_nat (length (pre ++ body))) by (rewrite length_app; lia).
    rewrite vectorOf_getSmall.
    replace (pre ++ (body ++ [op]) ++ suffix) with ((pre ++ body) ++ op :: suffix)
      by (by rewrite <-!app_assoc).
    rewrite lookup_app_r, Nat.sub_diag by lia. cbn [lookup list_lookup fmap option_fmap option_map].
    rewrite list.filter_app, filter_cons, filter_nil.
    destruct (decide (Script.small (Some (Script.toValue op)) = 0)) as [Hz|Hz].
    - rewrite vectorOf_remove, <-app_assoc, IH.
      rewrite decide_False
        by (unfold isEmptyOp; by rewrite bool_decide_eq_true_2).
      by rewrite app_nil_r.
    - rewrite <-app_assoc. rewrite (IH (op :: suffix)).
      rewrite decide_True
        by (unfold isEmptyOp; by rewrite bool_decide_eq_false_2).
      by rewrite <-!app_assoc.
  Qed.

Lemma removeEmpty_vectorOf op body raw :
    MTX.removeEmpty (vectorOf (op :: body) raw)
    = vectorOf (op :: filter (λ op, isEmptyOp op = false) body) raw.
  Proof.
    unfold MTX.removeEmpty. cbn [vec_length vec_getSmall vec_remove Script_Vector].
    rewrite vectorOf_length. cbn [length].
    replace (Z.of_nat (S (length body)) - 1) with (Z.of_nat (length body)) by lia.
    pose proof (removeEmpty_from [op] body [] raw) as Hrem.
    rewrite !app_nil_r in Hrem. exact Hrem.
  Qed.
End ScriptVectors.


(** *** Signature slots *)
Section Slots.
  Implicit Types (slots : list (option Buffer)) (sig : Buffer).

Lemma from_signature sig : validSignature sig → Script.from (Buf sig) = Script.Push sig.
  Proof.
    unfold validSignature, blen. intros Hv. cbn [Script.from].
    destruct sig as [|b [|b' sig]]; cbn [length] in Hv; try lia. done.
  Qed.

Lemma isSignatureOp_slot slot :
    (∀ sig, slot = Some sig → validSignature sig) →
    isSignatureOp (slotOp slot) = bool_decide (is_Some slot).
  Proof.
    intros Hv. destruct slot as [sig|].
    - specialize (Hv sig eq_refl). unfold validSignature in Hv.
      unfold isSignatureOp. cbn [slotOp Script.toValue Script.isSignature].
      by rewrite !bool_decide_eq_true_2.
    - unfold isSignatureOp. cbn [slotOp Script.toValue Script.isSignature].
      symmetry. apply bool_decide_eq_false_2. by intros [? ?].
  Qed.

Lemma isEmptyOp_slot slot : isEmptyOp (slotOp slot) = bool_decide (slot = None).
  Proof. by destruct slot. Qed.

Lemma count_slots slots :
    validSlots slots →
    Z.of_nat (length (filter (λ op, isSignatureOp op = true) (slotOp <$> slots)))
    = filled slots.
  Proof.
    unfold filled. induction 1 as [|slot slots Hv _ IH]; [done|].
    rewrite fmap_cons, filter_cons, isSignatureOp_slot by done.
    destruct slot as [sig|]; cbn [omap list_omap id].
    - rewrite decide_True by (by apply bool_decide_eq_true_2). cbn [length]. lia.
    - rewrite decide_False; [done|].
      rewrite bool_decide_eq_false_2; [done|]. by intros [? ?].
  Qed.

Lemma nonempty_slots slots :
    filter (λ op, isEmptyOp op = false) (slotOp <$> slots)
    = Script.Push <$> omap id slots.
  Proof.
    induction slots as [|slot slots IH]; [done|].
    rewrite fmap_cons, filter_cons, isEmptyOp_slot.
    destruct slot as [sig|]; cbn [omap list_omap id].
    - rewrite decide_True by done. by rewrite IH.
    - rewrite decide_False by done. exact IH.
  Qed.

Lemma length_omap_le slots : (length (omap id slots) ≤ length slots)%nat.
  Proof. induction slots as [|[sig|] slots IH]; csimpl; lia. Qed.

Lemma length_omap_insert slots (p : nat) sig :
    slots !! p = Some None →
    length (omap id (<[p := Some sig]> slots)) = S (length (omap id slots)).
  Proof.
    revert p. induction slots as [|slot slots IH]; intros p; [done|].
    destruct p as [|p]; csimpl.
    - by intros [= ->].
    - intros Hp. destruct slot; csimpl; rewrite (IH p Hp); done.
  Qed.

Lemma filled_insert slots (p : nat) sig :
    slots !! p = Some None →
    filled (<[p := Some sig]> slots) = filled slots + 1.
  Proof. intros Hp. unfold filled. rewrite length_omap_insert by done. lia. Qed.

Lemma filled_le slots : 0 ≤ filled slots ≤ Z.of_nat (length slots).
  Proof.
    unfold filled. pose proof (length_omap_le slots) as Hle. lia.
  Qed.

Lemma validSlots_insert slots (p : nat) sig :
    validSlots slots → validSignature sig → validSlots (<[p := Some sig]> slots).
  Proof.
    unfold validSlots. intros Hv Hs. apply Forall_insert; [done|]. by intros ? [= <-].
  Qed.

Lemma validSlots_signatures slots :
    validSlots slots → Forall validSignature (omap id slots).
  Proof.
    induction 1 as [|slot slots Hv _ IH]; [constructor|].
    destruct slot as [sig|]; cbn [omap list_omap id]; [|done].
    constructor; [by apply Hv|done].
  Qed.

Lemma slotsOps_replicate (n : nat) raw :
    {| Script.code := replicate (S n) (Some (Script.Op Script.OP_0)); Script.raw := raw |}
    = vectorOf (slotsOps (replicate n None)) raw.
  Proof.
    unfold vectorOf, slotsOps. f_equal. cbn [replicate]. rewrite fmap_cons. f_equal.
    by rewrite !fmap_replicate.
  Qed.
End Slots.

(** *** The slot of a key *)
Lemma keySlot_spec ks key :
  key ∈ ks →
  ks !! keySlot ks key = Some key
  ∧ indexOf ((λ k, Some (Buf k)) <$> ks) key = Z.of_nat (keySlot ks key).
Proof.
  intros Hin. unfold keySlot, indexOf.
  destruct (indexOf_from_present ks [] key 0 Hin) as (j & Hj & _ & Hidx).
  rewrite app_nil_r in Hidx. rewrite Hidx.
  replace (Z.to_nat (0 + Z.of_nat j)) with j by lia. split; [done|lia].
Qed.

Lemma keySlot_inj ks key1 key2 :
  key1 ∈ ks → key2 ∈ ks → keySlot ks key1 = keySlot ks key2 → key1 = key2.
Proof.
  intros [H1 _]%keySlot_spec [H2 _]%keySlot_spec Heq. rewrite Heq in H1. congruence.
Qed.


(** *** One call of [signVector] on a multisig vector *)

Lemma vectorOf_getSmall_0 op body raw :
  Script.getSmall (vectorOf (op :: body) raw) 0
  = Script.small (Some (Script.toValue op)).
Proof. exact (vectorOf_getSmall (op :: body) raw 0). Qed.
Lemma slot_getSmall slots raw (p : nat) slot :
  slots !! p = Some slot →
  Script.getSmall (vectorOf (slotsOps slots) raw) (Z.of_nat (S p))
  = match slot with None => 0 | Some _ => -1 end.
Proof.
  intros Hslot. rewrite vectorOf_getSmall. unfold slotsOps.
  change ((Script.Op Script.OP_0 :: (slotOp <$> slots)) !! S p)
    with ((slotOp <$> slots) !! p).
  rewrite list_lookup_fmap, Hslot. by destruct slot.
Qed.

Lemma slotsOps_insert slots (p : nat) sig :
  <[S p := Script.Push sig]> (slotsOps slots) = slotsOps (<[p := Some sig]> slots).
Proof. unfold slotsOps. by rewrite list_fmap_insert. Qed.

Lemma slotsOps_length slots : length (slotsOps slots) = S (length slots).
Proof. unfold slotsOps. cbn [length]. by rewrite length_fmap. Qed.

Lemma removeEmpty_slots slots raw :
  MTX.removeEmpty (vectorOf (slotsOps slots) raw)
  = vectorOf (signedOps (omap id slots)) raw.
Proof.
  unfold slotsOps, signedOps. rewrite <-nonempty_slots. apply removeEmpty_vectorOf.
Qed.

Lemma signedOps_length sigs : length (signedOps sigs) = S (length sigs).
Proof. unfold signedOps. cbn [length]. by rewrite length_fmap. Qed.

Section SignMultisig.
Context (prev : Script.t) (m : Z) (ks : list Buffer).
Hypothesis Hms : Script.isMultisig prev = true.
Hypothesis Hcode : Script.code prev = multisigCode m ks.
Hypothesis Hm : 1 ≤ m ≤ Z.of_nat (length ks).
Hypothesis Hn : Z.of_nat (length ks) ≤ 16.

Lemma signVector_slots slots raw ring sig :
    length slots = length ks → validSlots slots → validSignature sig →
    publicKey ring ∈ ks → filled slots < m →
    MTX.signVector prev (vectorOf (slotsOps slots) raw) sig ring =
      let p := keySlot ks (publicKey ring) in
      let slots' := match slots !! p with
                    | Some None => <[p := Some sig]> slots
                    | _ => slots
                    end in
      if decide (filled slots' = m)
      then Ok (true, Script.fromCode (signedOps (omap id slots')))
      else Ok (false, Script.fromCode (slotsOps slots')).
  Proof.
    intros Hlen Hvalid Hsig Hkey Hfilled.
    destruct (keySlot_spec ks _ Hkey) as [Hp Hidx].
    set (p := keySlot ks (publicKey ring)) in *.
    assert (Hplt : (p < length ks)%nat) by (by eapply lookup_lt_Some).
    unfold MTX.signVector.
    rewrite (ms_not_pubkey prev m ks Hcode), (ms_not_pubkeyhash prev m ks Hcode Hm Hn), Hms.
    rewrite (ms_keys prev m ks Hcode), (ms_getSmall_0 prev m ks Hcode Hm Hn),
      (ms_getSmall_n prev m ks Hcode Hm Hn).
    cbn [vec_getSmall vec_length vec_set vec_compile Script_Vector].
    assert (Hmark : Script.getSmall (vectorOf (slotsOps slots) raw) 0 = 0)
      by apply vectorOf_getSmall_0.
    rewrite Hmark. rewrite bool_decide_eq_true_2 by done. cbn [negb].
    rewrite vectorOf_length, slotsOps_length, Hlen.
    rewrite decide_False by lia.
    assert (Hcount : MTX.countSignatures (vectorOf (slotsOps slots) raw) = filled slots).
    { unfold slotsOps. rewrite <-count_slots by done. apply countSignatures_vectorOf. }
    rewrite Hcount.
    rewrite decide_False by lia.
    replace (Z.to_nat (Z.of_nat (length ks) - (Z.of_nat (S (length ks)) - 1))) with 0%nat by lia.
    cbn [MTX.padSlots mbind result_bind].
    rewrite Hidx. rewrite decide_False by lia.
    rewrite vectorOf_length, slotsOps_length, Hlen.
    rewrite decide_True by lia.
    replace (Z.of_nat p + 1) with (Z.of_nat (S p)) by lia.
    destruct (slots !! p) as [slot|] eqn:Hslot;
      [|apply lookup_ge_None in Hslot; lia].
    rewrite (slot_getSmall slots raw p slot Hslot).
    destruct slot as [old|].
    - (* the slot holds a signature already *)
      rewrite decide_False by done.
      cbn [mbind result_bind]. rewrite decide_False by lia.
      cbn [mbind result_bind].
      rewrite vectorOf_compile. cbn [mbind result_bind].
      rewrite bool_decide_eq_false_2 by lia. cbn [negb].
      cbn zeta. by rewrite decide_False by lia.
    - (* the slot is empty: the signature goes there *)
      rewrite decide_True by done.
      rewrite vectorOf_set by (rewrite slotsOps_length; lia).
      rewrite from_signature, slotsOps_insert by done. cbn [mbind result_bind].
      pose proof (filled_insert slots p sig Hslot) as Hfi.
      cbn zeta. destruct (decide (filled (<[p:=Some sig]> slots) = m)) as [Heq|Hne].
      + rewrite decide_True by lia. rewrite !removeEmpty_slots.
        replace (Z.to_nat (filled slots + 1 - m)) with 0%nat by lia.
        cbn [MTX.popExtra]. rewrite Z.min_l by lia.
        unfold assert.
        rewrite (bool_decide_eq_true_2 (filled slots + 1 = m)) by lia.
        cbn [mbind result_bind]. rewrite vectorOf_length, signedOps_length.
        rewrite (bool_decide_eq_true_2 (_ - 1 = m)) by (unfold filled in Heq; lia).
        cbn [mbind result_bind].
        rewrite vectorOf_compile. cbn [mbind result_bind].
        rewrite (bool_decide_eq_true_2 (filled slots + 1 = m)) by lia. done.
      + rewrite decide_False by lia. cbn [mbind result_bind].
        rewrite vectorOf_compile. cbn [mbind result_bind].
        rewrite bool_decide_eq_false_2 by lia. done.
  Qed.

Lemma signVector_signed sigs raw ring sig :
    Z.of_nat (length sigs) = m → Forall validSignature sigs →
    MTX.signVector prev (vectorOf (signedOps sigs) raw) sig ring
    = Ok (true, vectorOf (signedOps sigs) raw).
  Proof.
    intros Hlen Hvalid. unfold MTX.signVector.
    rewrite (ms_not_pubkey prev m ks Hcode), (ms_not_pubkeyhash prev m ks Hcode Hm Hn), Hms.
    rewrite (ms_getSmall_0 prev m ks Hcode Hm Hn), (ms_getSmall_n prev m ks Hcode Hm Hn).
    cbn [vec_getSmall vec_length Script_Vector].
    assert (Hmark : Script.getSmall (vectorOf (signedOps sigs) raw) 0 = 0)
      by apply vectorOf_getSmall_0.
    rewrite Hmark. rewrite bool_decide_eq_true_2 by done. cbn [negb].
    rewrite vectorOf_length, signedOps_length.
    rewrite decide_False by lia.
    assert (Hcount : MTX.countSignatures (vectorOf (signedOps sigs) raw) = m).
    { unfold signedOps. rewrite countSignatures_vectorOf, <-Hlen. do 2 f_equal.
      clear Hlen. induction Hvalid as [|s sigs Hs _ IH]; [done|].
      rewrite fmap_cons, filter_cons. rewrite decide_True.
      - cbn [length]. by rewrite IH.
      - unfold isSignatureOp. cbn [Script.toValue Script.isSignature].
        by apply bool_decide_eq_true_2. }
    rewrite Hcount. by rewrite decide_True by (split; [done|lia]).
  Qed.
End SignMultisig.


(** *** Filling a multisig vector, signer after signer *)
Section FillMultisig.
Context (prev : Script.t) (m : Z) (ks : list Buffer).
Hypothesis Hms : Script.isMultisig prev = true.
Hypothesis Hcode : Script.code prev = multisigCode m ks.
Hypothesis Hm : 1 ≤ m ≤ Z.of_nat (length ks).
Hypothesis Hn : Z.of_nat (length ks) ≤ 16.


Lemma fresh_cons slots signer signers :
    fresh ks slots (signer :: signers) →
    fresh ks (<[keySlot ks (publicKey signer.1) := Some signer.2]> slots) signers.
  Proof.
    intros [Hnd Hall]. rewrite fmap_cons in Hnd. apply list.NoDup_cons in Hnd as [Hnot Hnd].
    split; [done|]. intros s Hs.
    destruct (Hall s) as (Hk & Hv & Hslot); [by apply list_elem_of_further|].
    split; [done|]. split; [done|].
    rewrite list_lookup_insert_ne; [done|].
    intros Heq. apply Hnot. rewrite Heq.
    by apply (list_elem_of_fmap_2 (λ signer, keySlot ks (publicKey signer.1))).
  Qed.

Lemma signAll_slots signers slots raw last :
    length slots = length ks → validSlots slots → fresh ks slots signers →
    filled slots + Z.of_nat (length signers) ≤ m →
    signers ≠ [] →
    signAll prev (vectorOf (slotsOps slots) raw) signers last =
      if decide (filled slots + Z.of_nat (length signers) = m)
      then Ok (true, Script.fromCode (signedOps (omap id (signedSlots ks slots signers))))
      else Ok (false, Script.fromCode (slotsOps (signedSlots ks slots signers))).
  Proof.
    revert slots raw last.
    induction signers as [|[ring sig] signers IH]; intros slots raw last Hlen Hvalid Hfresh Hle Hne;
      [done|].
    cbn [signAll signedSlots foldl length] in *.
    destruct (proj2 Hfresh (ring, sig)) as (Hkey & Hsig & Hslot); [apply list_elem_of_here|].
    cbn [fst snd] in *.
    rewrite (signVector_slots prev m ks Hms Hcode Hm Hn) by (done || lia).
    cbn zeta. rewrite Hslot.
    pose proof (filled_insert slots _ sig Hslot) as Hfi.
    set (slots' := <[keySlot ks (publicKey ring) := Some sig]> slots) in *.
    destruct signers as [|signer signers].
    - cbn [length signAll foldl mbind result_bind] in *.
      destruct (decide (filled slots' = m)).
      + by rewrite decide_True by lia.
      + by rewrite decide_False by lia.
    - rewrite decide_False by (cbn [length] in *; lia). cbn [mbind result_bind].
      unfold Script.fromCode at 1.
      change {| Script.code := Some <$> slotsOps slots';
                Script.raw := mjoin (Script.encodeOp <$> slotsOps slots') |}
        with (vectorOf (slotsOps slots') (mjoin (Script.encodeOp <$> slotsOps slots'))).
      rewrite IH.
      + change (signedSlots ks slots' (signer :: signers))
          with (foldl (λ slots signer, <[keySlot ks (publicKey signer.1) := Some signer.2]> slots)
                      slots' (signer :: signers)).
        destruct (decide (filled slots' + Z.of_nat (length (signer :: signers)) = m)).
        * by rewrite decide_True by (cbn [length] in *; lia).
        * by rewrite decide_False by (cbn [length] in *; lia).
      + subst slots'. by rewrite length_insert.
      + by apply validSlots_insert.
      + by apply (fresh_cons slots (ring, sig)).
      + cbn [length] in *. lia.
      + done.
  Qed.

  (** The slots that signers fill do not depend on the order in which
      they sign. *)
Lemma signedSlots_Permutation signers1 signers2 slots :
    signers1 ≡ₚ signers2 →
    NoDup ((λ signer, keySlot ks (publicKey signer.1)) <$> signers1) →
    signedSlots ks slots signers1 = signedSlots ks slots signers2.
  Proof.
    unfold signedSlots. intros Hperm. revert slots.
    induction Hperm as [|x l1 l2 _ IH|x y l|l1 l2 l3 H12 IH12 H23 IH23]; intros slots Hnd.
    - done.
    - cbn [foldl]. rewrite fmap_cons in Hnd. apply list.NoDup_cons in Hnd as [_ Hnd]. by apply IH.
    - cbn [foldl]. rewrite !fmap_cons in Hnd.
      apply list.NoDup_cons in Hnd as [Hnot _]. apply not_elem_of_cons in Hnot as [Hneq _].
      by rewrite list_insert_insert_ne.
    - rewrite IH12 by done. apply IH23. by rewrite <-H12.
  Qed.

Lemma signedSlots_length slots signers :
    length (signedSlots ks slots signers) = length slots.
  Proof.
    unfold signedSlots. revert slots. induction signers as [|s signers IH]; intros slots; [done|].
    cbn [foldl]. by rewrite IH, length_insert.
  Qed.

Lemma signedSlots_valid slots signers :
    validSlots slots → (∀ signer, signer ∈ signers → validSignature signer.2) →
    validSlots (signedSlots ks slots signers).
  Proof.
    unfold signedSlots. revert slots. induction signers as [|s signers IH]; intros slots Hv Hs;
      [done|].
    cbn [foldl]. apply IH.
    - apply validSlots_insert; [done|]. apply Hs, list_elem_of_here.
    - intros s' Hs'. by apply Hs, list_elem_of_further.
  Qed.

Lemma signedSlots_filled slots signers :
    fresh ks slots signers →
    filled (signedSlots ks slots signers) = filled slots + Z.of_nat (length signers).
  Proof.
    unfold signedSlots. revert slots. induction signers as [|s signers IH]; intros slots Hf.
    { cbn [foldl length]. lia. }
    cbn [foldl length]. rewrite IH by (by apply fresh_cons).
    rewrite filled_insert; [lia|]. apply Hf, list_elem_of_here.
  Qed.

Lemma signedSlots_lookup slots signers signer :
    fresh ks slots signers → signer ∈ signers →
    signedSlots ks slots signers !! keySlot ks (publicKey signer.1) = Some (Some signer.2).
  Proof.
    unfold signedSlots. revert slots. induction signers as [|s signers IH]; intros slots Hf Hin.
    { by apply elem_of_nil in Hin. }
    cbn [foldl]. apply elem_of_cons in Hin as [->|Hin].
    - assert (Hkeep : ∀ l (sl : list (option Buffer)) (p : nat) v,
                p ∉ ((λ signer, keySlot ks (publicKey signer.1)) <$> l) →
                sl !! p = Some v →
                foldl (λ slots signer,
                         <[keySlot ks (publicKey signer.1) := Some signer.2]> slots) sl l
                !! p = Some v).
      { clear. intros l. induction l as [|x l IH]; intros sl p v Hnot Hv; [done|].
        cbn [foldl]. rewrite fmap_cons in Hnot. apply not_elem_of_cons in Hnot as [Hne Hnot].
        apply IH; [done|]. by rewrite list_lookup_insert_ne. }
      destruct Hf as [Hnd Hall]. rewrite fmap_cons in Hnd.
      apply list.NoDup_cons in Hnd as [Hnot _].
      apply Hkeep; [done|]. apply list_lookup_insert_eq.
      destruct (Hall s) as (_ & _ & Hslot); [apply list_elem_of_here|].
      by eapply lookup_lt_Some.
    - apply IH; [by apply fresh_cons|done].
  Qed.
End FillMultisig.


(** *** Order of signing *)

Lemma filled_replicate (n : nat) : filled (replicate n None) = 0.
Proof. unfold filled. induction n as [|n IH]; [done|]. csimpl. exact IH. Qed.

Lemma validSlots_replicate (n : nat) : validSlots (replicate n None).
Proof. apply Forall_replicate. by intros sig. Qed.

Lemma fresh_template ks (signers : list (KeyRing * Buffer)) :
  NoDup ((λ signer, publicKey signer.1) <$> signers) →
  (∀ signer, signer ∈ signers → publicKey signer.1 ∈ ks ∧ validSignature signer.2) →
  fresh ks (replicate (length ks) None) signers.
Proof.
  intros Hnd Hall. split.
  - induction signers as [|s signers IH]; [constructor|].
    rewrite fmap_cons in Hnd. rewrite fmap_cons.
    apply list.NoDup_cons in Hnd as [Hnot Hnd].
    apply list.NoDup_cons. split.
    + intros (s' & Heq & Hin)%list_elem_of_fmap. apply Hnot.
      apply keySlot_inj in Heq.
      * rewrite Heq. by apply (list_elem_of_fmap_2 (λ signer, publicKey signer.1)).
      * apply Hall, list_elem_of_here.
      * by apply Hall, list_elem_of_further.
    + apply IH; [done|]. intros s' Hs'. by apply Hall, list_elem_of_further.
  - intros s Hs. destruct (Hall s Hs) as [Hk Hv]. split; [done|]. split; [done|].
    apply lookup_replicate_2. destruct (keySlot_spec ks _ Hk) as [Hp _].
    by eapply lookup_lt_Some.
Qed.

Lemma fresh_prefix ks slots (signers rest : list (KeyRing * Buffer)) :
  fresh ks slots (signers ++ rest) → fresh ks slots signers.
Proof.
  intros [Hnd Hall]. split.
  - rewrite fmap_app in Hnd. by apply list.NoDup_app in Hnd as [? _].
  - intros s Hs. apply Hall, elem_of_app. by left.
Qed.

(** C2, as the code has it. For a bare m-of-n multisig script and m
    signers with distinct keys of the script, filling a vector templated
    for the script with their signatures gives, in whatever order they
    sign, one and the same vector, code and bytes: the marker followed by
    the m signatures in the order of their keys in the script, m + 1
    elements. The call that brings the m-th signature answers [true], and
    so does every later call with one of the signatures, which leaves the
    vector as it is. As long as fewer than m signatures are in, a call
    that brings a signature a second time leaves the vector as it is too,
    but answers [false], as the call that brought it first did. *)
Theorem signVector_multisig_order (prev : Script.t) (ring0 : KeyRing)
    (template : Script.t) (signers1 signers2 : list (KeyRing * Buffer)) :
  Script.isMultisig prev = true →
  MTX.scriptVector prev emptyScript ring0 = Ok (true, template) →
  signers1 ≡ₚ signers2 →
  NoDup ((λ signer, publicKey signer.1) <$> signers1) →
  (∀ signer, signer ∈ signers1 →
     publicKey signer.1 ∈ multisigKeys prev ∧ validSignature signer.2) →
  Z.of_nat (length signers1) = Script.getSmall prev 0 →
  let ks := multisigKeys prev in
  let final :=
    Script.fromCode
      (signedOps (omap id (signedSlots ks (replicate (length ks) None) signers1))) in
  signAll prev template signers1 false = Ok (true, final)
  ∧ signAll prev template signers2 false = Ok (true, final)
  ∧ Script.length final = Script.getSmall prev 0 + 1
  ∧ (∀ signer, signer ∈ signers1 →
       MTX.signVector prev final signer.2 signer.1 = Ok (true, final))
  ∧ (∀ signed rest signer,
       signers1 = signed ++ rest → rest ≠ [] → signer ∈ signed →
       ∃ partial,
         signAll prev template signed false = Ok (false, partial)
         ∧ MTX.signVector prev partial signer.2 signer.1 = Ok (false, partial)).
Proof.
  intros Hms Htmpl Hperm Hnd Hall Hlen.
  destruct (isMultisig_inv prev Hms) as (m & ks & Hcode & Hm & Hn & Hks).
  rewrite (ms_multisigKeys prev m ks Hcode) in *.
  rewrite (ms_getSmall_0 prev m ks Hcode Hm Hn) in *. cbn zeta.
  (* the template *)
  assert (Htemplate : template
            = vectorOf (slotsOps (replicate (length ks) None)) []).
  { rewrite (scriptVector_script_template prev m ks ring0 template Hms Hcode Hm Hn Htmpl).
    apply slotsOps_replicate. }
  subst template.
  pose proof (fresh_template ks signers1 Hnd Hall) as Hfresh1.
  assert (Hne1 : signers1 ≠ []) by (intros ->; cbn [length] in Hlen; lia).
  assert (Hfresh2 : fresh ks (replicate (length ks) None) signers2).
  { apply fresh_template.
    - by rewrite <-Hperm.
    - intros s Hs. apply Hall. by rewrite Hperm. }
  assert (Hne2 : signers2 ≠ []).
  { intros ->. apply Permutation_nil_r in Hperm. done. }
  assert (Hlen2 : length signers2 = length signers1) by (by rewrite Hperm).
  split; [|split; [|split; [|split]]].
  - rewrite (signAll_slots prev m ks Hms Hcode Hm Hn);
      try done; rewrite ?length_replicate, ?filled_replicate; try done;
      try apply validSlots_replicate; try lia.
    by rewrite decide_True by lia.
  - rewrite (signAll_slots prev m ks Hms Hcode Hm Hn);
      try done; rewrite ?length_replicate, ?filled_replicate; try done;
      try apply validSlots_replicate; try lia.
    rewrite decide_True by lia.
    rewrite (signedSlots_Permutation ks signers1 signers2); [done|done|apply Hfresh1].
  - unfold Script.length, arr_length, Script.fromCode. cbn [Script.code].
    rewrite length_fmap, signedOps_length.
    pose proof (signedSlots_filled ks _ _ Hfresh1) as Hf.
    rewrite filled_replicate in Hf. unfold filled in Hf. lia.
  - intros signer Hin.
    apply (signVector_signed prev m ks Hms Hcode Hm Hn).
    + pose proof (signedSlots_filled ks _ _ Hfresh1) as Hf.
      rewrite filled_replicate in Hf. unfold filled in Hf. lia.
    + apply validSlots_signatures, signedSlots_valid; [apply validSlots_replicate|].
      intros s Hs. by apply Hall.
  - intros signed rest signer -> Hrest Hin.
    pose proof (fresh_prefix _ _ _ _ Hfresh1) as Hfresh.
    assert (Hshort : Z.of_nat (length signed) < m).
    { rewrite length_app in Hlen. destruct rest; [done|]. cbn [length] in Hlen. lia. }
    exists (Script.fromCode
              (slotsOps (signedSlots ks (replicate (length ks) None) signed))).
    split.
    + rewrite (signAll_slots prev m ks Hms Hcode Hm Hn);
        try done; rewrite ?length_replicate, ?filled_replicate; try done;
        try apply validSlots_replicate; try lia.
      * by rewrite decide_False by lia.
      * intros ->. by apply elem_of_nil in Hin.
    + destruct (Hall signer) as [Hk Hv]; [apply elem_of_app; by left|].
      pose proof (signedSlots_filled ks _ _ Hfresh) as Hf.
      rewrite filled_replicate in Hf.
      pose proof (signVector_slots prev m ks Hms Hcode Hm Hn
                    (signedSlots ks (replicate (length ks) None) signed)
                    (mjoin (Script.encodeOp <$>
                       slotsOps (signedSlots ks (replicate (length ks) None) signed)))
                    signer.1 signer.2) as Hsv.
      cbn zeta in Hsv. rewrite (signedSlots_lookup ks _ _ _ Hfresh Hin) in Hsv.
      rewrite decide_False in Hsv by lia. apply Hsv.
      * by rewrite signedSlots_length, length_replicate.
      * apply signedSlots_valid; [apply validSlots_replicate|].
        intros s Hs. apply Hall, elem_of_app. by left.
      * done.
      * done.
      * lia.
Qed.


(** ** More of the coin selector *)
Section SelectorStructure.
Context `{Env}.
Import CoinSelector.

  (** What the loop of [fund] does to the transaction of the selector:
      one input and one coin of the view for every coin it chooses. *)
Lemma fundFrom_tx rest s :
    ∃ added,
      chosen (fundFrom rest s) = chosen s ++ added
      ∧ MTX.inputs (tx (fundFrom rest s))
        = MTX.inputs (tx s) ++ (Input.fromCoin <$> added)
      ∧ MTX.view (tx (fundFrom rest s)) = foldl addCoin (MTX.view (tx s)) added
      ∧ MTX.outputs (tx (fundFrom rest s)) = MTX.outputs (tx s).
  Proof.
    revert s. induction rest as [|coin rest IH]; intros s.
    - exists []. cbn [fundFrom foldl fmap list_fmap]. by rewrite !app_nil_r.
    - cbn [fundFrom]. set (s1 := set_index s (index s + 1)).
      destruct (isSpendable s1 coin); cbn [negb].
      + set (s2 := set_chosen (set_tx s1 _) _).
        assert (Hstep : ∀ added,
          chosen s2 ++ added = chosen s ++ coin :: added
          ∧ MTX.inputs (tx s2) ++ (Input.fromCoin <$> added)
            = MTX.inputs (tx s) ++ (Input.fromCoin <$> coin :: added)
          ∧ foldl addCoin (MTX.view (tx s2)) added
            = foldl addCoin (MTX.view (tx s)) (coin :: added)
          ∧ MTX.outputs (tx s2) = MTX.outputs (tx s)).
        { intros added. subst s2 s1.
          cbn [chosen tx set_chosen set_tx set_index update MTX.addInput
               MTX.inputs MTX.view MTX.outputs MTX.set_inputs MTX.set_view foldl].
          rewrite fmap_cons, <-!app_assoc. done. }
        assert (Hrec : ∃ added,
          chosen (fundFrom rest s2) = chosen s ++ added
          ∧ MTX.inputs (tx (fundFrom rest s2))
            = MTX.inputs (tx s) ++ (Input.fromCoin <$> added)
          ∧ MTX.view (tx (fundFrom rest s2)) = foldl addCoin (MTX.view (tx s)) added
          ∧ MTX.outputs (tx (fundFrom rest s2)) = MTX.outputs (tx s)).
        { destruct (IH s2) as (added & Hc & Hi & Hv & Ho).
          destruct (Hstep added) as (Hc' & Hi' & Hv' & Ho').
          exists (coin :: added). rewrite Hc, Hi, Hv, Ho. done. }
        case_decide; [exact Hrec|].
        destruct (isFull s2); [|exact Hrec].
        exists [coin]. destruct (Hstep []) as (Hc' & Hi' & Hv' & Ho').
        rewrite app_nil_r in Hc', Hi'. done.
      + destruct (IH s1) as (added & Hc & Hi & Hv & Ho). by exists added.
  Qed.

Lemma fund_tx s :
    ∃ added,
      chosen (fund s) = chosen s ++ added
      ∧ MTX.inputs (tx (fund s)) = MTX.inputs (tx s) ++ (Input.fromCoin <$> added)
      ∧ MTX.view (tx (fund s)) = foldl addCoin (MTX.view (tx s)) added
      ∧ MTX.outputs (tx (fund s)) = MTX.outputs (tx s).
  Proof. apply fundFrom_tx. Qed.

  (** The loop of [fund] walks the coins in order and chooses every
      spendable coin it walks past. *)
Lemma fundFrom_walk rest s :
    ∃ k : nat,
      (k ≤ length rest)%nat
      ∧ index (fundFrom rest s) = index s + Z.of_nat k
      ∧ chosen (fundFrom rest s)
        = chosen s ++ filter (λ coin, isSpendable s coin = true) (take k rest).
  Proof.
    revert s. induction rest as [|coin rest IH]; intros s.
    - exists 0%nat. cbn [fundFrom take length]. rewrite filter_nil, app_nil_r.
      split; [lia|]. split; [lia|done].
    - cbn [fundFrom]. set (s1 := set_index s (index s + 1)).
      assert (Hsp : ∀ c, isSpendable s1 c = isSpendable s c)
        by (intros c; apply isSpendable_index).
      destruct (isSpendable s1 coin) eqn:Hcoin; cbn [negb].
      + set (s2 := set_chosen (set_tx s1 _) _).
        assert (Hsp2 : ∀ c, isSpendable s2 c = isSpendable s c)
          by (intros c; apply isSpendable_step).
        assert (Hone : filter (λ c, isSpendable s c = true) [coin] = [coin]).
        { rewrite filter_cons_True by (by rewrite <-Hsp). by rewrite filter_nil. }
        assert (Hrec : ∃ k : nat,
          (k ≤ length (coin :: rest))%nat
          ∧ index (fundFrom rest s2) = index s + Z.of_nat k
          ∧ chosen (fundFrom rest s2)
            = chosen s ++ filter (λ c, isSpendable s c = true)
                                 (take k (coin :: rest))).
        { destruct (IH s2) as (k & Hk & Hi & Hc). exists (S k).
          cbn [length take]. split; [lia|]. split.
          - rewrite Hi. subst s2 s1. cbn [index set_chosen set_tx set_index update]. lia.
          - rewrite Hc. subst s2 s1. cbn [chosen set_chosen set_tx set_index update].
            rewrite <-app_assoc. f_equal.
            rewrite filter_cons_True by (by rewrite <-Hsp). cbn [app]. f_equal. }
        case_decide; [exact Hrec|].
        destruct (isFull s2); [|exact Hrec].
        exists 1%nat. cbn [length]. split; [lia|]. split.
        * subst s2 s1. cbn [index set_chosen set_tx set_index update]. lia.
        * subst s2 s1. cbn [chosen set_chosen set_tx set_index update].
          change (take 1 (coin :: rest)) with [coin]. by rewrite Hone.
      + destruct (IH s1) as (k & Hk & Hi & Hc). exists (S k).
        cbn [length take]. split; [lia|]. split.
        * rewrite Hi. subst s1. cbn [index set_index update]. lia.
        * rewrite Hc. subst s1. cbn [chosen set_index update]. f_equal.
          rewrite filter_cons_False by (rewrite <-Hsp, Hcoin; done).
          apply list_filter_iff. intros c. by rewrite Hsp.
  Qed.

Lemma fund_walked s0 s : walked s0 s → walked s0 (fund s).
  Proof.
    intros (Hpol & Hi & Hc).
    destruct (fund_frame s) as (Hp & Hcoins & _).
    unfold fund in *.
    destruct (fundFrom_walk (drop (Z.to_nat (index s)) (coins s)) s)
      as (k & Hk & Hidx & Hch).
    rewrite length_drop in Hk.
    split; [congruence|]. rewrite Hcoins, Hidx. split; [lia|].
    rewrite Hch, Hc.
    replace (Z.to_nat (index s + Z.of_nat k)) with (Z.to_nat (index s) + k)%nat by lia.
    rewrite <-(take_drop (Z.to_nat (index s)) (take (Z.to_nat (index s) + k) (coins s))).
    rewrite take_take, Nat.min_l by lia.
    rewrite list.filter_app. f_equal.
    rewrite <-take_drop_commute.
    apply list_filter_iff. intros c. by rewrite (isSpendable_policy s s0).
  Qed.
End SelectorStructure.


(** *** The outcome of a selection *)
Section SelectorOutcome.
Context `{Env}.
Import CoinSelector.

Lemma getFee_policy s1 s2 size :
    policy s1 = policy s2 → getFee s1 size = getFee s2 size.
  Proof.
    unfold policy. intros Hp. injection Hp as _ _ _ _ _ _ Hrate _ Hround _ _.
    unfold getFee. by rewrite Hrate, Hround.
  Qed.

Lemma getFee_capped s size : getFee s size ≤ MAX_FEE.
  Proof. unfold getFee. case_decide; lia. Qed.

Lemma policy_fields s1 s2 :
    policy s1 = policy s2 →
    selection s1 = selection s2 ∧ hardFee s1 = hardFee s2
    ∧ maxFee s1 = maxFee s2 ∧ changeAddress s1 = changeAddress s2
    ∧ estimate s1 = estimate s2 ∧ shouldSubtract s1 = shouldSubtract s2.
  Proof. unfold policy. intros Hp. by injection Hp as -> -> _ _ _ -> _ -> _ -> ->. Qed.

  (** What [selectEstimate] comes to: one estimate of the size, one fee,
      and at most one further round of funding. *)
Lemma selectEstimate_outcome s1 x :
    0 ≤ index s1 ≤ Z.of_nat (length (coins s1)) →
    let funded := fund (set_fee s1 x) in
    let tx1 := MTX.set_outputs (tx funded) (MTX.outputs (tx funded) ++ [gaugeOutput s1]) in
    let s2 := set_tx funded tx1 in
    let s3 := set_fee s2 (getFee s2 (MTX.estimateSize tx1 (estimate s2))) in
    MTX.addOutput (tx funded) (MTX.ToScript (Output.script (gaugeOutput s1))) 0 = Ok tx1
    ∧ selectEstimate s1 x
      = if decide (0 < maxFee s3 ∧ maxFee s3 < fee s3)
        then Throw (FundingError "Fee is too high." None)
        else Ok (if negb (isFull s3) then fund s3 else s3).
  Proof.
    intros Hi funded tx1 s2 s3.
    assert (Hadd : MTX.addOutput (tx funded)
                     (MTX.ToScript (Output.script (gaugeOutput s1))) 0 = Ok tx1).
    { unfold MTX.addOutput, assert. rewrite bool_decide_eq_true_2 by lia.
      cbn [mbind result_bind]. done. }
    split; [exact Hadd|].
    unfold selectEstimate. fold funded.
    destruct (fund_frame (set_fee s1 x)) as (Hpol & Hcoins & _).
    fold funded in Hpol, Hcoins.
    assert (Hca : changeAddress funded = changeAddress s1).
    { change (policy funded = policy s1) in Hpol.
      by destruct (policy_fields _ _ Hpol) as (_ & _ & _ & -> & _). }
    rewrite Hca. change (match changeAddress s1 with
                         | Some a => fromAddress a
                         | None => Script.fromPubkeyhash ZERO_HASH160
                         end) with (Output.script (gaugeOutput s1)).
    rewrite Hadd. cbn [mbind result_bind]. fold s2.
    assert (Hi2 : 0 ≤ index s2 ≤ Z.of_nat (length (coins s2))).
    { pose proof (fund_index (set_fee s1 x) Hi) as Hfi. exact Hfi. }
    rewrite (estimateLoop_fuel _ 0 s2 Hi2).
    cbn [estimateLoop].
    change (set_fee s2 (getFee s2 (MTX.estimateSize (tx s2) (estimate s2)))) with s3.
    case_decide; [done|].
    by destruct (negb (isFull (if negb (isFull s3) then fund s3 else s3))
                 && bool_decide (index (if negb (isFull s3) then fund s3 else s3)
                                 < Z.of_nat (length (coins (if negb (isFull s3)
                                                            then fund s3 else s3))))).
  Qed.
End SelectorOutcome.


Section SelectorTheorems.
Context `{Env}.
Import CoinSelector.

Lemma init_walked s coins0 rng s1 : init s coins0 rng = Ok s1 → walked s s1.
  Proof.
    intros (Hpol & _ & _ & Hi & Hc & _)%init_outcome.
    split; [done|]. rewrite Hi, Hc. split; [lia|]. by rewrite take_0, filter_nil.
  Qed.

Lemma accumulated_walked s coins0 rng s2 :
    accumulated s coins0 rng = Ok s2 → walked s s2.
  Proof.
    intros Hacc.
    apply (accumulated_inv (walked s) (walked s)) in Hacc; try done.
    - intros x. apply fund_walked.
    - intros x. apply fund_walked.
    - intros s1. apply init_walked.
  Qed.

  (** Selection walks the ordered candidates from the first on and
      chooses every spendable coin it walks past: the chosen coins are,
      in order, the spendable coins among the first [index] candidates,
      and the candidates walked are a permutation of the coins given. *)
Theorem select_chooses_in_walk_order (s : t) (coins0 : list Coin.t) (rng : Rng)
      (s' : t) :
    select s coins0 rng = Ok s' →
    coins s' ≡ₚ coins0
    ∧ 0 ≤ index s' ≤ Z.of_nat (length (coins s'))
    ∧ chosen s' = filter (λ coin, isSpendable s coin = true)
                         (take (Z.to_nat (index s')) (coins s')).
  Proof.
    intros (s2 & Hacc & _ & ->)%select_Ok_accumulated.
    pose proof (accumulated_chosen _ _ _ _ Hacc) as (_ & Hperm & _).
    pose proof (accumulated_walked _ _ _ _ Hacc) as (_ & Hi & Hc).
    cbn [coins index chosen set_change update]. done.
  Qed.

  (** The inputs and the view of the transaction of a selector whose
      chosen coins were added through [addInput] to a transaction with
      no inputs and the view [view0]. *)
Lemma accumulated_tracks s coins0 rng s2 :
    accumulated s coins0 rng = Ok s2 →
    MTX.inputs (tx s2) = Input.fromCoin <$> chosen s2
    ∧ MTX.view (tx s2) = foldl addCoin (MTX.view (tx s)) (chosen s2).
  Proof.
    intros Hacc.
    set (P := λ x : t, MTX.inputs (tx x) = Input.fromCoin <$> chosen x
                ∧ MTX.view (tx x) = foldl addCoin (MTX.view (tx s)) (chosen x)).
    assert (Hfund : ∀ x, P x → P (fund x)).
    { intros x [Hin Hview]. destruct (fund_tx x) as (added & Hc & Hi & Hv & _).
      split.
      - by rewrite Hi, Hc, Hin, fmap_app.
      - by rewrite Hv, Hc, Hview, foldl_app. }
    apply (accumulated_inv P P) in Hacc; try done.
    intros s1 (_ & _ & _ & _ & Hc & _ & _ & Htx)%init_outcome.
    split; rewrite Htx, Hc; done.
  Qed.

Lemma estimateLoop_outputs fuel s s2 :
    estimateLoop fuel s = Ok s2 → MTX.outputs (tx s2) = MTX.outputs (tx s).
  Proof.
    revert s. induction fuel as [|fuel IH]; intros s; cbn [estimateLoop].
    - by intros [= <-].
    - set (s1 := set_fee s _). case_decide; [done|].
      assert (Hout : MTX.outputs (tx (if negb (isFull s1) then fund s1 else s1))
                     = MTX.outputs (tx s)).
      { destruct (isFull s1); cbn [negb]; [done|].
        by destruct (fund_tx s1) as (_ & _ & _ & _ & ->). }
      destruct (_ && _).
      + intros Hloop. by rewrite (IH _ Hloop).
      + by intros [= <-].
  Qed.

  (** The transaction of a selector that has selected holds one input
      for every chosen coin, in the order chosen, and every chosen coin
      in its view. Its outputs are those it began with, followed in
      estimate mode by the output of value 0 that gauged the size of the
      change, which [selectEstimate] leaves in place. *)
Theorem select_tx_tracks_chosen (s : t) (coins0 : list Coin.t) (rng : Rng)
      (s' : t) :
    select s coins0 rng = Ok s' →
    MTX.inputs (tx s') = Input.fromCoin <$> chosen s'
    ∧ MTX.view (tx s') = foldl addCoin (MTX.view (tx s)) (chosen s')
    ∧ MTX.outputs (tx s')
      = MTX.outputs (tx s) ++ (if decide (hardFee s = -1) then [gaugeOutput s] else []).
  Proof.
    intros (s2 & Hacc & _ & ->)%select_Ok_accumulated.
    destruct (accumulated_tracks _ _ _ _ Hacc) as [Hin Hview].
    cbn [tx chosen set_change update]. split; [done|]. split; [done|].
    revert Hacc. unfold accumulated.
    destruct (init s coins0 rng) as [s1|] eqn:Hinit; [|done]. cbn [mbind result_bind].
    pose proof Hinit as (Hpol & _ & _ & Hi & _ & _ & _ & Htx)%init_outcome.
    destruct (policy_fields _ _ Hpol) as (_ & Hhard & _ & Hca & _).
    rewrite Hhard.
    assert (Hout1 : MTX.outputs (tx s1) = MTX.outputs (tx s)) by by rewrite Htx.
    case_decide as Hh.
    - intros [= <-]. rewrite decide_False by done. rewrite app_nil_r.
      unfold selectHard.
      match goal with |- MTX.outputs (tx (fund ?x)) = _ =>
        destruct (fund_tx x) as (_ & _ & _ & _ & ->) end.
      by case_decide.
    - rewrite decide_True by (by destruct (decide (hardFee s = -1)); [|done]).
      unfold selectEstimate.
      set (funded := fund (set_fee s1 MIN_FEE)).
      unfold MTX.addOutput, assert. rewrite bool_decide_eq_true_2 by lia.
      cbn [mbind result_bind]. intros Hloop%estimateLoop_outputs.
      rewrite Hloop. cbn [tx set_tx update MTX.outputs MTX.set_outputs].
      destruct (fund_tx (set_fee s1 MIN_FEE)) as (_ & _ & _ & _ & Hf).
      fold funded in Hf. rewrite Hf. cbn [tx set_fee update]. rewrite Hout1.
      destruct (fund_frame (set_fee s1 MIN_FEE)) as (Hpf & _).
      fold funded in Hpf.
      destruct (policy_fields _ _ Hpf) as (_ & _ & _ & Hca' & _).
      rewrite Hca'. cbn [changeAddress set_fee update]. rewrite Hca.
      unfold gaugeOutput. done.
  Qed.

  (** In estimate mode the fee of a selection that returns is the fee
      for the size estimated once, of the transaction as it stood after
      the first round of funding, for the minimum fee, with the output
      that gauges the change added. It is not computed anew when that
      fee makes further coins necessary: the inputs estimated are a
      prefix of the inputs the selection ends with. The fee does not
      exceed a maximum fee that is set. *)
Theorem select_estimate_fee (s : t) (coins0 : list Coin.t) (rng : Rng) (s' : t) :
    hardFee s = -1 →
    select s coins0 rng = Ok s' →
    ∃ tx1,
      firstPass s coins0 rng = Ok tx1
      ∧ fee s' = getFee s (MTX.estimateSize tx1 (estimate s))
      ∧ (0 < maxFee s → fee s' ≤ maxFee s)
      ∧ MTX.inputs tx1 `prefix_of` MTX.inputs (tx s').
  Proof.
    intros Hhard (s2 & Hacc & _ & ->)%select_Ok_accumulated.
    revert Hacc. unfold accumulated, firstPass.
    destruct (init s coins0 rng) as [s1|] eqn:Hinit; [|done]. cbn [mbind result_bind].
    pose proof Hinit as (Hpol & _ & _ & Hi & _)%init_outcome.
    destruct (policy_fields _ _ Hpol) as (_ & Hh & _).
    rewrite decide_False by (rewrite Hh, Hhard; intros Hne; by apply Hne).
    assert (Hidx : 0 ≤ index s1 ≤ Z.of_nat (length (coins s1))) by (rewrite Hi; lia).
    destruct (selectEstimate_outcome s1 MIN_FEE Hidx) as [Hadd Hsel].
    rewrite Hsel. clear Hsel.
    set (funded := fund (set_fee s1 MIN_FEE)) in *.
    set (tx1 := MTX.set_outputs (tx funded) _) in *.
    set (s3 := set_fee (set_tx funded tx1) _).
    destruct (fund_frame (set_fee s1 MIN_FEE)) as (Hpf & _). fold funded in Hpf.
    assert (Hp3 : policy s3 = policy s) by (rewrite <-Hpol; exact Hpf).
    destruct (policy_fields _ _ Hp3) as (_ & _ & Hmax & _ & Hest & _).
    assert (Hfee3 : fee s3 = getFee s (MTX.estimateSize tx1 (estimate s))).
    { subst s3. cbn [fee set_fee update].
      rewrite (getFee_policy _ s) by exact Hp3.
      cbn [estimate set_fee set_tx update] in Hest |- *. by rewrite Hest. }
    case_decide as Hhigh; [done|]. intros [= <-].
    exists tx1. split; [exact Hadd|].
    cbn [fee tx set_change update].
    assert (Hfinal : fee (if negb (isFull s3) then fund s3 else s3) = fee s3
                     ∧ MTX.inputs (tx s3)
                       `prefix_of` MTX.inputs (tx (if negb (isFull s3)
                                                   then fund s3 else s3))).
    { destruct (isFull s3); cbn [negb]; [done|].
      destruct (fund_frame s3) as (_ & _ & _ & -> & _). split; [done|].
      destruct (fund_tx s3) as (added & _ & -> & _). by apply prefix_app_r. }
    destruct Hfinal as [-> Hpre]. split; [exact Hfee3|]. split.
    - intros Hpos. rewrite Hmax in Hhigh. lia.
    - exact Hpre.
  Qed.

  (** The fee of a selection that returns never exceeds the protocol
      maximum, in hard-fee mode as in estimate mode. *)
Theorem select_fee_capped (s : t) (coins0 : list Coin.t) (rng : Rng) (s' : t) :
    select s coins0 rng = Ok s' → fee s' ≤ MAX_FEE.
  Proof.
    intros (s2 & Hacc & _ & ->)%select_Ok_accumulated.
    cbn [fee set_change update]. revert Hacc. unfold accumulated.
    destruct (init s coins0 rng) as [s1|] eqn:Hinit; [|done]. cbn [mbind result_bind].
    pose proof Hinit as (_ & _ & _ & Hi & _)%init_outcome.
    case_decide.
    - intros [= <-]. unfold selectHard.
      match goal with |- fee (fund ?x) ≤ _ =>
        destruct (fund_frame x) as (_ & _ & _ & -> & _) end.
      case_decide; cbn [fee set_fee update] in *; lia.
    - assert (Hidx : 0 ≤ index s1 ≤ Z.of_nat (length (coins s1))) by (rewrite Hi; lia).
      destruct (selectEstimate_outcome s1 MIN_FEE Hidx) as [_ ->].
      set (s3 := set_fee _ _).
      case_decide; [done|]. intros [= <-].
      assert (Hfee : fee (if negb (isFull s3) then fund s3 else s3) = fee s3).
      { destruct (isFull s3); cbn [negb]; [done|].
        by destruct (fund_frame s3) as (_ & _ & _ & -> & _). }
      rewrite Hfee. subst s3. cbn [fee set_fee update]. apply getFee_capped.
  Qed.

End SelectorTheorems.


(** ** Sorting by a key *)
Section Ascending.
Context {A : Type} (key : A → Z).

Lemma ascending_nil : ascending key [].
  Proof. intros i j a b _ Hi. by rewrite lookup_nil in Hi. Qed.

Lemma ascending_cons x l :
    ascending key (x :: l) ↔ (∀ y, y ∈ l → key x ≤ key y) ∧ ascending key l.
  Proof.
    split.
    - intros Hasc. split.
      + intros y (j & Hj)%list_elem_of_lookup_1.
        apply (Hasc 0%nat (S j) x y); [lia|done|done].
      + intros i j a b Hij Hi Hj. apply (Hasc (S i) (S j) a b); [lia|done|done].
    - intros [Hhead Htail] i j a b Hij Hi Hj.
      destruct j as [|j]; [lia|]. cbn in Hj.
      destruct i as [|i].
      + cbn in Hi. injection Hi as <-. apply Hhead. by eapply list_elem_of_lookup_2.
      + cbn in Hi. apply (Htail i j a b); [lia|done|done].
  Qed.

Lemma ascending_app l1 l2 :
    ascending key (l1 ++ l2)
    ↔ ascending key l1 ∧ ascending key l2
      ∧ ∀ a b, a ∈ l1 → b ∈ l2 → key a ≤ key b.
  Proof.
    induction l1 as [|x l1 IH]; cbn [app].
    - split.
      + intros Hasc. split; [apply ascending_nil|]. split; [done|].
        intros a b Ha. by apply elem_of_nil in Ha.
      + by intros (_ & Hasc & _).
    - rewrite !ascending_cons, IH. split.
      + intros (Hhead & H1 & H2 & Hcross).
        split; [split; [|done]|split; [done|]].
        * intros y Hy. apply Hhead. apply elem_of_app. by left.
        * intros a b [->|Ha]%elem_of_cons Hb.
          -- apply Hhead. apply elem_of_app. by right.
          -- by apply Hcross.
      + intros ([Hhead H1] & H2 & Hcross).
        split; [|split; [done|split; [done|]]].
        * intros y [Hy|Hy]%elem_of_app; [by apply Hhead|].
          apply Hcross; [apply list_elem_of_here|done].
        * intros a b Ha Hb. apply Hcross; [by apply list_elem_of_further|done].
  Qed.
End Ascending.

Lemma ascending_reverse {A} (key : A → Z) (l : list A) :
  ascending key (reverse l) ↔ ascending (λ x, - key x) l.
Proof.
  induction l as [|x l IH].
  - split; intros _; apply ascending_nil.
  - rewrite reverse_cons, ascending_app, IH.
    rewrite (ascending_cons (λ x, - key x) x l). split.
    + intros (Hl & _ & Hcross). split; [|done].
      intros y Hy. specialize (Hcross y x).
      rewrite elem_of_reverse in Hcross. specialize (Hcross Hy).
      assert (key y ≤ key x) by (apply Hcross; apply list_elem_of_here). lia.
    + intros [Hhead Hl]. split; [done|]. split.
      * rewrite ascending_cons. split; [|apply ascending_nil].
        intros y Hy. by apply elem_of_nil in Hy.
      * intros a b Ha [->|Hb]%elem_of_cons; [|by apply elem_of_nil in Hb].
        rewrite elem_of_reverse in Ha. specialize (Hhead a Ha). lia.
Qed.

Section SortByKey.
Context {A : Type} (key : A → Z) (comparefn : A → A → Rng → Z * Rng).
Hypothesis Hcompare : comparesBy key comparefn.

Lemma insertSorted_rng element before r :
    snd (insertSorted comparefn element before r) = r.
  Proof.
    induction before as [|tmp rest IH]; cbn [insertSorted]; [done|].
    rewrite Hcompare. case_decide; [|done].
    destruct (insertSorted comparefn element rest r) as [placed r'] eqn:Hins.
    cbn [snd] in *. done.
  Qed.

  (** Inserting into a prefix held in descending order keeps it in
      descending order, and places the element before the elements of
      the prefix that do not exceed it. *)
Lemma insertSorted_descending element before r :
    ascending (λ x, - key x) before →
    ascending (λ x, - key x) (fst (insertSorted comparefn element before r)).
  Proof.
    induction before as [|tmp rest IH]; cbn [insertSorted]; intros Hdesc.
    - cbn [fst]. rewrite ascending_cons. split; [|apply ascending_nil].
      intros y Hy. by apply elem_of_nil in Hy.
    - rewrite Hcompare. apply ascending_cons in Hdesc as [Hhead Hrest].
      case_decide as Hgt.
      + pose proof (insertSorted_Permutation comparefn element rest r) as Hperm.
        specialize (IH Hrest).
        destruct (insertSorted comparefn element rest r) as [placed r'].
        cbn [fst] in *. rewrite ascending_cons. split; [|done].
        intros y Hy. rewrite Hperm in Hy.
        apply elem_of_cons in Hy as [->|Hy]; [lia|by apply Hhead].
      + cbn [fst]. rewrite !ascending_cons. split; [|done].
        intros y [->|Hy]%elem_of_cons; [lia|].
        specialize (Hhead y Hy). lia.
  Qed.

Lemma insertSorted_stable element before r (k : Z) :
    ascending (λ x, - key x) before →
    filter (λ x, key x = k) (fst (insertSorted comparefn element before r))
    = filter (λ x, key x = k) (element :: before).
  Proof.
    induction before as [|tmp rest IH]; cbn [insertSorted]; intros Hdesc; [done|].
    rewrite Hcompare. apply ascending_cons in Hdesc as [Hhead Hrest].
    case_decide as Hgt; [|done].
    specialize (IH Hrest).
    destruct (insertSorted comparefn element rest r) as [placed r'].
    cbn [fst] in *.
    destruct (decide (key tmp = k)) as [Htmp|Htmp].
    - rewrite (filter_cons_True _ tmp) by done. rewrite IH.
      rewrite (filter_cons_False _ element) by lia.
      rewrite (filter_cons_False _ element) by lia.
      by rewrite (filter_cons_True _ tmp) by done.
    - rewrite (filter_cons_False _ tmp) by done. rewrite IH.
      destruct (decide (key element = k)).
      + rewrite !(filter_cons_True _ element) by done.
        by rewrite (filter_cons_False _ tmp) by done.
      + rewrite !(filter_cons_False _ element) by done.
        by rewrite (filter_cons_False _ tmp) by done.
  Qed.

Lemma sortFrom_sorted todo before r (k : Z) :
    ascending (λ x, - key x) before →
    ascending key (fst (sortFrom comparefn todo before r))
    ∧ filter (λ x, key x = k) (fst (sortFrom comparefn todo before r))
      = filter (λ x, key x = k) (reverse before ++ todo)
    ∧ snd (sortFrom comparefn todo before r) = r.
  Proof.
    revert before. induction todo as [|element todo IH]; intros before Hdesc;
      cbn [sortFrom].
    - cbn [fst snd]. rewrite app_nil_r. split; [by apply ascending_reverse|done].
    - pose proof (insertSorted_descending element before r Hdesc) as Hd.
      pose proof (insertSorted_stable element before r k Hdesc) as Hs.
      pose proof (insertSorted_rng element before r) as Hr.
      destruct (insertSorted comparefn element before r) as [before' r'].
      cbn [fst snd] in *. subst r'.
      destruct (IH before' Hd) as (Hasc & Hfil & Hrng).
      split; [done|]. split; [|done].
      rewrite Hfil, !list.filter_app, !filter_reverse, Hs.
      rewrite (filter_cons _ element).
      destruct (decide (key element = k)).
      + rewrite reverse_cons, (filter_cons_True _ element) by done.
        by rewrite <-app_assoc.
      + by rewrite (filter_cons_False _ element) by done.
  Qed.

  (** Sorting with a comparison by key gives the elements in ascending
      order of their keys, elements of equal key in the order given,
      and draws nothing. *)
Lemma sort_sorted l r (k : Z) :
    ascending key (fst (sort comparefn l r))
    ∧ filter (λ x, key x = k) (fst (sort comparefn l r)) = filter (λ x, key x = k) l
    ∧ snd (sort comparefn l r) = r.
  Proof.
    unfold sort. destruct (sortFrom_sorted l [] r k) as (Hasc & Hfil & Hr).
    - apply ascending_nil.
    - done.
  Qed.
End SortByKey.

Lemma sortAge_comparesBy : comparesBy age sortAge.
Proof. intros a b r. unfold sortAge, age. done. Qed.

(** Strategy [age] walks the candidates oldest first: in ascending order
    of height, the unconfirmed ones (height -1) last, as if of height
    2147483647. The candidates walked are a permutation of the coins
    given. *)
Theorem init_age_oldest_first `{Env} (s s1 : CoinSelector.t) (coins0 : list Coin.t)
    (rng : Rng) :
  CoinSelector.selection s = "age" →
  CoinSelector.init s coins0 rng = Ok s1 →
  ascending age (CoinSelector.coins s1)
  ∧ CoinSelector.coins s1 ≡ₚ coins0.
Proof.
  intros Hage. unfold CoinSelector.init.
  cbn [CoinSelector.selection CoinSelector.update CoinSelector.coins].
  rewrite Hage. rewrite decide_False by (intros [?|?]; done).
  rewrite decide_True by done. intros [= <-].
  cbn [CoinSelector.coins CoinSelector.update].
  split.
  - by destruct (sort_sorted age sortAge sortAge_comparesBy coins0 rng 0) as (? & _).
  - apply sort_Permutation.
Qed.


(** ** More of the mutable transaction *)
Section CloneAndSubtract.
Context `{Env}.

Lemma clone_inputs (ins : list Input.t) m0 :
    foldl (λ acc i, MTX.addInput acc (MTX.OfInput i)) m0 ins
    = MTX.set_inputs m0 (MTX.inputs m0 ++ ins).
  Proof.
    revert m0. induction ins as [|i ins IH]; intros m0; cbn [foldl].
    - rewrite app_nil_r. by destruct m0.
    - rewrite IH. cbn [MTX.addInput MTX.set_inputs MTX.inputs MTX.version MTX.flag
                       MTX.outputs MTX.locktime MTX.changeIndex MTX.view].
      by rewrite <-app_assoc.
  Qed.

Lemma clone_outputs (outs : list Output.t) m0 :
    foldl (λ acc o, a ← acc;
                    MTX.addOutput a (MTX.ToScript (Output.script o)) (Output.value o))
          (Ok m0) outs
    = if bool_decide (Forall (λ o, 0 ≤ Output.value o) outs)
      then Ok (MTX.set_outputs m0 (MTX.outputs m0 ++ outs))
      else Throw (AssertionError "value >= 0").
  Proof.
    assert (Hthrow : ∀ (l : list Output.t) e,
      foldl (λ acc o, a ← acc;
                      MTX.addOutput a (MTX.ToScript (Output.script o)) (Output.value o))
            (Throw e) l = Throw e).
    { induction l as [|o l IH]; intros e; cbn [foldl mbind result_bind]; [done|].
      apply IH. }
    revert m0. induction outs as [|o outs IH]; intros m0; cbn [foldl].
    - rewrite bool_decide_eq_true_2 by constructor.
      rewrite app_nil_r. by destruct m0.
    - cbn [mbind result_bind]. unfold MTX.addOutput at 2, assert.
      destruct (decide (0 ≤ Output.value o)) as [Hv|Hv].
      + rewrite (bool_decide_eq_true_2 (0 ≤ Output.value o)) by done.
        cbn [mbind result_bind]. rewrite IH.
        cbn [MTX.outputs MTX.set_outputs]. rewrite <-app_assoc. cbn [app].
        destruct o as [v sc]. cbn [Output.value Output.script] in *.
        destruct (decide (Forall (λ o, 0 ≤ Output.value o) outs)) as [Hall|Hall].
        * rewrite !bool_decide_eq_true_2; [done| |done]. by constructor.
        * rewrite !bool_decide_eq_false_2; [done| |done].
          intros Hc. apply Hall. by inversion Hc.
      + rewrite (bool_decide_eq_false_2 (0 ≤ Output.value o)) by done.
        cbn [mbind result_bind]. rewrite Hthrow.
        rewrite bool_decide_eq_false_2; [done|]. intros Hc. apply Hv. by inversion Hc.
  Qed.

  (** What [clone] comes to: a copy with a new, empty view, provided no
      output has a negative value; an assertion error otherwise. *)
Lemma clone_eq m :
    MTX.clone m
    = if bool_decide (Forall (λ o, 0 ≤ Output.value o) (MTX.outputs m))
      then Ok (MTX.set_view m ∅)
      else Throw (AssertionError "value >= 0").
  Proof.
    unfold MTX.clone. rewrite clone_inputs, clone_outputs.
    destruct (bool_decide _); cbn [mbind result_bind]; [|done].
    cbn [MTX.set_outputs MTX.set_inputs MTX.inputs MTX.outputs MTX.version MTX.flag
         MTX.locktime MTX.changeIndex MTX.view app]. done.
  Qed.

  (** A clone has the version, flag, inputs, outputs, lock time and
      change index of the transaction, and a view of its own that holds
      no coin: of the coins its inputs spend it knows nothing. Cloning
      fails, on an assertion, exactly when an output has a negative
      value. *)
Theorem clone_forgets_coins (m : MTX.t) :
    match MTX.clone m with
    | Ok m' =>
        m' = MTX.set_view m ∅
        ∧ (∀ input, getOutput (MTX.view m') input = None)
        ∧ Forall (λ o, 0 ≤ Output.value o) (MTX.outputs m)
    | Throw e =>
        e = AssertionError "value >= 0"
        ∧ Exists (λ o, Output.value o < 0) (MTX.outputs m)
    end.
  Proof.
    rewrite clone_eq. case_bool_decide as Hall.
    - split; [done|]. split; [|done]. intros input. unfold getOutput.
      cbn [MTX.view MTX.set_view]. apply lookup_empty.
    - split; [done|]. apply not_Forall_Exists in Hall; [|intros o; apply _].
      eapply Exists_impl; [|exact Hall]. cbn. intros o Ho. lia.
  Qed.

Lemma getOutputValue_reduced (outs : list Output.t) (i : nat) o fee :
    outs !! i = Some o →
    foldr (λ o acc, Output.value o + acc) 0 (<[i := reduced fee o]> outs)
    = foldr (λ o acc, Output.value o + acc) 0 outs - fee.
  Proof.
    revert i. induction outs as [|o' outs IH]; intros i Hi;
      [by rewrite lookup_nil in Hi|].
    destruct i as [|i].
    - injection Hi as ->.
      change (<[0%nat := reduced fee o]> (o :: outs)) with (reduced fee o :: outs).
      cbn [foldr reduced Output.value]. lia.
    - change (<[S i := reduced fee o]> (o' :: outs))
        with (o' :: <[i := reduced fee o]> outs).
      cbn [foldr]. rewrite (IH i Hi). lia.
  Qed.

Lemma subtractFee_Ok m fee index m' :
    MTX.subtractFee m fee index = Ok m' →
    ∃ (i : nat) o,
      MTX.outputs m !! i = Some o
      ∧ m' = MTX.set_outputs m (<[i := reduced fee o]> (MTX.outputs m))
      ∧ absorbs fee o.
  Proof.
    assert (Hloop : ∀ addrs,
      match MTX.subtractFirst addrs fee (MTX.outputs m) with
      | None => Throw (Error "Could not subtract fee.")
      | Some outs => Ok (MTX.set_outputs m outs)
      end = Ok m' →
      ∃ (i : nat) o,
        MTX.outputs m !! i = Some o
        ∧ m' = MTX.set_outputs m (<[i := reduced fee o]> (MTX.outputs m))
        ∧ absorbs fee o).
    { intros addrs.
      destruct (MTX.subtractFirst addrs fee (MTX.outputs m)) as [outs|] eqn:Hsub; [|done].
      intros [= <-].
      destruct (subtractFirst_Some _ _ _ _ Hsub) as (i & o & Hi & -> & _ & Ha & _).
      by exists i, o. }
    unfold MTX.subtractFee.
    destruct index as [[b|k|a|l]|]; try apply Hloop.
    unfold MTX.nth. case_decide as Hk; [|done].
    destruct (MTX.outputs m !! Z.to_nat k) as [o|] eqn:Ho; [|done].
    case_decide as Hmin; [done|]. intros [= <-].
    exists (Z.to_nat k), o. split; [done|]. split; [done|]. unfold absorbs. lia.
  Qed.

  (** A fee subtraction that returns has taken exactly the fee off the
      total of the outputs. The number of the outputs and their scripts
      are as before, the inputs, the view and with them the input value
      are untouched, and some output could absorb the fee. *)
Theorem subtractFee_conserves (m m' : MTX.t) (fee : Z) (index : option SubtractFee) :
    MTX.subtractFee m fee index = Ok m' →
    MTX.getOutputValue m' = MTX.getOutputValue m - fee
    ∧ Output.script <$> MTX.outputs m' = Output.script <$> MTX.outputs m
    ∧ MTX.inputs m' = MTX.inputs m
    ∧ MTX.view m' = MTX.view m
    ∧ MTX.getInputValue m' = MTX.getInputValue m
    ∧ ∃ o, o ∈ MTX.outputs m ∧ absorbs fee o.
  Proof.
    intros (i & o & Hi & -> & Habs)%subtractFee_Ok.
    split; [|split; [|split; [|split; [|split]]]]; try done.
    - unfold MTX.getOutputValue, TX.getOutputValue.
      cbn [MTX.toTX TX.outputs MTX.outputs MTX.set_outputs].
      by apply getOutputValue_reduced.
    - cbn [MTX.outputs MTX.set_outputs]. rewrite list_fmap_insert.
      cbn [reduced Output.script]. apply list_insert_id.
      by rewrite list_lookup_fmap, Hi.
    - exists o. split; [by eapply list_elem_of_lookup_2|done].
  Qed.
End CloneAndSubtract.


(** ** Funding reconciles *)
Section FundReconciles.
Context `{Env}.

  (** A coin added to the view by [addCoin] is found under its
      outpoint, whatever the view held before. *)
Lemma lookup_foldl_addCoin (cs : list Coin.t) (v1 v2 : CoinView) k :
    v1 !! k = v2 !! k ∨ k ∈ (Outpoint.key ∘ Coin.outpoint) <$> cs →
    foldl addCoin v1 cs !! k = foldl addCoin v2 cs !! k.
  Proof.
    revert v1 v2. induction cs as [|c cs IH]; intros v1 v2; cbn [foldl].
    - intros [?|Hin]; [done|]. by apply elem_of_nil in Hin.
    - intros Hk. apply IH. rewrite fmap_cons in Hk.
      destruct Hk as [Hk|[Hk|Hk]%elem_of_cons]; [| |by right].
      + left. unfold addCoin.
        destruct (decide (Outpoint.key (Coin.outpoint c) = k)) as [->|Hne].
        * by rewrite !lookup_insert_eq.
        * by rewrite !lookup_insert_ne.
      + left. unfold addCoin. cbn in Hk. subst k. by rewrite !lookup_insert_eq.
  Qed.

Lemma lookup_foldl_addCoin_Some (cs : list Coin.t) (v : CoinView) k :
    is_Some (v !! k) ∨ k ∈ (Outpoint.key ∘ Coin.outpoint) <$> cs →
    is_Some (foldl addCoin v cs !! k).
  Proof.
    revert v. induction cs as [|c cs IH]; intros v; cbn [foldl].
    - intros [?|Hin]; [done|]. by apply elem_of_nil in Hin.
    - intros Hk. apply IH. rewrite fmap_cons in Hk.
      destruct Hk as [Hk|[Hk|Hk]%elem_of_cons]; [| |by right].
      + left. unfold addCoin.
        destruct (decide (Outpoint.key (Coin.outpoint c) = k)) as [->|Hne].
        * by rewrite lookup_insert_eq.
        * by rewrite lookup_insert_ne.
      + left. unfold addCoin. cbn in Hk. subst k. by rewrite lookup_insert_eq.
  Qed.

Lemma sumInputs_ext (v1 v2 : CoinView) (ins : list Input.t) :
    (∀ i, i ∈ ins → getOutput v1 i = getOutput v2 i) →
    TX.sumInputs v1 ins = TX.sumInputs v2 ins.
  Proof.
    induction ins as [|i ins IH]; intros Hext; cbn [TX.sumInputs]; [done|].
    rewrite (Hext i) by apply list_elem_of_here.
    rewrite IH; [done|]. intros j Hj. apply Hext. by apply list_elem_of_further.
  Qed.

Lemma hasCoins_true (tx : TX.t) (v : CoinView) :
    TX.inputs tx ≠ [] →
    (∀ i, i ∈ TX.inputs tx → is_Some (getOutput v i)) →
    TX.hasCoins tx v = true.
  Proof.
    intros Hne Hall. unfold TX.hasCoins.
    rewrite bool_decide_eq_true_2 by done. cbn [andb].
    apply forallb_forall. intros i Hi. apply bool_decide_eq_true.
    apply Hall. by apply list_elem_of_In.
  Qed.

  (** The value of the inputs that spend the coins [cs], each added
      with its coin. *)
Lemma inputValue_of_coins (m1 m2 : MTX.t) (cs : list Coin.t) v1 v2 :
    MTX.inputs m1 = Input.fromCoin <$> cs → MTX.view m1 = foldl addCoin v1 cs →
    MTX.inputs m2 = Input.fromCoin <$> cs → MTX.view m2 = foldl addCoin v2 cs →
    MTX.getInputValue m1 = MTX.getInputValue m2.
  Proof.
    intros Hi1 Hv1 Hi2 Hv2. unfold MTX.getInputValue, TX.getInputValue.
    cbn [MTX.toTX TX.inputs]. rewrite Hi1, Hv1, Hi2, Hv2. f_equal.
    apply sumInputs_ext. intros i (c & -> & Hc)%list_elem_of_fmap.
    unfold getOutput. cbn [Input.fromCoin Input.prevout].
    apply lookup_foldl_addCoin. right.
    apply list_elem_of_fmap. by exists c.
  Qed.

Lemma getFee_of_coins (m : MTX.t) (cs : list Coin.t) v :
    cs ≠ [] →
    MTX.inputs m = Input.fromCoin <$> cs → MTX.view m = foldl addCoin v cs →
    MTX.getFee m = MTX.getInputValue m - MTX.getOutputValue m.
  Proof.
    intros Hne Hi Hv. unfold MTX.getFee, TX.getFee.
    rewrite hasCoins_true; [done| |].
    - cbn [MTX.toTX TX.inputs]. rewrite Hi. by destruct cs.
    - cbn [MTX.toTX TX.inputs]. rewrite Hi, Hv.
      intros i (c & -> & Hc)%list_elem_of_fmap.
      unfold getOutput. cbn [Input.fromCoin Input.prevout].
      apply lookup_foldl_addCoin_Some. right.
      apply list_elem_of_fmap. by exists c.
  Qed.

Lemma foldl_addInput_coins (m : MTX.t) (cs : list Coin.t) :
    foldl (λ m coin, MTX.addInput m (MTX.OfCoin coin)) m cs
    = MTX.set_inputs (MTX.set_view m (foldl addCoin (MTX.view m) cs))
                     (MTX.inputs m ++ (Input.fromCoin <$> cs)).
  Proof.
    revert m. induction cs as [|c cs IH]; intros m; cbn [foldl].
    - cbn [fmap list_fmap]. rewrite app_nil_r. by destruct m.
    - rewrite IH. cbn [MTX.addInput MTX.set_inputs MTX.set_view MTX.inputs MTX.view
                       MTX.version MTX.flag MTX.outputs MTX.locktime MTX.changeIndex].
      by rewrite fmap_cons, <-app_assoc.
  Qed.

Lemma getOutputValue_snoc (m : MTX.t) (outs : list Output.t) o :
    MTX.getOutputValue (MTX.set_outputs m (outs ++ [o]))
    = MTX.getOutputValue (MTX.set_outputs m outs) + Output.value o.
  Proof.
    unfold MTX.getOutputValue, TX.getOutputValue.
    cbn [MTX.toTX TX.outputs MTX.outputs MTX.set_outputs].
    induction outs as [|o' outs IH]; cbn [app foldr]; lia.
  Qed.

Lemma fromOptions_tx s options s' :
    CoinSelector.fromOptions s options = Ok s' →
    CoinSelector.tx s' = CoinSelector.tx s.
  Proof.
    unfold CoinSelector.fromOptions.
    destruct (match CoinSelector.opt_subtractFee options with
              | Some sf => _ | None => _ end) as [sf should].
    intros Hb.
    repeat (apply bind_Ok in Hb as (? & _ & Hb)).
    by injection Hb as <-.
  Qed.

Lemma new_tx m options s :
    CoinSelector.new m options = Ok s →
    CoinSelector.tx s = MTX.set_view m ∅.
  Proof.
    unfold CoinSelector.new. rewrite clone_eq.
    case_bool_decide; cbn [mbind result_bind]; [|done].
    destruct options as [options|].
    - intros Hfrom%fromOptions_tx. by rewrite Hfrom.
    - by intros [= <-].
  Qed.
End FundReconciles.


Section FundTheorems.
Context `{Env}.

Lemma selectCoins_facts m coins options rng select :
    selectCoins m coins (Some options) rng = Ok select →
    MTX.inputs (CoinSelector.tx select) = Input.fromCoin <$> CoinSelector.chosen select
    ∧ MTX.view (CoinSelector.tx select) = foldl addCoin ∅ (CoinSelector.chosen select)
    ∧ CoinSelector.total select ≤ MTX.getInputValue (CoinSelector.tx select)
    ∧ CoinSelector.change select
      = MTX.getInputValue (CoinSelector.tx select) - CoinSelector.total select
    ∧ CoinSelector.outputValue select = MTX.getOutputValue m.
  Proof.
    unfold selectCoins. intros (s0 & Hnew & Hsel)%bind_Ok.
    apply new_tx in Hnew.
    apply select_Ok_accumulated in Hsel as (s2 & Hacc & Hfull & ->).
    destruct (accumulated_tracks _ _ _ _ Hacc) as [Hin Hview].
    destruct (accumulated_frame _ _ _ _ Hacc) as [_ Hout].
    rewrite Hnew in Hview, Hout.
    cbn [CoinSelector.tx CoinSelector.chosen CoinSelector.change
         CoinSelector.outputValue CoinSelector.set_change CoinSelector.update].
    split; [done|]. split; [done|].
    apply bool_decide_eq_true in Hfull.
    split; [exact Hfull|]. split; [done|]. exact Hout.
  Qed.

  (** Once coins are selected for a transaction without inputs, [fund]
      fails only if the fee is to be subtracted from an output and
      [subtractFee] fails, with the error of [subtractFee]; otherwise it
      returns. The two closing assertions on the fee of the funded
      transaction hold by construction whenever a coin was chosen, be
      the change kept or dropped. *)
Theorem fund_reconciles (m : MTX.t) (coins : list Coin.t)
      (options : CoinSelector.Options) (rng : Rng) (select : CoinSelector.t) :
    match CoinSelector.opt_changeAddress options with
    | Some (inl str) => str ≠ ""
    | Some (inr _) => True
    | None => False
    end →
    MTX.inputs m = [] →
    selectCoins m coins (Some options) rng = Ok select →
    CoinSelector.chosen select ≠ [] →
    let filled := foldl (λ m coin, MTX.addInput m (MTX.OfCoin coin))
                        m (CoinSelector.chosen select) in
    match (if CoinSelector.shouldSubtract select
           then MTX.subtractFee filled (CoinSelector.fee select)
                  (CoinSelector.subtractFee select)
           else Ok filled) with
    | Ok _ => ∃ m', fund m coins (Some options) rng = Ok (m', select)
    | Throw e => fund m coins (Some options) rng = Throw e
    end.
  Proof.
    intros Hca Hempty Hsel Hne filled.
    destruct (selectCoins_facts _ _ _ _ _ Hsel) as (Hin & Hview & Hfull & Hchange & Hout).
    unfold fund.
    replace (match CoinSelector.opt_changeAddress options with
             | Some (inl str) => negb (bool_decide (str = ""))
             | Some (inr _) => true
             | None => false
             end) with true
      by (destruct (CoinSelector.opt_changeAddress options) as [[str|a]|];
          [by rewrite bool_decide_eq_false_2|done|done]).
    cbn [assert mbind result_bind].
    rewrite bool_decide_eq_true_2 by done. cbn [mbind result_bind].
    rewrite Hsel. cbn [mbind result_bind]. fold filled.
    assert (Hfilled : MTX.inputs filled = Input.fromCoin <$> CoinSelector.chosen select
                      ∧ MTX.view filled
                        = foldl addCoin (MTX.view m) (CoinSelector.chosen select)
                      ∧ MTX.outputs filled = MTX.outputs m).
    { subst filled. rewrite foldl_addInput_coins.
      cbn [MTX.inputs MTX.view MTX.outputs MTX.set_inputs MTX.set_view].
      by rewrite Hempty. }
    destruct Hfilled as (Hfin & Hfview & Hfout).
    set (IN := MTX.getInputValue (CoinSelector.tx select)) in *.
    (* the transaction the change is added to *)
    assert (Hfunded : ∀ funded,
      MTX.inputs funded = MTX.inputs filled → MTX.view funded = MTX.view filled →
      MTX.getOutputValue funded + CoinSelector.change select + CoinSelector.fee select
      = IN →
      ∃ m',
        (m ← MTX.addOutput funded
               (match CoinSelector.changeAddress select with
                | Some a => MTX.ToAddress a
                | None => MTX.ToScript {| Script.code := []; Script.raw := [] |}
                end) (CoinSelector.change select);
         match MTX.nth (MTX.outputs m) (Z.of_nat (length (MTX.outputs m)) - 1) with
         | None => Throw (TypeError "Cannot read property of undefined")
         | Some change =>
             if isDust change (Some MIN_RELAY) then
               let m := MTX.set_outputs m (removelast (MTX.outputs m)) in
               let m := MTX.set_changeIndex m (-1) in
               assert_equal (MTX.getFee m)
                 (CoinSelector.fee select + CoinSelector.change select);;
               Ok (m, select)
             else
               let m := MTX.set_changeIndex m (Z.of_nat (length (MTX.outputs m)) - 1) in
               assert_equal (MTX.getFee m) (CoinSelector.fee select);;
               Ok (m, select)
         end) = Ok (m', select)).
    { intros funded Hi Hv Hsum.
      assert (Hpos : 0 ≤ CoinSelector.change select) by lia.
      unfold MTX.addOutput, assert. rewrite bool_decide_eq_true_2 by done.
      cbn [mbind result_bind]. cbn [MTX.outputs MTX.set_outputs].
      rewrite nth_last.
      set (chg := {| Output.value := CoinSelector.change select; Output.script := _ |}).
      assert (Hfee : ∀ final,
        MTX.inputs final = MTX.inputs funded → MTX.view final = MTX.view funded →
        MTX.getFee final = IN - MTX.getOutputValue final).
      { intros final Hfi Hfv.
        rewrite (getFee_of_coins _ (CoinSelector.chosen select) (MTX.view m));
          [|done| |].
        - f_equal. subst IN. eapply inputValue_of_coins; [| |exact Hin|exact Hview].
          + by rewrite Hfi, Hi.
          + by rewrite Hfv, Hv.
        - by rewrite Hfi, Hi.
        - by rewrite Hfv, Hv. }
      destruct (isDust chg (Some MIN_RELAY)).
      - cbn zeta. cbn [MTX.outputs MTX.set_outputs]. rewrite removelast_last.
        rewrite Hfee by done.
        change (MTX.getOutputValue _) with (MTX.getOutputValue funded).
        unfold assert_equal.
        rewrite decide_True by lia. cbn [mbind result_bind]. eauto.
      - cbn zeta. rewrite Hfee by done.
        change (MTX.getOutputValue _)
          with (MTX.getOutputValue (MTX.set_outputs funded (MTX.outputs funded ++ [chg]))).
        rewrite getOutputValue_snoc.
        change (MTX.getOutputValue (MTX.set_outputs funded (MTX.outputs funded)))
          with (MTX.getOutputValue funded).
        unfold assert_equal. rewrite decide_True by (subst chg; cbn [Output.value]; lia).
        cbn [mbind result_bind]. eauto. }
    assert (Hfilled_out : MTX.getOutputValue filled = MTX.getOutputValue m).
    { unfold MTX.getOutputValue, TX.getOutputValue. cbn [MTX.toTX TX.outputs].
      by rewrite Hfout. }
    unfold CoinSelector.total in Hfull, Hchange.
    destruct (CoinSelector.shouldSubtract select) eqn:Hsub.
    - destruct (MTX.subtractFee filled _ _) as [funded|e] eqn:Hs;
        cbn [mbind result_bind]; [|done].
      destruct (subtractFee_Ok _ _ _ _ Hs) as (i & o & Hi & Hf & _).
      apply Hfunded.
      + by rewrite Hf.
      + by rewrite Hf.
      + assert (Hred : MTX.getOutputValue funded
                       = MTX.getOutputValue filled - CoinSelector.fee select).
        { rewrite Hf. unfold MTX.getOutputValue, TX.getOutputValue.
          cbn [MTX.toTX TX.outputs MTX.outputs MTX.set_outputs].
          by rewrite (getOutputValue_reduced _ _ _ _ Hi). }
        rewrite Hred, Hfilled_out. lia.
    - cbn [mbind result_bind]. apply Hfunded; [done|done|].
      rewrite Hfilled_out. lia.
  Qed.
End FundTheorems.


Section FundFrame.
Context `{Env}.

Lemma assert_Ok b msg u : assert b msg = Ok u → b = true.
  Proof. by destruct b. Qed.

  (** A transaction that [fund] has funded spends the chosen coins and
      no others, one input for each in the order chosen, with every
      chosen coin in its view, so that its input value is the one the
      selector counted. The outputs it had keep their places and
      scripts, and their values too unless the fee is subtracted from
      one of them; at most one output, the change, comes after them. *)
Theorem fund_spends_chosen (m m' : MTX.t) (coins : list Coin.t)
      (options : option CoinSelector.Options) (rng : Rng) (select : CoinSelector.t) :
    fund m coins options rng = Ok (m', select) →
    MTX.inputs m' = Input.fromCoin <$> CoinSelector.chosen select
    ∧ MTX.view m' = foldl addCoin (MTX.view m) (CoinSelector.chosen select)
    ∧ MTX.getInputValue m' = MTX.getInputValue (CoinSelector.tx select)
    ∧ Output.script <$> take (length (MTX.outputs m)) (MTX.outputs m')
      = Output.script <$> MTX.outputs m
    ∧ (CoinSelector.shouldSubtract select = false →
         take (length (MTX.outputs m)) (MTX.outputs m') = MTX.outputs m)
    ∧ (length (MTX.outputs m) ≤ length (MTX.outputs m') ≤ length (MTX.outputs m) + 1)%nat.
  Proof.
    unfold fund. destruct options as [options|]; [|done].
    intros (_ & _ & Hfund)%bind_Ok.
    apply bind_Ok in Hfund as (u & Hempty%assert_Ok & Hfund).
    apply bool_decide_eq_true in Hempty.
    apply bind_Ok in Hfund as (sel & Hsel & Hfund).
    destruct (selectCoins_facts _ _ _ _ _ Hsel) as (Hin & Hview & _).
    set (filled := foldl _ m (CoinSelector.chosen sel)) in Hfund.
    assert (Hfilled : MTX.inputs filled = Input.fromCoin <$> CoinSelector.chosen sel
                      ∧ MTX.view filled
                        = foldl addCoin (MTX.view m) (CoinSelector.chosen sel)
                      ∧ MTX.outputs filled = MTX.outputs m).
    { subst filled. rewrite foldl_addInput_coins.
      cbn [MTX.inputs MTX.view MTX.outputs MTX.set_inputs MTX.set_view].
      by rewrite Hempty. }
    destruct Hfilled as (Hfin & Hfview & Hfout).
    apply bind_Ok in Hfund as (funded & Hsub & Hfund).
    assert (Hfunded : MTX.inputs funded = MTX.inputs filled
                      ∧ MTX.view funded = MTX.view filled
                      ∧ Output.script <$> MTX.outputs funded
                        = Output.script <$> MTX.outputs filled
                      ∧ (CoinSelector.shouldSubtract sel = false →
                           MTX.outputs funded = MTX.outputs filled)).
    { destruct (CoinSelector.shouldSubtract sel).
      - destruct (subtractFee_Ok _ _ _ _ Hsub) as (i & o & Hi & -> & _).
        cbn [MTX.inputs MTX.view MTX.outputs MTX.set_outputs].
        split; [done|]. split; [done|]. split; [|done].
        rewrite list_fmap_insert. cbn [reduced Output.script].
        apply list_insert_id. by rewrite list_lookup_fmap, Hi.
      - by injection Hsub as <-. }
    destruct Hfunded as (Hi & Hv & Hscripts & Hsame).
    apply bind_Ok in Hfund as (added & Hadd & Hfund).
    apply addOutput_Ok in Hadd as [_ ->].
    revert Hfund. cbn [MTX.outputs MTX.set_outputs]. rewrite nth_last.
    set (chg := {| Output.value := CoinSelector.change sel; Output.script := _ |}).
    assert (Hlen : length (MTX.outputs funded) = length (MTX.outputs m)).
    { by rewrite <-Hfout, <-(length_fmap Output.script), Hscripts, length_fmap. }
    assert (Hresult : ∀ final,
      MTX.inputs final = MTX.inputs funded → MTX.view final = MTX.view funded →
      (MTX.outputs final = MTX.outputs funded
       ∨ MTX.outputs final = MTX.outputs funded ++ [chg]) →
      MTX.inputs final = Input.fromCoin <$> CoinSelector.chosen sel
      ∧ MTX.view final = foldl addCoin (MTX.view m) (CoinSelector.chosen sel)
      ∧ MTX.getInputValue final = MTX.getInputValue (CoinSelector.tx sel)
      ∧ Output.script <$> take (length (MTX.outputs m)) (MTX.outputs final)
        = Output.script <$> MTX.outputs m
      ∧ (CoinSelector.shouldSubtract sel = false →
           take (length (MTX.outputs m)) (MTX.outputs final) = MTX.outputs m)
      ∧ (length (MTX.outputs m) ≤ length (MTX.outputs final)
         ≤ length (MTX.outputs m) + 1)%nat).
    { intros final Hfi Hfv Hfo.
      assert (Htake : take (length (MTX.outputs m)) (MTX.outputs final)
                      = MTX.outputs funded).
      { rewrite <-Hlen. destruct Hfo as [-> | ->].
        - by rewrite firstn_all.
        - by rewrite take_app_length. }
      split; [by rewrite Hfi, Hi, Hfin|].
      split; [by rewrite Hfv, Hv, Hfview|].
      split.
      { eapply inputValue_of_coins; [| |exact Hin|exact Hview].
        - by rewrite Hfi, Hi, Hfin.
        - by rewrite Hfv, Hv, Hfview. }
      rewrite Htake. split; [by rewrite Hscripts, Hfout|].
      split; [intros Hno; by rewrite Hsame, Hfout|].
      destruct Hfo as [-> | ->]; [|rewrite length_app; cbn [length]]; lia. }
    destruct (isDust chg (Some MIN_RELAY)).
    - cbn zeta. cbn [MTX.outputs MTX.set_outputs]. rewrite removelast_last.
      intros (_ & _ & [= <- <-])%bind_Ok. apply Hresult; [done|done|by left].
    - cbn zeta. intros (_ & _ & [= <- <-])%bind_Ok.
      apply Hresult; [done|done|by right].
  Qed.
End FundFrame.


(** ** Signing and testing for signatures *)
Section TestMultisig.
Context (prev : Script.t) (m : Z) (ks : list Buffer).
Hypothesis Hms : Script.isMultisig prev = true.
Hypothesis Hcode : Script.code prev = multisigCode m ks.
Hypothesis Hm : 1 ≤ m ≤ Z.of_nat (length ks).
Hypothesis Hn : Z.of_nat (length ks) ≤ 16.

Lemma forall_from pre body raw :
    forallb (λ i, Script.isSignature (Script.get (vectorOf (pre ++ body) raw) i))
            (seqZ (Z.of_nat (length pre)) (Z.of_nat (length body)))
    = forallb isSignatureOp body.
  Proof.
    revert pre. induction body as [|op body IH]; intros pre.
    { by rewrite seqZ_nil by (cbn [length]; lia). }
    rewrite seqZ_cons by (cbn [length]; lia). cbn [forallb].
    rewrite vectorOf_get, lookup_app_r, Nat.sub_diag by lia.
    cbn [lookup list_lookup fmap option_fmap option_map].
    replace (Z.succ (Z.of_nat (length pre))) with (Z.of_nat (length (pre ++ [op])))
      by (rewrite length_app; cbn [length]; lia).
    replace (Z.pred (Z.of_nat (length (op :: body)))) with (Z.of_nat (length body))
      by (cbn [length]; lia).
    replace (pre ++ op :: body) with ((pre ++ [op]) ++ body) by (by rewrite <-app_assoc).
    by rewrite IH.
  Qed.

Lemma isVectorSigned_vectorOf op body raw :
    isVectorSigned prev (vectorOf (op :: body) raw)
    = forallb isSignatureOp body && bool_decide (Z.of_nat (length body) = m).
  Proof.
    unfold isVectorSigned.
    rewrite (ms_not_pubkey prev m ks Hcode), (ms_not_pubkeyhash prev m ks Hcode Hm Hn).
    rewrite Hms, (ms_getSmall_0 prev m ks Hcode Hm Hn).
    cbn [vec_length vec_get Script_Vector]. rewrite vectorOf_length. cbn [length].
    replace (Z.of_nat (S (length body)) - 1) with (Z.of_nat (length body)) by lia.
    pose proof (forall_from [op] body raw) as Hf.
    change (seqZ (Z.of_nat (length [op])) (Z.of_nat (length body)))
      with (seqZ 1 (Z.of_nat (length body))) in Hf.
    change ([op] ++ body) with (op :: body) in Hf. rewrite Hf.
    destruct (forallb isSignatureOp body); cbn [negb andb]; [|done].
    by destruct (bool_decide (Z.of_nat (length body) = m)).
  Qed.

Lemma forallb_slots slots :
    validSlots slots →
    forallb isSignatureOp (slotOp <$> slots) = true → omap id slots = omap id slots
    ∧ filled slots = Z.of_nat (length slots).
  Proof.
    intros Hvalid Hall. split; [done|]. unfold filled. f_equal.
    induction slots as [|slot slots IH]; [done|].
    unfold validSlots in Hvalid.
    apply list.Forall_cons in Hvalid as [Hslot Hvalid].
    rewrite fmap_cons in Hall. cbn [forallb] in Hall.
    apply andb_true_iff in Hall as [Hhead Hall].
    rewrite (isSignatureOp_slot slot Hslot) in Hhead.
    apply bool_decide_eq_true in Hhead as [sig ->].
    cbn [omap list_omap id length]. f_equal. by apply IH.
  Qed.

  (** A vector in which fewer than m slots hold a signature is not
      signed. *)
Lemma isVectorSigned_slots slots raw :
    validSlots slots → filled slots < m →
    isVectorSigned prev (vectorOf (slotsOps slots) raw) = false.
  Proof.
    intros Hvalid Hlt. unfold slotsOps. rewrite isVectorSigned_vectorOf.
    destruct (forallb isSignatureOp (slotOp <$> slots)) eqn:Hall; [|done].
    destruct (forallb_slots slots Hvalid Hall) as [_ Hfilled].
    rewrite length_fmap. rewrite bool_decide_eq_false_2 by lia. done.
  Qed.

  (** A vector of the marker and m signatures is signed. *)
Lemma isVectorSigned_signed sigs raw :
    Forall validSignature sigs → Z.of_nat (length sigs) = m →
    isVectorSigned prev (vectorOf (signedOps sigs) raw) = true.
  Proof.
    intros Hvalid Hlen. unfold signedOps. rewrite isVectorSigned_vectorOf.
    rewrite length_fmap, bool_decide_eq_true_2 by done. rewrite andb_true_r.
    apply forallb_forall. intros op (sig & <- & Hin)%in_map_iff.
    rewrite Forall_forall in Hvalid. specialize (Hvalid sig Hin).
    change (Script.Push sig) with (slotOp (Some sig)).
    rewrite isSignatureOp_slot; [by apply bool_decide_eq_true|].
    by intros sig' [= <-].
  Qed.

  (** On a vector of slots that lacks signatures, the answer of
      [signVector] is the answer [isVectorSigned] gives for the vector
      it leaves. *)
Lemma signVector_agrees slots raw ring sig :
    length slots = length ks → validSlots slots → validSignature sig →
    publicKey ring ∈ ks → filled slots < m →
    ∃ ok vector',
      MTX.signVector prev (vectorOf (slotsOps slots) raw) sig ring = Ok (ok, vector')
      ∧ isVectorSigned prev vector' = ok
      ∧ (ok = true ↔ filled slots + 1 = m
                      ∧ slots !! keySlot ks (publicKey ring) = Some None).
  Proof.
    intros Hlen Hvalid Hsig Hkey Hlt.
    rewrite (signVector_slots prev m ks Hms Hcode Hm Hn slots raw ring sig)
      by done.
    cbn zeta. set (p := keySlot ks (publicKey ring)).
    destruct (slots !! p) as [[old|]|] eqn:Hp.
    - rewrite decide_False by lia. eexists _, _. split; [done|]. split.
      + by apply isVectorSigned_slots.
      + split; [done|]. by intros [_ ?].
    - assert (Hfilled : filled (<[p := Some sig]> slots) = filled slots + 1)
        by by apply filled_insert.
      assert (Hvalid' : validSlots (<[p := Some sig]> slots))
        by by apply validSlots_insert.
      case_decide as Hfull; eexists _, _; (split; [done|]); split.
      + apply isVectorSigned_signed; [by apply validSlots_signatures|].
        exact Hfull.
      + split; [intros _; split; [lia|done]|done].
      + apply isVectorSigned_slots; [done|lia].
      + split; [done|]. intros [? _]. lia.
    - rewrite decide_False by lia. eexists _, _. split; [done|]. split.
      + by apply isVectorSigned_slots.
      + split; [done|]. by intros [_ ?].
  Qed.
End TestMultisig.


(** For a bare multisig script and a vector of slots that lacks
    signatures, [signVector] and [isVectorSigned] agree: the vector is
    not signed before; the answer of [signVector] with a key of the
    script is the answer [isVectorSigned] gives for the vector it
    leaves; and that answer is [true] exactly when the slot of the key
    was empty and its signature is the last one missing. *)
Theorem signVector_agrees_isVectorSigned (prev : Script.t)
    (slots : list (option Buffer)) (raw sig : Buffer) (ring : KeyRing) :
  Script.isMultisig prev = true →
  length slots = length (multisigKeys prev) →
  validSlots slots → validSignature sig →
  publicKey ring ∈ multisigKeys prev →
  filled slots < Script.getSmall prev 0 →
  isVectorSigned prev (vectorOf (slotsOps slots) raw) = false
  ∧ ∃ ok vector',
      MTX.signVector prev (vectorOf (slotsOps slots) raw) sig ring = Ok (ok, vector')
      ∧ isVectorSigned prev vector' = ok
      ∧ (ok = true ↔ filled slots + 1 = Script.getSmall prev 0
                      ∧ slots !! keySlot (multisigKeys prev) (publicKey ring)
                        = Some None).
Proof.
  intros Hms Hlen Hvalid Hsig Hkey Hlt.
  destruct (isMultisig_inv prev Hms) as (m & ks & Hcode & Hm & Hn & Hks).
  rewrite (ms_multisigKeys prev m ks Hcode) in *.
  rewrite (ms_getSmall_0 prev m ks Hcode Hm Hn) in *.
  split.
  - by apply (isVectorSigned_slots prev m ks Hms Hcode Hm Hn).
  - by apply (signVector_agrees prev m ks Hms Hcode Hm Hn).
Qed.

Section KeyScripts.
Context {V : Type} `{Vector V}.

Lemma signVector_keyed (prev : Script.t) (vector vector' : V) (sig : Buffer)
      (ring : KeyRing) (ok : bool) :
    (∀ v v1 v2 : V, vec_set v 0 (Buf sig) = Ok v1 → vec_compile v1 = Ok v2 →
                    vec_get v2 0 = Some (Buf sig)) →
    validSignature sig →
    Script.isPubkey prev = true ∨ Script.isPubkeyhash prev = true →
    MTX.signVector prev vector sig ring = Ok (ok, vector') →
    (ok = true →
       isVectorSigned prev vector' = true
       ∧ ∀ sig', MTX.signVector prev vector' sig' ring = Ok (true, vector'))
    ∧ (ok = false → vector' = vector).
  Proof.
    intros Hset Hsig Hprev.
    assert (Hvalid : Script.isSignature (Some (Buf sig)) = true).
    { cbn [Script.isSignature]. by apply bool_decide_eq_true. }
    unfold MTX.signVector, isVectorSigned.
    destruct (Script.isPubkey prev) eqn:Hpk.
    - destruct (equal _ _) eqn:Hmine; cbn [negb].
      + destruct (Script.isSignature (vec_get vector 0)) eqn:Hsigned.
        * intros [= <- <-]. split; [|done]. intros _.
          rewrite Hsigned. split; [done|]. done.
        * destruct (bool_decide (vec_getSmall vector 0 = 0)); cbn [negb]; [|done].
          intros (v1 & Hv1 & (v2 & Hv2 & [= <- <-])%bind_Ok)%bind_Ok.
          rewrite (Hset _ _ _ Hv1 Hv2), Hvalid. split; [|done]. done.
      + intros [= <- <-]. split; [done|]. done.
    - destruct Hprev as [?|Hpkh]; [done|]. rewrite Hpkh.
      destruct (equal _ _) eqn:Hmine; cbn [negb].
      + destruct (Script.isSignature (vec_get vector 0)) eqn:Hsigned.
        * intros [= <- <-]. split; [|done]. intros _.
          rewrite Hsigned. split; [done|]. done.
        * destruct (Script.isKey (vec_get vector 1)); cbn [negb]; [|done].
          intros (v1 & Hv1 & (v2 & Hv2 & [= <- <-])%bind_Ok)%bind_Ok.
          rewrite (Hset _ _ _ Hv1 Hv2), Hvalid. split; [|done]. done.
      + intros [= <- <-]. split; [done|]. done.
  Qed.
End KeyScripts.

Lemma arr_get_set_0 {A} (l : list (option A)) (x : A) :
  arr_get (arr_set l 0 x) 0 = Some x.
Proof.
  unfold arr_get, arr_set, arr_length. rewrite decide_True by lia.
  rewrite decide_False by lia. destruct l as [|y l].
  - rewrite decide_False by (cbn [length]; lia). done.
  - rewrite decide_True by (cbn [length]; lia). done.
Qed.

Lemma Script_set_get_0 (sig : Buffer) (v v1 v2 : Script.t) :
  validSignature sig →
  vec_set v 0 (Buf sig) = Ok v1 → vec_compile v1 = Ok v2 →
  vec_get v2 0 = Some (Buf sig).
Proof.
  intros Hsig. cbn [vec_set vec_compile vec_get Script_Vector].
  intros [= <-]. unfold Script.compile.
  intros (bs & _ & [= <-])%bind_Ok.
  unfold Script.get, Script.index, Script.set.
  cbn [Script.code]. rewrite !decide_False by lia.
  rewrite arr_get_set_0. cbn [fmap option_fmap option_map].
  change (Script.fromData sig) with (Script.from (Buf sig)).
  by rewrite from_signature.
Qed.

Lemma Witness_set_get_0 (sig : Buffer) (v v1 v2 : Witness.t) :
  vec_set v 0 (Buf sig) = Ok v1 → vec_compile v1 = Ok v2 →
  vec_get v2 0 = Some (Buf sig).
Proof.
  cbn [vec_set vec_compile vec_get Witness_Vector].
  unfold Witness.set, Witness.compile. cbn [Witness.encodeItem mbind result_bind].
  intros [= <-] [= <-].
  unfold Witness.get, Witness.index. cbn [Witness.items].
  rewrite !decide_False by lia. by rewrite arr_get_set_0.
Qed.

(** For a script that pays to a public key or to the hash of one,
    whether the vector signed is a script or a witness: when
    [signVector] answers [true], [isVectorSigned] holds of the vector
    it leaves, and signing that vector again, with whatever signature,
    answers [true] and changes nothing; when it answers [false], the
    key is not the one of the script and the vector is as it was. *)
Theorem signVector_key_script (prev : Script.t) (sig : Buffer) (ring : KeyRing) :
  validSignature sig →
  Script.isPubkey prev = true ∨ Script.isPubkeyhash prev = true →
  (∀ (vector vector' : Script.t) ok,
     MTX.signVector prev vector sig ring = Ok (ok, vector') →
     (ok = true →
        isVectorSigned prev vector' = true
        ∧ ∀ sig', MTX.signVector prev vector' sig' ring = Ok (true, vector'))
     ∧ (ok = false → vector' = vector))
  ∧ (∀ (vector vector' : Witness.t) ok,
       MTX.signVector prev vector sig ring = Ok (ok, vector') →
       (ok = true →
          isVectorSigned prev vector' = true
          ∧ ∀ sig', MTX.signVector prev vector' sig' ring = Ok (true, vector'))
       ∧ (ok = false → vector' = vector)).
Proof.
  intros Hsig Hprev. split.
  - intros vector vector' ok. apply signVector_keyed; [|done|done].
    intros v v1 v2. by apply Script_set_get_0.
  - intros vector vector' ok. apply signVector_keyed; [|done|done].
    intros v v1 v2. apply Witness_set_get_0.
Qed.


Lemma isPubkeyhash_not_pubkey (prev : Script.t) :
  Script.isPubkeyhash prev = true → Script.isPubkey prev = false.
Proof.
  unfold Script.isPubkeyhash, Script.isPubkey. intros Hpkh.
  repeat (apply andb_true_iff in Hpkh as [Hpkh ?]).
  apply bool_decide_eq_true in Hpkh. rewrite Hpkh.
  by rewrite bool_decide_eq_false_2 by lia.
Qed.

Lemma fromData_key (key : Buffer) :
  Script.isKey (Some (Script.toValue (Script.fromData key)))
  = bool_decide (33 ≤ blen key ≤ 65)
  ∧ (33 ≤ blen key ≤ 65 → Script.fromData key = Script.Push key).
Proof.
  destruct key as [|b [|b' key]].
  - split; [|unfold blen; cbn [length]; lia].
    cbn [Script.fromData Script.toValue Script.isKey].
    rewrite bool_decide_eq_false_2; [done|]. unfold blen. cbn [length]. lia.
  - split; [|unfold blen; cbn [length]; lia].
    cbn [Script.fromData]. repeat case_decide;
      cbn [Script.toValue Script.isKey];
      rewrite ?bool_decide_eq_false_2; try done; unfold blen; cbn [length]; lia.
  - split; done.
Qed.

(** Templating and then signing for a script that pays to the hash of
    the key of the signer, in a script as in a witness: templating
    succeeds and leaves a vector that is not yet signed; signing that
    vector with a signature gives the vector of the signature and the
    public key. A signer whose public key is not of the length of a key
    is templated all the same, and signing then throws as if the input
    had not been templated. *)
Theorem pubkeyhash_template_then_sign (prev : Script.t) (sig : Buffer) (ring : KeyRing) :
  Script.isPubkeyhash prev = true →
  Script.get prev 2 = Some (Buf (getKeyHash ring)) →
  validSignature sig →
  (∃ template : Script.t,
     MTX.scriptVector prev emptyScript ring = Ok (true, template)
     ∧ isVectorSigned prev template = false
     ∧ MTX.signVector prev template sig ring
       = if bool_decide (validKey (publicKey ring))
         then Ok (true, Script.fromCode [Script.Push sig; Script.Push (publicKey ring)])
         else Throw (Error "Input has not been templated."))
  ∧ (∃ template : Witness.t,
       MTX.scriptVector prev emptyWitness ring = Ok (true, template)
       ∧ isVectorSigned prev template = false
       ∧ MTX.signVector prev template sig ring
         = if bool_decide (validKey (publicKey ring))
           then Ok (true, {| Witness.items := [Some sig; Some (publicKey ring)] |})
           else Throw (Error "Input has not been templated.")).
Proof.
  intros Hpkh Hhash Hsig.
  pose proof (isPubkeyhash_not_pubkey prev Hpkh) as Hpk.
  destruct (fromData_key (publicKey ring)) as [Hkey Hpush].
  assert (Hfrom : Script.from (Buf sig) = Script.Push sig) by by apply from_signature.
  split.
  - exists (vectorOf [Script.Op Script.OP_0; Script.fromData (publicKey ring)] []).
    unfold MTX.scriptVector, MTX.signVector, isVectorSigned.
    rewrite Hpk, Hpkh, Hhash. unfold equal. rewrite bool_decide_eq_true_2 by done.
    cbn [negb vec_set vec_get vec_getSmall vec_compile Script_Vector mbind result_bind].
    split; [reflexivity|].
    rewrite (vectorOf_get _ [] 0), (vectorOf_get _ [] 1).
    cbn [lookup list_lookup fmap option_fmap option_map Script.toValue
         Script.isSignature negb].
    split; [done|]. rewrite Hkey. unfold validKey.
    case_bool_decide as Hvalid; cbn [negb]; [|done].
    rewrite (vectorOf_set _ [] 0) by (cbn [length]; lia).
    rewrite vectorOf_compile. cbn [mbind result_bind].
    rewrite Hfrom, (Hpush Hvalid). done.
  - exists {| Witness.items := [Some []; Some (publicKey ring)] |}.
    unfold MTX.scriptVector, MTX.signVector, isVectorSigned.
    rewrite Hpk, Hpkh, Hhash. unfold equal. rewrite bool_decide_eq_true_2 by done.
    cbn [negb vec_set vec_get vec_getSmall vec_compile Witness_Vector mbind result_bind].
    split; [reflexivity|].
    change (Witness.get {| Witness.items := [Some []; Some (publicKey ring)] |} 0)
      with (Some (Buf [])).
    change (Witness.get {| Witness.items := [Some []; Some (publicKey ring)] |} 1)
      with (Some (Buf (publicKey ring))).
    cbn [Script.isSignature Script.isKey].
    rewrite bool_decide_eq_false_2 by (unfold blen; cbn [length]; lia).
    split; [done|]. cbn [negb]. unfold validKey.
    case_bool_decide as Hvalid; cbn [negb]; [|done]. reflexivity.
Qed.


(** ** Lock time and sequence *)

(** [setLocktime] sets the lock time and leaves no input with the final
    sequence number 0xffffffff, which would disable it: such inputs get
    0xfffffffe, and the others, like everything else of the
    transaction, stay as they are. A second call only replaces the
    lock time. *)
Theorem setLocktime_enables (m : MTX.t) (locktime : Z) :
  MTX.locktime (setLocktime m locktime) = locktime
  ∧ Forall (λ input, Input.sequence input ≠ 4294967295)
           (MTX.inputs (setLocktime m locktime))
  ∧ (∀ (k : nat) input, MTX.inputs m !! k = Some input →
       MTX.inputs (setLocktime m locktime) !! k
       = Some (if decide (Input.sequence input = 4294967295)
               then withSequence input 4294967294 else input))
  ∧ length (MTX.inputs (setLocktime m locktime)) = length (MTX.inputs m)
  ∧ MTX.outputs (setLocktime m locktime) = MTX.outputs m
  ∧ MTX.view (setLocktime m locktime) = MTX.view m
  ∧ ∀ locktime', setLocktime (setLocktime m locktime) locktime'
                 = setLocktime m locktime'.
Proof.
  unfold setLocktime. cbn [MTX.locktime MTX.inputs MTX.outputs MTX.view
                           MTX.version MTX.flag MTX.changeIndex].
  split; [done|]. split; [|split; [|split; [|split; [|split]]]]; try done.
  - apply Forall_fmap, Forall_forall. intros input _. cbn.
    case_decide; cbn [Input.sequence withSequence]; lia.
  - intros k input Hk. rewrite list_lookup_fmap, Hk. done.
  - by rewrite length_fmap.
  - intros locktime'. f_equal. rewrite <-list_fmap_compose.
    apply list_fmap_ext. intros k input _. cbn [compose].
    destruct (decide (Input.sequence input = 4294967295)) as [Hfinal|Hfinal].
    + rewrite decide_False by (cbn [Input.sequence withSequence]; lia). done.
    + by rewrite decide_False by done.
Qed.




(** [setSequence] fails exactly when the index names no input. When it
    returns, the version is 2, the input named has the sequence number
    computed and is otherwise as it was, and so is everything else. *)
Theorem setSequence_outcome (c : SequenceConstants) (m : MTX.t) (index locktime : Z)
    (seconds : bool) :
  match setSequence c m index locktime seconds with
  | Ok m' =>
      ∃ input,
        MTX.nth (MTX.inputs m) index = Some input
        ∧ MTX.version m' = 2
        ∧ MTX.nth (MTX.inputs m') index
          = Some (withSequence input (sequenceOf c locktime seconds))
        ∧ length (MTX.inputs m') = length (MTX.inputs m)
        ∧ (∀ k : nat, k ≠ Z.to_nat index → MTX.inputs m' !! k = MTX.inputs m !! k)
        ∧ MTX.outputs m' = MTX.outputs m ∧ MTX.locktime m' = MTX.locktime m
        ∧ MTX.view m' = MTX.view m
  | Throw e =>
      e = AssertionError "Input does not exist."
      ∧ (index < 0 ∨ Z.of_nat (length (MTX.inputs m)) ≤ index)
  end.
Proof.
  unfold setSequence, MTX.nth. case_decide as Hidx.
  - destruct (MTX.inputs m !! Z.to_nat index) as [input|] eqn:Hin.
    + exists input. cbn [MTX.version MTX.inputs MTX.outputs MTX.locktime MTX.view].
      split; [done|]. split; [done|]. split.
      { rewrite list_lookup_insert_eq; [done|]. by eapply lookup_lt_Some. }
      split; [by rewrite length_insert|]. split; [|done].
      intros k Hk. by rewrite list_lookup_insert_ne.
    + split; [done|]. right. apply lookup_ge_None in Hin. lia.
  - split; [done|]. left. lia.
Qed.


(** ** Signed transactions *)
Section Signed.
Context `{Env}.

Lemma isInputSignedAt_prevout input coin ok input' :
    isInputSignedAt input coin = Ok (ok, input') →
    Input.prevout input' = Input.prevout input.
  Proof.
    unfold isInputSignedAt.
    destruct (if Script.isScripthash (Coin.script coin) then _ else _)
      as [[prev redeem]|]; [|by intros [= _ <-]].
    destruct (Script.isWitnessScripthash prev).
    { destruct (Witness.getRedeem fromRaw (Input.witness input)); [|by intros [= _ <-]].
      intros ([r w] & _ & [= _ <-])%bind_Ok. done. }
    destruct (Script.isWitnessPubkeyhash prev).
    { intros ([r w] & _ & [= _ <-])%bind_Ok. done. }
    intros ([r w] & _ & [= _ <-])%bind_Ok. done.
  Qed.

Lemma isInputSigned_frame m i coin ok m1 :
    isInputSigned m i coin = Ok (ok, m1) →
    MTX.view m1 = MTX.view m
    ∧ Input.prevout <$> MTX.inputs m1 = Input.prevout <$> MTX.inputs m.
  Proof.
    unfold isInputSigned, MTX.nth. case_decide as Hi; [|done].
    destruct (MTX.inputs m !! Z.to_nat i) as [input|] eqn:Hin; [|done].
    destruct coin as [coin|]; [|done].
    intros ([ok' input'] & Hat & [= _ <-])%bind_Ok.
    apply isInputSignedAt_prevout in Hat.
    cbn [MTX.view MTX.inputs MTX.set_inputs]. split; [done|].
    rewrite list_fmap_insert, Hat. apply list_insert_id.
    by rewrite list_lookup_fmap, Hin.
  Qed.

Lemma isSignedFrom_true count i m m' :
    0 ≤ i →
    isSignedFrom count i m = Ok (true, m') →
    ∀ (k : nat) input,
      i ≤ Z.of_nat k < i + Z.of_nat count →
      MTX.inputs m !! k = Some input →
      is_Some (getOutput (MTX.view m) input).
  Proof.
    revert i m. induction count as [|count IH]; intros i m Hi; cbn [isSignedFrom].
    { intros _ k input Hk. lia. }
    unfold MTX.nth. rewrite decide_True by done.
    destruct (MTX.inputs m !! Z.to_nat i) as [first|] eqn:Hfirst.
    - destruct (getOutput (MTX.view m) first) as [coin|] eqn:Hcoin; [|done].
      intros ([ok m1] & Hone & Hrest)%bind_Ok.
      destruct ok; cbn [negb] in Hrest; [|done].
      destruct (isInputSigned_frame _ _ _ _ _ Hone) as [Hview Hprev].
      intros k input Hk Hin.
      destruct (decide (k = Z.to_nat i)) as [->|Hne].
      + rewrite Hfirst in Hin. injection Hin as <-. by rewrite Hcoin.
      + assert (Hk1 : (Input.prevout <$> MTX.inputs m1) !! k
                      = Some (Input.prevout input))
          by (by rewrite Hprev, list_lookup_fmap, Hin).
        rewrite list_lookup_fmap in Hk1.
        destruct (MTX.inputs m1 !! k) as [input1|] eqn:Hin1; [|done].
        injection Hk1 as Hp.
        assert (Hsome : is_Some (getOutput (MTX.view m1) input1)).
        { apply (IH (i + 1) m1 ltac:(lia) Hrest k); [lia|done]. }
        unfold getOutput in *. by rewrite <-Hview, <-Hp.
    - intros _ k input Hk Hin. apply lookup_ge_None in Hfirst.
      apply lookup_lt_Some in Hin. lia.
  Qed.

  (** A transaction is reported signed only if the view holds the coin
      of every one of its inputs. *)
Theorem isSigned_needs_coins (m m' : MTX.t) :
    isSigned m = Ok (true, m') →
    ∀ input, input ∈ MTX.inputs m → is_Some (getOutput (MTX.view m) input).
  Proof.
    unfold isSigned. intros Htrue input (k & Hk)%list_elem_of_lookup_1.
    apply (isSignedFrom_true _ 0 m m' ltac:(lia) Htrue k); [|done].
    apply lookup_lt_Some in Hk. lia.
  Qed.

  (** The clone of a transaction that has inputs knows none of their
      coins: it is reported unsigned, whatever its inputs carry, and
      its input value and fee are 0. *)
Theorem clone_is_unsigned (m m' : MTX.t) :
    MTX.clone m = Ok m' →
    MTX.inputs m ≠ [] →
    isSigned m' = Ok (false, m')
    ∧ MTX.getInputValue m' = 0
    ∧ MTX.getFee m' = 0.
  Proof.
    rewrite clone_eq. case_bool_decide; [|done]. intros [= <-] Hne.
    destruct (MTX.inputs m) as [|input ins] eqn:Hins; [done|].
    unfold isSigned, MTX.getInputValue, MTX.getFee, TX.getFee, TX.hasCoins,
      TX.getInputValue.
    cbn [MTX.inputs MTX.view MTX.set_view MTX.toTX TX.inputs].
    rewrite Hins. cbn [length isSignedFrom TX.sumInputs forallb].
    unfold MTX.nth. rewrite decide_True by done.
    cbn [MTX.inputs MTX.view MTX.set_view]. rewrite Hins.
    change (Z.to_nat 0) with 0%nat. cbn [lookup list_lookup].
    unfold getOutput. rewrite lookup_empty.
    split; [done|]. split; [done|].
    rewrite (bool_decide_eq_false_2 (is_Some None)) by (by intros [? ?]).
    by rewrite andb_false_r.
  Qed.
End Signed.


Lemma fromPubkeyhash_isPubkeyhash (h : Buffer) :
  blen h = 20 → Script.isPubkeyhash (Script.fromPubkeyhash h) = true.
Proof.
  intros Hlen. unfold blen in Hlen.
  do 21 (destruct h as [|? h]; cbn [length] in Hlen; try lia).
  reflexivity.
Qed.

Lemma isHash_bufferOf n v :
  Script.isHash n v = true → blen (bufferOf v) = n.
Proof.
  destruct v as [[?|h]|]; cbn [Script.isHash bufferOf]; try done.
  by intros ?%bool_decide_eq_true.
Qed.

Section KeyInputs.
Context `{Env}.

  (** How [signInput] and [isInputSigned] choose the script and the
      vector for a coin that pays to a key, to the hash of a key, or to
      the hash of a key in a witness program. *)
Lemma key_coin_dispatch (prev : Script.t) :
    Script.isPubkey prev = true ∨ Script.isPubkeyhash prev = true
    ∨ Script.isWitnessPubkeyhash prev = true →
    Script.isScripthash prev = false
    ∧ Script.isWitnessScripthash prev = false
    ∧ (Script.isWitnessPubkeyhash prev = false →
         Script.isPubkey prev = true ∨ Script.isPubkeyhash prev = true)
    ∧ (Script.isWitnessPubkeyhash prev = true →
         Script.isPubkeyhash (Script.fromPubkeyhash (bufferOf (Script.get prev 1)))
         = true).
  Proof.
    intros Hkind.
    assert (Hlen : Script.length prev = 2 ∨ Script.length prev = 5).
    { destruct Hkind as [Hk|[Hk|Hk]]; revert Hk;
        unfold Script.isPubkey, Script.isPubkeyhash, Script.isWitnessPubkeyhash;
        intros Hk; repeat (apply andb_true_iff in Hk as [Hk ?]);
        apply bool_decide_eq_true in Hk; auto. }
    split; [|split; [|split]].
    - unfold Script.isScripthash.
      rewrite (bool_decide_eq_false_2 (Script.length prev = 3)) by lia. done.
    - unfold Script.isWitnessScripthash.
      destruct (bool_decide (Script.length prev = 2)) eqn:H2; [|done].
      destruct (bool_decide (Script.get prev 0 = Some (Num Script.OP_0))) eqn:H0;
        [|done].
      cbn [andb]. apply bool_decide_eq_true in H2, H0.
      destruct Hkind as [Hk|[Hk|Hk]]; revert Hk;
        unfold Script.isPubkey, Script.isPubkeyhash, Script.isWitnessPubkeyhash;
        intros Hk; repeat (apply andb_true_iff in Hk as [Hk ?]).
      + rewrite H0 in *. done.
      + apply bool_decide_eq_true in Hk. lia.
      + destruct (Script.get prev 1) as [[?|h]|]; cbn [Script.isHash] in *; try done.
        match goal with Hh : bool_decide (blen h = 20) = true |- _ =>
          apply bool_decide_eq_true in Hh; rewrite bool_decide_eq_false_2; [done|lia]
        end.
    - intros Hw. destruct Hkind as [?|[?|?]]; [by left|by right|congruence].
    - intros Hw. apply fromPubkeyhash_isPubkeyhash, isHash_bufferOf.
      unfold Script.isWitnessPubkeyhash in Hw.
      by repeat (apply andb_true_iff in Hw as [Hw ?]).
  Qed.

  (** An input that spends a coin paying to a key, to the hash of a
      key, or to the hash of a key in a witness program, and for which
      [signInput] has answered [true], is reported signed by
      [isInputSigned], which leaves it as it is; signing it again
      answers [true] and leaves it as it is. The signature made is taken
      to have the length of a signature. *)
Theorem signInput_then_isInputSigned (m : MTX.t) (index : Z) (input input' : Input.t)
      (coin : Coin.t) (ring : KeyRing) (type : option SighashType) :
    Script.isPubkey (Coin.script coin) = true
    ∨ Script.isPubkeyhash (Coin.script coin) = true
    ∨ Script.isWitnessPubkeyhash (Coin.script coin) = true →
    (∀ prev version,
       validSignature (MTX.signature m index prev 0 (privateKey ring) type version)) →
    MTX.signInputAt m index input coin ring type = Ok (true, input') →
    isInputSignedAt input' coin = Ok (true, input')
    ∧ MTX.signInputAt m index input' coin ring type = Ok (true, input').
  Proof.
    intros Hkind Hsig.
    destruct (key_coin_dispatch _ Hkind) as (Hsh & Hwsh & Hlegacy & Hwitness).
    unfold MTX.signInputAt, isInputSignedAt. rewrite Hsh.
    cbn [mbind result_bind]. rewrite Hwsh.
    destruct (Script.isWitnessPubkeyhash (Coin.script coin)) eqn:Hw.
    - specialize (Hwitness eq_refl).
      set (prev := Script.fromPubkeyhash (bufferOf (Script.get (Coin.script coin) 1)))
        in *.
      unfold MTX.signWith, testWith.
      intros ([ok w] & Hsign & [= -> <-])%bind_Ok.
      cbn [Input.witness Input.set_witness].
      destruct (signVector_keyed prev (Input.witness input) w _ ring true
                  (λ v v1 v2, Witness_set_get_0 _ v v1 v2) (Hsig prev 1)
                  (or_intror Hwitness) Hsign) as [Hok _].
      destruct (Hok eq_refl) as [Hsigned Hagain].
      rewrite Hsigned, Hagain. cbn [mbind result_bind Input.set_witness
        Input.prevout Input.script Input.witness Input.sequence]. done.
    - specialize (Hlegacy eq_refl).
      unfold MTX.signWith, testWith.
      intros ([ok s] & Hsign & [= -> <-])%bind_Ok.
      cbn [Input.script Input.set_script].
      destruct (signVector_keyed (Coin.script coin) (Input.script input) s _ ring true
                  (λ v v1 v2, Script_set_get_0 _ v v1 v2 (Hsig (Coin.script coin) 0))
                  (Hsig (Coin.script coin) 0) Hlegacy Hsign) as [Hok _].
      destruct (Hok eq_refl) as [Hsigned Hagain].
      rewrite Hsigned, Hagain. cbn [mbind result_bind Input.set_script
        Input.prevout Input.script Input.witness Input.sequence]. done.
  Qed.
End KeyInputs.


(** ** What the chosen coins are worth *)
Section Gathered.
Context `{Env}.
Import CoinSelector.

Lemma lookup_foldl_addCoin_other (cs : list Coin.t) (v : CoinView) k :
    k ∉ outpointsOf cs → foldl addCoin v cs !! k = v !! k.
  Proof.
    revert v. induction cs as [|c cs IH]; intros v Hk; cbn [foldl]; [done|].
    unfold outpointsOf in Hk. rewrite fmap_cons in Hk.
    apply not_elem_of_cons in Hk as [Hne Hk].
    rewrite IH by done. unfold addCoin. by rewrite lookup_insert_ne.
  Qed.

Lemma sumInputs_distinct (cs : list Coin.t) (v : CoinView) :
    NoDup (outpointsOf cs) →
    TX.sumInputs (foldl addCoin v cs) (Input.fromCoin <$> cs) = Some (valueOf cs).
  Proof.
    revert v. induction cs as [|c cs IH]; intros v Hnd; [done|].
    unfold outpointsOf in Hnd. rewrite fmap_cons in Hnd.
    apply list.NoDup_cons in Hnd as [Hnotin Hnd].
    rewrite fmap_cons. cbn [foldl TX.sumInputs valueOf foldr].
    unfold getOutput at 1. cbn [Input.fromCoin Input.prevout].
    rewrite lookup_foldl_addCoin_other by done.
    unfold addCoin at 1. rewrite lookup_insert_eq.
    rewrite (IH _ Hnd). done.
  Qed.

Lemma filter_take_sublist {A} (P : A → Prop) `{∀ x, Decision (P x)} (n : nat)
      (l : list A) :
    filter P (take n l) `sublist_of` l.
  Proof.
    etrans; [apply sublist_filter|]. apply sublist_take.
  Qed.

  (** If the candidates have distinct outpoints, the input value of the
      transaction of a selector that has selected is the sum of the
      values of the chosen coins. *)
Theorem select_gathers_values (s s' : t) (coins0 : list Coin.t) (rng : Rng) :
    NoDup (outpointsOf coins0) →
    select s coins0 rng = Ok s' →
    MTX.getInputValue (tx s') = valueOf (chosen s')
    ∧ total s' ≤ valueOf (chosen s')
    ∧ change s' = valueOf (chosen s') - total s'.
  Proof.
    intros Hnd (s2 & Hacc & Hfull & ->)%select_Ok_accumulated.
    destruct (accumulated_tracks _ _ _ _ Hacc) as [Hin Hview].
    pose proof (accumulated_chosen _ _ _ _ Hacc) as (_ & Hperm & _).
    pose proof (accumulated_walked _ _ _ _ Hacc) as (_ & _ & Hc).
    assert (Hvalue : MTX.getInputValue (tx s2) = valueOf (chosen s2)).
    { unfold MTX.getInputValue, TX.getInputValue. cbn [MTX.toTX TX.inputs].
      rewrite Hin, Hview, sumInputs_distinct; [done|].
      assert (Hsub : chosen s2 `sublist_of` coins s2).
      { rewrite Hc. apply filter_take_sublist. }
      eapply sublist_NoDup; [|apply fmap_sublist; exact Hsub].
      unfold outpointsOf in *. by rewrite Hperm. }
    apply bool_decide_eq_true in Hfull.
    cbn [tx chosen change set_change update].
    change (total (set_change s2 (MTX.getInputValue (tx s2) - total s2)))
      with (total s2).
    rewrite <-Hvalue. done.
  Qed.

  (** A selector that knows the chain height and asks for confirmations
      chooses confirmed coins only, none from above its height, each
      with at least the confirmations asked for. *)
Theorem select_confirmations (s s' : t) (coins0 : list Coin.t) (rng : Rng) :
    height s ≠ -1 → 0 < confirmations s →
    select s coins0 rng = Ok s' →
    ∀ coin, coin ∈ chosen s' →
      Coin.height coin ≠ -1
      ∧ Coin.height coin ≤ height s
      ∧ confirmations s ≤ height s - Coin.height coin + 1.
  Proof.
    intros Hh Hconf (s2 & Hacc & _ & ->)%select_Ok_accumulated coin Hin.
    cbn [chosen set_change update] in Hin.
    pose proof (accumulated_chosen _ _ _ _ Hacc) as (_ & _ & Hch).
    destruct (Hch coin Hin) as [_ Hsp]. revert Hsp. unfold isSpendable.
    rewrite decide_False by done.
    destruct (Coin.coinbase coin && bool_decide (Coin.height coin = -1)); [done|].
    destruct (Coin.coinbase coin && bool_decide (_ < _)); [done|].
    rewrite decide_True by done.
    case_decide as Hun.
    { intros Hle%bool_decide_eq_true. lia. }
    cbn zeta. case_decide; [done|]. case_decide; [done|]. intros _. lia.
  Qed.
End Gathered.


(** ** No coin too many *)
Section Frugal.
Context `{Env}.
Import CoinSelector.

Lemma fundFrom_frugal tx0 rest s :
    selection s ≠ "all" →
    frugal tx0 s →
    (chosen s ≠ [] → isFull s = false) →
    frugal tx0 (fundFrom rest s).
  Proof.
    revert s. induction rest as [|coin rest IH]; intros s Hsel Hfrugal Hlive;
      cbn [fundFrom]; [done|].
    set (s1 := set_index s (index s + 1)).
    assert (Hfrugal1 : frugal tx0 s1) by exact Hfrugal.
    assert (Hlive1 : chosen s1 ≠ [] → isFull s1 = false) by exact Hlive.
    destruct (isSpendable s1 coin); cbn [negb]; [|by apply IH].
    set (s2 := set_chosen (set_tx s1 _) _).
    assert (Hfrugal2 : frugal tx0 s2).
    { destruct Hfrugal as [Htx Hmin]. split.
      - subst s2 s1. cbn [tx chosen set_chosen set_tx set_index update].
        unfold spending in *. by rewrite foldl_app, <-Htx.
      - intros pre last Hch Hne. subst s2 s1.
        cbn [chosen set_chosen set_tx set_index update] in Hch.
        apply app_inj_tail in Hch as [<- <-].
        specialize (Hlive Hne). unfold isFull in Hlive.
        apply bool_decide_eq_false in Hlive. rewrite <-Htx.
        change (total (set_chosen _ _)) with (total s). lia. }
    rewrite decide_False by exact Hsel.
    destruct (isFull s2) eqn:Hfull; [exact Hfrugal2|].
    apply IH; [exact Hsel|exact Hfrugal2|done].
  Qed.

  (** In hard-fee mode, with a strategy other than [all], no coin is
      chosen once the target is reached: the chosen coins before the
      last one do not reach the target. Only a first coin can be chosen
      without need, for [fund] adds a coin before it tests whether the
      transaction is funded. *)
Theorem selectHard_no_coin_too_many (s s' : t) (coins0 : list Coin.t) (rng : Rng) :
    hardFee s ≠ -1 → selection s ≠ "all" →
    select s coins0 rng = Ok s' →
    ∀ pre last, chosen s' = pre ++ [last] → pre ≠ [] →
      MTX.getInputValue (spending (MTX.set_inputs (tx s) []) pre) < total s'.
  Proof.
    intros Hhard Hsel (s2 & Hacc & _ & ->)%select_Ok_accumulated.
    cbn [chosen set_change update].
    change (total (set_change s2 _)) with (total s2).
    revert Hacc. unfold accumulated.
    destruct (init s coins0 rng) as [s1|] eqn:Hinit; [|done]. cbn [mbind result_bind].
    pose proof Hinit as (Hpol & _ & _ & _ & Hc & _ & _ & Htx)%init_outcome.
    destruct (policy_fields _ _ Hpol) as (Hs & Hh & _).
    rewrite decide_True by congruence. intros [= <-].
    unfold selectHard, fund.
    set (s0 := if decide _ then _ else _).
    assert (Hs0 : tx s0 = MTX.set_inputs (tx s) [] ∧ chosen s0 = []
                  ∧ selection s0 = selection s).
    { subst s0. case_decide; cbn [tx chosen selection set_fee update]; by rewrite Htx, Hc, Hs. }
    destruct Hs0 as (Htx0 & Hc0 & Hsel0).
    assert (Hfinal : frugal (MTX.set_inputs (tx s) [])
                       (fundFrom (drop (Z.to_nat (index s0)) (coins s0)) s0)).
    { apply fundFrom_frugal.
      - by rewrite Hsel0.
      - split.
        + by rewrite Hc0, Htx0.
        + intros pre last Hch. rewrite Hc0 in Hch. by destruct pre.
      - by rewrite Hc0. }
    exact (proj2 Hfinal).
  Qed.
End Frugal.


(** ** The estimated size *)
Section EstimateSize.
Context `{Env}.

Lemma foldl_add_sizes (outs : list Output.t) (acc : Z) :
    foldl (λ total output, total + Output.getSize output) acc outs
    = acc + foldr (λ output acc, Output.getSize output + acc) 0 outs.
  Proof.
    revert acc. induction outs as [|o outs IH]; intros acc; cbn [foldl foldr]; [lia|].
    rewrite IH. lia.
  Qed.

Lemma estimateSize_eq m estimate :
    MTX.estimateSize m estimate
    = foldl (λ total input,
               total + MTX.estimateInput estimate (getOutput (MTX.view m) input))
            (estimateBase m + Z.of_nat (length (MTX.inputs m)) * 40) (MTX.inputs m).
  Proof.
    unfold MTX.estimateSize, estimateBase. cbn zeta. rewrite foldl_add_sizes.
    f_equal. lia.
  Qed.

Lemma quot_scale_bounds (size scale : Z) :
    1 ≤ size → 1 ≤ scale → 1 ≤ (size + scale - 1) `quot` scale ≤ size.
  Proof.
    intros Hsize Hscale. rewrite Z.quot_div_nonneg by lia. split.
    - apply Z.div_le_lower_bound; lia.
    - apply Z.div_le_upper_bound; [lia|]. nia.
  Qed.

Lemma estimateInput_bounds coin :
    1 ≤ WITNESS_SCALE_FACTOR →
    1 ≤ MTX.estimateInput None coin ≤ 1188.
  Proof.
    intros Hscale. unfold MTX.estimateInput. destruct coin as [coin|]; [|lia].
    cbn zeta. destruct (Script.isPubkey (Coin.script coin)); [lia|].
    destruct (Script.isPubkeyhash (Coin.script coin)); [lia|].
    destruct (Script.isMultisig (Coin.script coin)) eqn:Hms.
    { destruct (isMultisig_inv _ Hms) as (m & ks & Hcode & Hm & Hn & _).
      rewrite (ms_getSmall_0 _ m ks Hcode Hm Hn).
      unfold sizeVarint. repeat case_decide; lia. }
    destruct (Script.isWitnessPubkeyhash (Coin.script coin)).
    { pose proof (quot_scale_bounds (0 + 1 + (1 + 73) + (1 + 33))
                    WITNESS_SCALE_FACTOR ltac:(lia) Hscale). lia. }
    cbv beta iota zeta.
    destruct (Script.isScripthash (Coin.script coin)); [lia|].
    destruct (Script.isWitnessScripthash (Coin.script coin)); [|lia].
    pose proof (quot_scale_bounds (0 + 1 + 257) WITNESS_SCALE_FACTOR ltac:(lia) Hscale).
    lia.
  Qed.

  (** Without an estimator of the caller and with a witness scale factor
      of 1 at least, each input adds between 41 and 1228 bytes to the
      estimated size of a transaction, over what its outputs and fixed
      fields account for; the size estimated is positive. *)
Theorem estimateSize_bounds (m : MTX.t) :
    1 ≤ WITNESS_SCALE_FACTOR →
    estimateBase m + 41 * Z.of_nat (length (MTX.inputs m))
    ≤ MTX.estimateSize m None
    ≤ estimateBase m + 1228 * Z.of_nat (length (MTX.inputs m)).
  Proof.
    intros Hscale. rewrite estimateSize_eq.
    generalize (estimateBase m). generalize (MTX.view m). intros view base.
    assert (Hsum : ∀ (ins : list Input.t) acc,
      acc + Z.of_nat (length ins)
      ≤ foldl (λ total input,
                 total + MTX.estimateInput None (getOutput view input)) acc ins
      ≤ acc + 1188 * Z.of_nat (length ins)).
    { induction ins as [|i ins IH]; intros acc; cbn [foldl length]; [lia|].
      pose proof (estimateInput_bounds (getOutput view i) Hscale) as Hone.
      specialize (IH (acc + MTX.estimateInput None (getOutput view i))). lia. }
    specialize (Hsum (MTX.inputs m) (base + Z.of_nat (length (MTX.inputs m)) * 40)).
    lia.
  Qed.

  (** The size estimated depends on the inputs only through their number
      and the coins they spend: no script or witness an input carries,
      and no sequence number, changes it. Templating and signing leave
      the estimate as it was. *)
Theorem estimateSize_ignores_signatures (m : MTX.t) (inputs' : list Input.t)
      (estimate : option (Script.t → Z)) :
    Input.prevout <$> inputs' = Input.prevout <$> MTX.inputs m →
    MTX.estimateSize (MTX.set_inputs m inputs') estimate = MTX.estimateSize m estimate.
  Proof.
    intros Hprev. rewrite !estimateSize_eq. unfold estimateBase.
    cbn [MTX.inputs MTX.outputs MTX.view MTX.set_inputs].
    assert (Hlen : length inputs' = length (MTX.inputs m)).
    { by rewrite <-(length_fmap Input.prevout), Hprev, length_fmap. }
    rewrite Hlen. generalize (4 + sizeVarint (Z.of_nat (length (MTX.inputs m)))
      + sizeVarint (Z.of_nat (length (MTX.outputs m)))
      + foldr (λ output acc, Output.getSize output + acc) 0 (MTX.outputs m) + 4
      + Z.of_nat (length (MTX.inputs m)) * 40).
    revert Hprev. generalize (MTX.inputs m). clear Hlen.
    induction inputs' as [|i ins IH]; intros [|j ins'] Hprev acc; try done.
    rewrite !fmap_cons in Hprev. injection Hprev as Hp Hrest.
    cbn [foldl].
    replace (getOutput (MTX.view m) i) with (getOutput (MTX.view m) j)
      by (unfold getOutput; by rewrite Hp).
    by apply IH.
  Qed.
End EstimateSize.


(** ** The properties on concrete inputs *)

#[local] Existing Instance Sample.env.


Lemma signVector_multisig_order_witness :
  ∃ final,
    signAll Cases.twoOfThree Cases.template3 [Cases.signer 3; Cases.signer 1] false
    = Ok (true, final)
    ∧ signAll Cases.twoOfThree Cases.template3 [Cases.signer 1; Cases.signer 3] false
      = Ok (true, final)
    ∧ Script.length final = 3.
Proof.
  assert (Hvalid : ∀ signer, signer ∈ [Cases.signer 3; Cases.signer 1] →
            publicKey signer.1 ∈ multisigKeys Cases.twoOfThree ∧ validSignature signer.2).
  { intros signer Hin. apply elem_of_cons in Hin as [->|Hin].
    - split; [apply (bool_decide_unpack _); vm_compute; reflexivity|].
      unfold validSignature. vm_compute. split; discriminate.
    - apply elem_of_cons in Hin as [->|Hin]; [|by apply elem_of_nil in Hin].
      split; [apply (bool_decide_unpack _); vm_compute; reflexivity|].
      unfold validSignature. vm_compute. split; discriminate. }
  destruct (signVector_multisig_order Cases.twoOfThree (Sample.ring 2) Cases.template3
              [Cases.signer 3; Cases.signer 1] [Cases.signer 1; Cases.signer 3])
    as (H1 & H2 & H3 & _).
  - vm_compute. reflexivity.
  - vm_compute. reflexivity.
  - apply perm_swap.
  - apply (bool_decide_unpack _). vm_compute. reflexivity.
  - exact Hvalid.
  - vm_compute. reflexivity.
  - eexists. split; [exact H1|]. split; [exact H2|]. exact H3.
Defined.

Lemma fund_change_accounting_witness :
  (∃ m' select funded,
     fund Sample.payment Sample.wallet (Some Cases.hardOptions) Sample.rng = Ok (m', select)
     ∧ CoinSelector.change select = 35000
     ∧ MTX.outputs m'
       = MTX.outputs funded
         ++ [{| Output.value := 35000; Output.script := fromAddress Sample.address |}]
     ∧ MTX.changeIndex m' = Z.of_nat (length (MTX.outputs funded))
     ∧ MTX.nth (MTX.outputs m') (MTX.changeIndex m')
       = Some {| Output.value := 35000; Output.script := fromAddress Sample.address |}
     ∧ MTX.getFee m' = CoinSelector.fee select)
  ∧ (∃ m' select funded,
       fund Sample.payment Cases.tightWallet (Some Cases.hardOptions) Sample.rng
       = Ok (m', select)
       ∧ CoinSelector.change select = 100
       ∧ MTX.outputs m' = MTX.outputs funded
       ∧ MTX.changeIndex m' = -1
       ∧ MTX.getFee m' = CoinSelector.fee select + 100).
Proof.
  split.
  - assert (Hfund : ∃ m' select,
              fund Sample.payment Sample.wallet (Some Cases.hardOptions) Sample.rng
              = Ok (m', select)
              ∧ CoinSelector.change select = 35000
              ∧ CoinSelector.changeAddress select = Some Sample.address)
      by (vm_compute; eexists _, _; split; [reflexivity|]; split; reflexivity).
    destruct Hfund as (m' & select & Hfund & Hchange & Haddress).
    destruct (fund_change_accounting _ _ _ _ _ _ Hfund)
      as (funded & address & _ & Haddress' & _ & _ & Hkept).
    rewrite Haddress in Haddress'. injection Haddress' as <-.
    cbn zeta in Hkept. rewrite Hchange in Hkept.
    assert (Hdust : isDust {| Output.value := 35000;
                              Output.script := fromAddress Sample.address |}
                      (Some MIN_RELAY) = false) by (vm_compute; reflexivity).
    rewrite Hdust in Hkept. exists m', select, funded.
    split; [exact Hfund|]. split; [exact Hchange|]. exact Hkept.
  - assert (Hfund : ∃ m' select,
              fund Sample.payment Cases.tightWallet (Some Cases.hardOptions) Sample.rng
              = Ok (m', select)
              ∧ CoinSelector.change select = 100
              ∧ CoinSelector.changeAddress select = Some Sample.address)
      by (vm_compute; eexists _, _; split; [reflexivity|]; split; reflexivity).
    destruct Hfund as (m' & select & Hfund & Hchange & Haddress).
    destruct (fund_change_accounting _ _ _ _ _ _ Hfund)
      as (funded & address & _ & Haddress' & _ & _ & Hdropped).
    rewrite Haddress in Haddress'. injection Haddress' as <-.
    cbn zeta in Hdropped. rewrite Hchange in Hdropped.
    assert (Hdust : isDust {| Output.value := 100;
                              Output.script := fromAddress Sample.address |}
                      (Some MIN_RELAY) = true) by (vm_compute; reflexivity).
    rewrite Hdust in Hdropped. exists m', select, funded.
    split; [exact Hfund|]. split; [exact Hchange|]. exact Hdropped.
Defined.

Lemma scriptVector_multisig_witness :
  MTX.scriptVector Cases.twoOfThree emptyScript (Sample.ring 2) = Ok (true, Cases.template3)
  ∧ MTX.scriptVector Cases.twoOfThree emptyScript (Sample.ring 5) = Ok (false, emptyScript).
Proof.
  destruct (scriptVector_multisig Cases.twoOfThree (Sample.ring 2)) as (_ & Hin & _).
  { vm_compute. reflexivity. }
  destruct (scriptVector_multisig Cases.twoOfThree (Sample.ring 5)) as (_ & _ & Hout).
  { vm_compute. reflexivity. }
  split.
  - destruct Hin as [Hs _]; [apply (bool_decide_unpack _); vm_compute; reflexivity|].
    rewrite Hs. vm_compute. reflexivity.
  - apply Hout. apply (bool_decide_unpack _). vm_compute. reflexivity.
Defined.

Lemma scriptInput_idempotent_witness :
  ∃ m', MTX.scriptInput Cases.spending 0 (Some Cases.witnessCoin) (Sample.ring 4)
        = Ok (true, m')
        ∧ MTX.scriptInput m' 0 (Some Cases.witnessCoin) (Sample.ring 4) = Ok (true, m').
Proof.
  assert (Hfirst : ∃ m', MTX.scriptInput Cases.spending 0 (Some Cases.witnessCoin)
                           (Sample.ring 4) = Ok (true, m'))
    by (vm_compute; eexists; reflexivity).
  destruct Hfirst as [m' Hfirst]. exists m'. split; [exact Hfirst|].
  destruct (scriptInput_idempotent Cases.spending 0
              (Input.fromCoin Cases.witnessCoin) Cases.witnessCoin (Sample.ring 4))
    as [_ Htwice].
  - vm_compute. reflexivity.
  - exact (proj1 (Htwice true m' Hfirst)).
Defined.

Lemma select_hard_fee_witness :
  ∃ s', CoinSelector.select Cases.hardSelector Sample.wallet Sample.rng = Ok s'
        ∧ CoinSelector.fee s' = 5000.
Proof.
  pose proof (select_hard_fee Cases.hardSelector Sample.wallet Sample.rng) as Hhard.
  assert (Hsel : ∃ s', CoinSelector.select Cases.hardSelector Sample.wallet Sample.rng = Ok s')
    by (vm_compute; eexists; reflexivity).
  destruct Hsel as [s' Hsel]. rewrite Hsel in Hhard. exists s'. split; [exact Hsel|].
  destruct Hhard as [Hfee _]; [vm_compute; discriminate|].
  rewrite Hfee. vm_compute. reflexivity.
Defined.

Lemma select_all_consumes_everything_witness :
  ∃ s1 s',
    CoinSelector.init Cases.hardSelector Sample.wallet Sample.rng = Ok s1
    ∧ CoinSelector.init (withSelection Cases.hardSelector "random") Sample.wallet Sample.rng
      = Ok (withSelection s1 "random")
    ∧ CoinSelector.select Cases.hardSelector Sample.wallet Sample.rng = Ok s'
    ∧ CoinSelector.coins s' = CoinSelector.coins s1
    ∧ CoinSelector.chosen s'
      = filter (λ coin, CoinSelector.isSpendable Cases.hardSelector coin = true)
               (CoinSelector.coins s')
    ∧ CoinSelector.total s' ≤ MTX.getInputValue (CoinSelector.tx s').
Proof.
  assert (Hsel : ∃ s', CoinSelector.select Cases.hardSelector Sample.wallet Sample.rng = Ok s')
    by (vm_compute; eexists; reflexivity).
  destruct Hsel as [s' Hsel].
  destruct (select_all_consumes_everything Cases.hardSelector Sample.wallet Sample.rng)
    as (s1 & Hinit & Hrandom & _ & _ & Hall).
  - vm_compute. reflexivity.
  - exists s1, s'. split; [exact Hinit|]. split; [exact Hrandom|]. split; [exact Hsel|].
    destruct (Hall s' Hsel) as (Hcoins & Hchosen & _ & Hfull).
    split; [exact Hcoins|]. split; [exact Hchosen|exact Hfull].
Defined.

Lemma select_coinbase_maturity_witness :
  ∃ s', CoinSelector.select Cases.heightSelector Sample.wallet Sample.rng = Ok s'
        ∧ ∀ coin, coin ∈ CoinSelector.chosen s' → coin ∈ Sample.wallet.
Proof.
  assert (Hsel : ∃ s', CoinSelector.select Cases.heightSelector Sample.wallet Sample.rng = Ok s')
    by (vm_compute; eexists; reflexivity).
  destruct Hsel as [s' Hsel]. exists s'. split; [exact Hsel|].
  destruct (select_coinbase_maturity Cases.heightSelector Sample.wallet Sample.rng)
    as [_ Hsel'].
  - vm_compute. discriminate.
  - intros coin Hin. exact (proj1 (Hsel' s' coin Hsel Hin)).
Defined.

(** *** Where the specification and the code part *)

(** C2: in a 2-of-3 vector, the signature of a key brought a second time
    is not answered with success while a signature is missing. *)
Lemma signVector_second_time_not_success :
  Script.isMultisig Cases.twoOfThree = true
  ∧ MTX.scriptVector Cases.twoOfThree emptyScript (Sample.ring 1)
    = Ok (true, Cases.template3)
  ∧ MTX.signVector Cases.twoOfThree Cases.template3 (Sample.sig 1) (Sample.ring 1)
    = Ok (false, Cases.signedOnce)
  ∧ MTX.signVector Cases.twoOfThree Cases.signedOnce (Sample.sig 1) (Sample.ring 1)
    = Ok (false, Cases.signedOnce).
Proof. vm_compute. split; [reflexivity|]. split; [reflexivity|]. split; reflexivity. Qed.

(** C7: a hard fee of 5000 above a maximum fee of 1000 funds the
    transaction all the same, through [select] as through [fund]. *)
Lemma select_hard_fee_above_maxFee :
  CoinSelector.hardFee Cases.hardSelector = 5000
  ∧ CoinSelector.maxFee Cases.hardSelector = 1000
  ∧ (∃ s', CoinSelector.select Cases.hardSelector Sample.wallet Sample.rng = Ok s'
           ∧ CoinSelector.fee s' = 5000)
  ∧ ∃ m' select,
      fund Sample.payment Sample.wallet (Some Cases.hardOptions) Sample.rng
      = Ok (m', select)
      ∧ CoinSelector.fee select = 5000
      ∧ MTX.getFee m' = 5000.
Proof.
  vm_compute. split; [reflexivity|]. split; [reflexivity|].
  split; [eexists; split; reflexivity|].
  eexists _, _. split; [reflexivity|]. split; reflexivity.
Qed.

(** C8: strategy [all] does not leave the candidates 20000, 30000, 40000
    in the order given whatever the draws. Of the draws all above 0.5
    and the draws none above 0.5, whichever way round the engine hands
    two coins to the comparison, one tells it to exchange neighbours at
    every comparison and the other to exchange none: the two selections
    walk, and consume, the candidates in different orders, so one of
    them at least in another order than the one given. *)
Lemma select_all_reorders :
  CoinSelector.selection Cases.hardSelector = "all"
  ∧ Coin.value <$> Sample.wallet = [20000; 30000; 40000]
  ∧ ∃ high low,
      CoinSelector.select Cases.hardSelector Sample.wallet Sample.rng = Ok high
      ∧ CoinSelector.select Cases.hardSelector Sample.wallet Cases.lowRng = Ok low
      ∧ CoinSelector.chosen high = CoinSelector.coins high
      ∧ CoinSelector.chosen low = CoinSelector.coins low
      ∧ CoinSelector.coins high ≠ CoinSelector.coins low
      ∧ (CoinSelector.coins high ≠ Sample.wallet ∨ CoinSelector.coins low ≠ Sample.wallet).
Proof.
  split; [vm_compute; reflexivity|]. split; [vm_compute; reflexivity|].
  assert (Hsel : ∃ high low,
            CoinSelector.select Cases.hardSelector Sample.wallet Sample.rng = Ok high
            ∧ CoinSelector.select Cases.hardSelector Sample.wallet Cases.lowRng = Ok low
            ∧ CoinSelector.chosen high = CoinSelector.coins high
            ∧ CoinSelector.chosen low = CoinSelector.coins low
            ∧ Coin.value <$> CoinSelector.coins high
              ≠ Coin.value <$> CoinSelector.coins low).
  { vm_compute. eexists _, _. split; [reflexivity|]. split; [reflexivity|].
    split; [reflexivity|]. split; [reflexivity|]. discriminate. }
  destruct Hsel as (high & low & Hhigh & Hlow & Hch & Hcl & Hne).
  exists high, low. split; [exact Hhigh|]. split; [exact Hlow|].
  split; [exact Hch|]. split; [exact Hcl|].
  assert (Hdiff : CoinSelector.coins high ≠ CoinSelector.coins low) by congruence.
  split; [exact Hdiff|].
  destruct (decide (Coin.value <$> CoinSelector.coins high = Coin.value <$> Sample.wallet))
    as [Heq|Hother].
  - right. intros Hsame. apply Hne. by rewrite Heq, Hsame.
  - left. intros Hsame. apply Hother. by rewrite Hsame.
Qed.

(** C9: a selector that does not know the chain height chooses a coinbase
    coin created at height 3, far from mature. *)
Lemma select_immature_coinbase :
  CoinSelector.height Cases.hardSelector = -1
  ∧ ∃ s' coin,
      CoinSelector.select Cases.hardSelector Sample.wallet Sample.rng = Ok s'
      ∧ coin ∈ CoinSelector.chosen s'
      ∧ Coin.coinbase coin = true
      ∧ CoinSelector.height Cases.hardSelector + 1 < Coin.height coin + COINBASE_MATURITY.
Proof.
  split; [vm_compute; reflexivity|].
  assert (Hsel : ∃ s', CoinSelector.select Cases.hardSelector Sample.wallet Sample.rng = Ok s'
                       ∧ CoinSelector.chosen s' !! 1%nat = Some (Sample.coin 2 30000 3 true)).
  { vm_compute. eexists. split; reflexivity. }
  destruct Hsel as (s' & Hsel & Hcoin). exists s', (Sample.coin 2 30000 3 true).
  split; [exact Hsel|]. split; [by eapply list_elem_of_lookup_2|].
  split; [reflexivity|]. vm_compute. reflexivity.
Qed.

(** C10: a fee that no output can absorb is answered with a plain
    [Error], not with the funding error. *)
Lemma subtractFee_throws_plain_error :
  MTX.subtractFee Sample.payment 60000 None = Throw (Error "Could not subtract fee.")
  ∧ MTX.subtractFee Sample.payment 60000 (Some (SFNumber 0))
    = Throw (Error "Could not subtract fee.")
  ∧ ∀ msg amounts,
      MTX.subtractFee Sample.payment 60000 None ≠ Throw (FundingError msg amounts).
Proof. vm_compute. split; [reflexivity|]. split; [reflexivity|]. intros msg amounts [=]. Qed.

(** C6: the signature that [signInput] places in the witness of an input
    spending 50000 under a witness key hash is the signature of the
    digest of the value 0. *)
Lemma signInput_segwit_signs_value_zero :
  Coin.value Cases.witnessCoin = 50000
  ∧ ∃ m1 m2,
      MTX.scriptInput Cases.spending 0 (Some Cases.witnessCoin) (Sample.ring 4)
      = Ok (true, m1)
      ∧ MTX.signInput m1 0 (Some Cases.witnessCoin) (Sample.ring 4) None = Ok (true, m2)
      ∧ (Witness.items ∘ Input.witness) <$> MTX.inputs m2
        = [[Some (sign (signatureHash (MTX.toTX m1) 0
                         (Script.fromPubkeyhash (replicate 20 4)) 0 1 1) [4] 1);
            Some (Sample.key 4)]]
      ∧ signatureHash (MTX.toTX m1) 0 (Script.fromPubkeyhash (replicate 20 4)) 0 1 1
        ≠ signatureHash (MTX.toTX m1) 0 (Script.fromPubkeyhash (replicate 20 4))
            (Coin.value Cases.witnessCoin) 1 1.
Proof.
  split; [reflexivity|]. vm_compute. eexists _, _.
  split; [reflexivity|]. split; [reflexivity|]. split; [reflexivity|]. discriminate.
Qed.


(** ** The further properties on concrete inputs *)

Lemma select_chooses_in_walk_order_witness :
  ∃ s', CoinSelector.select Cases.heightSelector Sample.wallet Sample.rng = Ok s'
        ∧ CoinSelector.chosen s'
          = filter (λ coin, CoinSelector.isSpendable Cases.heightSelector coin = true)
                   (take (Z.to_nat (CoinSelector.index s')) (CoinSelector.coins s')).
Proof.
  assert (Hsel : ∃ s', CoinSelector.select Cases.heightSelector Sample.wallet Sample.rng
                       = Ok s')
    by (vm_compute; eexists; reflexivity).
  destruct Hsel as [s' Hsel]. exists s'. split; [exact Hsel|].
  exact (proj2 (proj2 (select_chooses_in_walk_order _ _ _ _ Hsel))).
Defined.

Lemma select_tx_tracks_chosen_witness :
  ∃ s', CoinSelector.select Further.estimateSelector Sample.wallet Sample.rng = Ok s'
        ∧ MTX.inputs (CoinSelector.tx s') = Input.fromCoin <$> CoinSelector.chosen s'.
Proof.
  assert (Hsel : ∃ s', CoinSelector.select Further.estimateSelector Sample.wallet
                         Sample.rng = Ok s')
    by (vm_compute; eexists; reflexivity).
  destruct Hsel as [s' Hsel]. exists s'. split; [exact Hsel|].
  exact (proj1 (select_tx_tracks_chosen _ _ _ _ Hsel)).
Defined.

Lemma select_estimate_fee_witness :
  ∃ s' tx1,
    CoinSelector.select Further.estimateSelector Sample.wallet Sample.rng = Ok s'
    ∧ firstPass Further.estimateSelector Sample.wallet Sample.rng = Ok tx1
    ∧ CoinSelector.fee s'
      = CoinSelector.getFee Further.estimateSelector
          (MTX.estimateSize tx1 (CoinSelector.estimate Further.estimateSelector)).
Proof.
  assert (Hsel : ∃ s', CoinSelector.select Further.estimateSelector Sample.wallet
                         Sample.rng = Ok s')
    by (vm_compute; eexists; reflexivity).
  destruct Hsel as [s' Hsel].
  destruct (select_estimate_fee Further.estimateSelector Sample.wallet Sample.rng s')
    as (tx1 & Hfirst & Hfee & _).
  - vm_compute. reflexivity.
  - exact Hsel.
  - exists s', tx1. split; [exact Hsel|]. split; [exact Hfirst|exact Hfee].
Defined.

Lemma select_fee_capped_witness :
  ∃ s', CoinSelector.select Cases.hardSelector Sample.wallet Sample.rng = Ok s'
        ∧ CoinSelector.fee s' ≤ MAX_FEE.
Proof.
  assert (Hsel : ∃ s', CoinSelector.select Cases.hardSelector Sample.wallet Sample.rng
                       = Ok s')
    by (vm_compute; eexists; reflexivity).
  destruct Hsel as [s' Hsel]. exists s'. split; [exact Hsel|].
  exact (select_fee_capped _ _ _ _ Hsel).
Defined.


Lemma init_age_oldest_first_witness :
  ∃ s1, CoinSelector.init Cases.heightSelector Sample.wallet Sample.rng = Ok s1
        ∧ ascending age (CoinSelector.coins s1).
Proof.
  assert (Hinit : ∃ s1, CoinSelector.init Cases.heightSelector Sample.wallet Sample.rng
                        = Ok s1)
    by (vm_compute; eexists; reflexivity).
  destruct Hinit as [s1 Hinit]. exists s1. split; [exact Hinit|].
  refine (proj1 (init_age_oldest_first _ _ _ _ _ Hinit)).
  vm_compute. reflexivity.
Defined.

Lemma subtractFee_conserves_witness :
  ∃ m', MTX.subtractFee Sample.payment 1000 None = Ok m'
        ∧ MTX.getOutputValue m' = MTX.getOutputValue Sample.payment - 1000.
Proof.
  assert (Hsub : ∃ m', MTX.subtractFee Sample.payment 1000 None = Ok m')
    by (vm_compute; eexists; reflexivity).
  destruct Hsub as [m' Hsub]. exists m'. split; [exact Hsub|].
  exact (proj1 (subtractFee_conserves _ _ _ _ Hsub)).
Defined.

Lemma fund_reconciles_witness :
  ∃ m' select,
    fund Sample.payment Sample.wallet (Some Cases.fundOptions) Sample.rng
    = Ok (m', select).
Proof.
  assert (Hsel : ∃ select,
            selectCoins Sample.payment Sample.wallet (Some Cases.fundOptions) Sample.rng
            = Ok select
            ∧ CoinSelector.chosen select ≠ []
            ∧ isOk (if CoinSelector.shouldSubtract select
                    then MTX.subtractFee
                           (foldl (λ m coin, MTX.addInput m (MTX.OfCoin coin))
                                  Sample.payment (CoinSelector.chosen select))
                           (CoinSelector.fee select) (CoinSelector.subtractFee select)
                    else Ok (foldl (λ m coin, MTX.addInput m (MTX.OfCoin coin))
                                   Sample.payment (CoinSelector.chosen select))) = true).
  { vm_compute. eexists. split; [reflexivity|]. split; [discriminate|reflexivity]. }
  destruct Hsel as (select & Hsel & Hne & Hok).
  pose proof (fund_reconciles Sample.payment Sample.wallet Cases.fundOptions Sample.rng
                select I eq_refl Hsel Hne) as Hfund.
  cbn zeta in Hfund.
  destruct (if CoinSelector.shouldSubtract select then _ else _) as [funded|e];
    [|discriminate Hok].
  destruct Hfund as [m' Hfund]. by exists m', select.
Defined.

Lemma fund_spends_chosen_witness :
  ∃ m' select,
    fund Sample.payment Sample.wallet (Some Cases.fundOptions) Sample.rng
    = Ok (m', select)
    ∧ MTX.inputs m' = Input.fromCoin <$> CoinSelector.chosen select.
Proof.
  assert (Hfund : ∃ r, fund Sample.payment Sample.wallet (Some Cases.fundOptions)
                         Sample.rng = Ok r)
    by (vm_compute; eexists; reflexivity).
  destruct Hfund as [[m' select] Hfund]. exists m', select. split; [exact Hfund|].
  exact (proj1 (fund_spends_chosen _ _ _ _ _ _ Hfund)).
Defined.

Lemma signVector_agrees_isVectorSigned_witness :
  isVectorSigned Cases.twoOfThree (vectorOf (slotsOps [None; None; None]) []) = false.
Proof.
  refine (proj1 (signVector_agrees_isVectorSigned Cases.twoOfThree [None; None; None] []
                   (Sample.sig 1) (Sample.ring 1) _ _ _ _ _ _)).
  - vm_compute. reflexivity.
  - vm_compute. reflexivity.
  - unfold validSlots.
    repeat (apply List.Forall_cons; [by intros ? [=]|]). apply List.Forall_nil.
  - unfold validSignature. vm_compute. split; discriminate.
  - apply (bool_decide_unpack _). vm_compute. reflexivity.
  - vm_compute. reflexivity.
Defined.

Lemma signVector_key_script_witness :
  isVectorSigned (Sample.p2pkh 4)
    {| Witness.items := [Some (Sample.sig 1); Some (Sample.key 4)] |} = true.
Proof.
  destruct (signVector_key_script (Sample.p2pkh 4) (Sample.sig 1) (Sample.ring 4))
    as [_ Hwitness].
  - unfold validSignature. vm_compute. split; discriminate.
  - right. vm_compute. reflexivity.
  - refine (proj1 (proj1 (Hwitness {| Witness.items := [Some []; Some (Sample.key 4)] |}
                            _ true _) eq_refl)).
    vm_compute. reflexivity.
Defined.

Lemma pubkeyhash_template_then_sign_witness :
  ∃ template : Witness.t,
    MTX.scriptVector (Sample.p2pkh 4) emptyWitness (Sample.ring 4) = Ok (true, template)
    ∧ isVectorSigned (Sample.p2pkh 4) template = false.
Proof.
  destruct (pubkeyhash_template_then_sign (Sample.p2pkh 4) (Sample.sig 1) (Sample.ring 4))
    as [_ (template & Htemplate & Hunsigned & _)].
  - vm_compute. reflexivity.
  - vm_compute. reflexivity.
  - unfold validSignature. vm_compute. split; discriminate.
  - by exists template.
Defined.

Lemma isSigned_needs_coins_witness :
  is_Some (getOutput (MTX.view Further.signedTx) (Further.inputOf Further.signedTx)).
Proof.
  refine (isSigned_needs_coins Further.signedTx Further.signedTx _ _ _).
  - vm_compute. reflexivity.
  - apply (list_elem_of_lookup_2 _ 0%nat). vm_compute. reflexivity.
Defined.

Lemma clone_is_unsigned_witness :
  isSigned (MTX.set_view Further.signedTx ∅) = Ok (false, MTX.set_view Further.signedTx ∅).
Proof.
  refine (proj1 (clone_is_unsigned Further.signedTx _ _ _)).
  - vm_compute. reflexivity.
  - vm_compute. discriminate.
Defined.

Lemma signInput_then_isInputSigned_witness :
  isInputSignedAt (Further.inputOf Further.signedTx) Cases.witnessCoin
  = Ok (true, Further.inputOf Further.signedTx).
Proof.
  refine (proj1 (signInput_then_isInputSigned Further.templatedTx 0
                   (Further.inputOf Further.templatedTx)
                   (Further.inputOf Further.signedTx)
                   Cases.witnessCoin (Sample.ring 4) None _ _ _)).
  - right. right. vm_compute. reflexivity.
  - intros prev version. unfold validSignature. vm_compute. split; discriminate.
  - vm_compute. reflexivity.
Defined.

Lemma select_gathers_values_witness :
  ∃ s', CoinSelector.select Cases.hardSelector Sample.wallet Sample.rng = Ok s'
        ∧ MTX.getInputValue (CoinSelector.tx s') = valueOf (CoinSelector.chosen s').
Proof.
  assert (Hsel : ∃ s', CoinSelector.select Cases.hardSelector Sample.wallet Sample.rng
                       = Ok s')
    by (vm_compute; eexists; reflexivity).
  destruct Hsel as [s' Hsel]. exists s'. split; [exact Hsel|].
  refine (proj1 (select_gathers_values _ _ _ _ _ Hsel)).
  apply (bool_decide_unpack _). vm_compute. reflexivity.
Defined.

Lemma select_confirmations_witness :
  ∃ s', CoinSelector.select Further.confirmedSelector Further.confirmedWallet Sample.rng
        = Ok s'
        ∧ ∀ coin, coin ∈ CoinSelector.chosen s' → Coin.height coin ≠ -1.
Proof.
  assert (Hsel : ∃ s', CoinSelector.select Further.confirmedSelector
                         Further.confirmedWallet Sample.rng = Ok s')
    by (vm_compute; eexists; reflexivity).
  destruct Hsel as [s' Hsel]. exists s'. split; [exact Hsel|].
  intros coin Hin.
  refine (proj1 (select_confirmations _ _ _ _ _ _ Hsel coin Hin)).
  - vm_compute. discriminate.
  - vm_compute. reflexivity.
Defined.

Lemma selectHard_no_coin_too_many_witness :
  ∃ s', CoinSelector.select Cases.heightSelector Sample.wallet Sample.rng = Ok s'
        ∧ ∀ pre last, CoinSelector.chosen s' = pre ++ [last] → pre ≠ [] →
            MTX.getInputValue
              (spending (MTX.set_inputs (CoinSelector.tx Cases.heightSelector) []) pre)
            < CoinSelector.total s'.
Proof.
  assert (Hsel : ∃ s', CoinSelector.select Cases.heightSelector Sample.wallet Sample.rng
                       = Ok s')
    by (vm_compute; eexists; reflexivity).
  destruct Hsel as [s' Hsel]. exists s'. split; [exact Hsel|].
  refine (selectHard_no_coin_too_many _ _ _ _ _ _ Hsel).
  - vm_compute. discriminate.
  - vm_compute. discriminate.
Defined.

Lemma estimateSize_bounds_witness :
  estimateBase Further.signedTx + 41 * Z.of_nat (length (MTX.inputs Further.signedTx))
  ≤ MTX.estimateSize Further.signedTx None
  ≤ estimateBase Further.signedTx
    + 1228 * Z.of_nat (length (MTX.inputs Further.signedTx)).
Proof.
  refine (estimateSize_bounds Further.signedTx _).
  vm_compute. discriminate.
Defined.

Lemma estimateSize_ignores_signatures_witness :
  MTX.estimateSize (MTX.set_inputs Cases.spending (MTX.inputs Further.signedTx)) None
  = MTX.estimateSize Cases.spending None.
Proof.
  refine (estimateSize_ignores_signatures Cases.spending (MTX.inputs Further.signedTx)
            None _).
  vm_compute. reflexivity.
Defined.
